(** * TinyLocket extension: vault, session guard and request broker

    A shallow embedding of the extension's services
    ([CryptoService], [StorageService], [VaultService], [SessionService]),
    of the background message handler and of the API proxy, followed by
    the properties of the design document that were checked against them.

    Conventions of the embedding:
    - a [Uint8Array] is a [list byte]; a buffer whose identity matters
      (the derived key, zeroed in place on lock) lives in a heap of buffers;
    - a JavaScript string that goes through [TextEncoder]/[TextDecoder] is
      the list of its UTF-16 code units; strings that are only compared or
      concatenated (identifiers, domains, messages) are [string]s;
    - [async] methods run to completion one after the other: a method is a
      function from the world before to a completion (a value or a thrown
      error) and the world after;
    - [Date.now], [randomBytes] and [uuidv4] read an oracle at a cursor kept
      in the world, so that no two draws share a position;
    - the library primitives ([pbkdf2], AES-GCM, [btoa]/[atob], [JSON],
      [URL], [fetch]) are section variables. *)

From Stdlib Require Import ZArith List String Lia Bool.
From Stdlib Require Import Strings.Byte.
From stdpp Require Import base option list gmap strings.

Local Open Scope Z_scope.

(** ** Bytes and text *)

Abbreviation bytes := (list byte).

(** UTF-16 code units of a JavaScript string. *)
Abbreviation jsstring := (list Z).

Definition byte_of_Z (z : Z) : byte :=
  match Byte.of_N (Z.to_N z) with
  | Some b => b
  | None => "000"%byte
  end.

Definition Z_of_byte (b : byte) : Z := Z.of_N (Byte.to_N b).

#[global] Instance byte_eq_decision : EqDecision byte := Byte.byte_eq_dec.

Module Utf8.

(** *** Encoding (what [TextEncoder.encode] does)

    The argument is first converted to a sequence of scalar values: a
    surrogate pair becomes one code point, an unpaired surrogate becomes
    U+FFFD.  Each scalar value is then written in one to four bytes. *)

Definition is_high (c : Z) : bool := (0xD800 <=? c) && (c <=? 0xDBFF).
Definition is_low (c : Z) : bool := (0xDC00 <=? c) && (c <=? 0xDFFF).

Fixpoint scalar_values (s : jsstring) : list Z :=
  match s with
  | [] => []
  | c :: r =>
      if is_high c then
        match r with
        | d :: r' =>
            if is_low d
            then (0x10000 + (c - 0xD800) * 0x400 + (d - 0xDC00)) :: scalar_values r'
            else 0xFFFD :: scalar_values r
        | [] => [0xFFFD]
        end
      else if is_low c then 0xFFFD :: scalar_values r
      else c :: scalar_values r
  end.

Definition encode_scalar (cp : Z) : list Z :=
  if cp <=? 0x7F then [cp]
  else if cp <=? 0x7FF then [0xC0 + cp / 64; 0x80 + cp mod 64]
  else if cp <=? 0xFFFF then
    [0xE0 + cp / 4096; 0x80 + (cp / 64) mod 64; 0x80 + cp mod 64]
  else
    [0xF0 + cp / 262144; 0x80 + (cp / 4096) mod 64;
     0x80 + (cp / 64) mod 64; 0x80 + cp mod 64].

Definition encode_Z (s : jsstring) : list Z :=
  concat (map encode_scalar (scalar_values s)).

Definition encode (s : jsstring) : bytes := map byte_of_Z (encode_Z s).

(** *** Decoding (what [TextDecoder.decode] does, [fatal] off)

    The decoder of the Encoding standard: a state machine fed one byte at a
    time, which emits a code point, or U+FFFD for a malformed sequence. *)

Record Decoder := mkDecoder {
  code_point : Z;
  bytes_seen : Z;
  bytes_needed : Z;
  lower_boundary : Z;
  upper_boundary : Z;
}.

Definition fresh : Decoder := mkDecoder 0 0 0 0x80 0xBF.

(** A byte read while no sequence is open. *)
Definition lead (b : Z) : Decoder * list Z :=
  if b <=? 0x7F then (fresh, [b])
  else if (0xC2 <=? b) && (b <=? 0xDF) then
    (mkDecoder (b mod 32) 0 1 0x80 0xBF, [])
  else if (0xE0 <=? b) && (b <=? 0xEF) then
    (mkDecoder (b mod 16) 0 2
       (if b =? 0xE0 then 0xA0 else 0x80)
       (if b =? 0xED then 0x9F else 0xBF), [])
  else if (0xF0 <=? b) && (b <=? 0xF4) then
    (mkDecoder (b mod 8) 0 3
       (if b =? 0xF0 then 0x90 else 0x80)
       (if b =? 0xF4 then 0x8F else 0xBF), [])
  else (fresh, [0xFFFD]).

(** One step.  A byte outside the expected range closes the open sequence
    with U+FFFD and is read again as a lead byte. *)
Definition handler (d : Decoder) (b : Z) : Decoder * list Z :=
  if bytes_needed d =? 0 then lead b
  else if negb ((lower_boundary d <=? b) && (b <=? upper_boundary d)) then
    let '(d', out) := lead b in (d', 0xFFFD :: out)
  else
    let cp := code_point d * 64 + b mod 64 in
    let seen := bytes_seen d + 1 in
    if seen =? bytes_needed d then (fresh, [cp])
    else (mkDecoder cp seen (bytes_needed d) 0x80 0xBF, []).

Fixpoint run (d : Decoder) (input : list Z) : Decoder * list Z :=
  match input with
  | [] => (d, [])
  | b :: r =>
      let '(d1, out1) := handler d b in
      let '(d2, out2) := run d1 r in
      (d2, out1 ++ out2)
  end.

(** End of input with [stream] off: an open sequence yields U+FFFD. *)
Definition flush (d : Decoder) : list Z :=
  if bytes_needed d =? 0 then [] else [0xFFFD].

Definition code_units (cp : Z) : jsstring :=
  if cp <=? 0xFFFF then [cp]
  else [0xD800 + (cp - 0x10000) / 0x400; 0xDC00 + (cp - 0x10000) mod 0x400].

(** Serialisation of the decoded code points: with [ignoreBOM] off, the
    first code point decoded since the decoder was created is dropped
    when it is U+FEFF. *)
Definition serialize (bom_seen : bool) (cps : list Z) : bool * jsstring :=
  match cps with
  | [] => (bom_seen, [])
  | c :: r =>
      (true, if negb bom_seen && (c =? 0xFEFF)
             then concat (map code_units r)
             else concat (map code_units cps))
  end.

(** The state of a [TextDecoder] object between two calls with
    [{stream: true}]. *)
Record TextDecoder := mkTextDecoder {
  td_decoder : Decoder;
  td_bom_seen : bool;
}.

Definition new_TextDecoder : TextDecoder := mkTextDecoder fresh false.

(** [decoder.decode(value, {stream: true})] *)
Definition decode_stream (td : TextDecoder) (input : bytes)
  : TextDecoder * jsstring :=
  let '(d, cps) := run (td_decoder td) (map Z_of_byte input) in
  let '(seen, text) := serialize (td_bom_seen td) cps in
  (mkTextDecoder d seen, text).

(** [new TextDecoder().decode(input)] *)
Definition decode (input : bytes) : jsstring :=
  let '(d, cps) := run fresh (map Z_of_byte input) in
  snd (serialize false (cps ++ flush d)).

(** Strings that [encode] does not alter on the way in: every code unit
    is a 16-bit value and every surrogate is half of a pair. *)
Fixpoint well_formed (s : jsstring) : Prop :=
  match s with
  | [] => True
  | c :: r =>
      0 <= c <= 0xFFFF /\
      if is_high c then
        match r with
        | d :: r' => is_low d = true /\ well_formed r'
        | [] => False
        end
      else is_low c = false /\ well_formed r
  end.

(** Code points that have an encoding: the surrogates have none. *)
Definition scalar (cp : Z) : Prop :=
  0 <= cp <= 0x10FFFF /\ ~ (0xD800 <= cp <= 0xDFFF).

End Utf8.

(** ** Stored data (shared/types/storage.ts) *)

Module VaultData.
Record t := mk {
  encrypted : string;   (* base64 of the ciphertext *)
  salt : string;        (* base64 of the salt *)
  iv : string;          (* base64 of the nonce *)
  createdAt : Z;
  updatedAt : Z;
}.
End VaultData.

Module ApiKeyEntry.
Record t := mk {
  id : string;
  provider : string;
  name : string;
  apiKey : string;
  endpointUrl : option string;
  createdAt : Z;
  updatedAt : Z;
}.
End ApiKeyEntry.

Module WhitelistedDomain.
Record t := mk { domain : string; addedAt : Z }.
End WhitelistedDomain.

Module RequestHistoryEntry.
Record t := mk {
  id : string;
  timestamp : Z;
  provider : string;
  endpoint : string;
  domain : string;
  status : Z;
  durationMs : Z;
}.
End RequestHistoryEntry.

Module ExtensionSettings.
Record t := mk {
  autoLockMinutes : Z;
  historyEnabled : bool;
  maxHistoryEntries : Z;
}.

(** [Partial<ExtensionSettings>] *)
Record partial := mkPartial {
  autoLockMinutes' : option Z;
  historyEnabled' : option bool;
  maxHistoryEntries' : option Z;
}.

(** [{ ...base, ...over }] *)
Definition spread (base : t) (over : partial) : t :=
  mk (default (autoLockMinutes base) (autoLockMinutes' over))
     (default (historyEnabled base) (historyEnabled' over))
     (default (maxHistoryEntries base) (maxHistoryEntries' over)).

Definition total (s : t) : partial :=
  mkPartial (Some (autoLockMinutes s)) (Some (historyEnabled s))
            (Some (maxHistoryEntries s)).
End ExtensionSettings.

Definition DEFAULT_SETTINGS : ExtensionSettings.t :=
  ExtensionSettings.mk 30 true 1000.

Module StoredData.
Record t := mk {
  vault : option VaultData.t;
  whitelistedDomains : list WhitelistedDomain.t;
  requestHistory : list RequestHistoryEntry.t;
  settings : ExtensionSettings.t;
  customEndpoints : gmap string string;
}.

Definition with_vault (v : VaultData.t) (d : t) : t :=
  mk (Some v) (whitelistedDomains d) (requestHistory d) (settings d)
     (customEndpoints d).
Definition with_whitelistedDomains l (d : t) : t :=
  mk (vault d) l (requestHistory d) (settings d) (customEndpoints d).
Definition with_requestHistory l (d : t) : t :=
  mk (vault d) (whitelistedDomains d) l (settings d) (customEndpoints d).
Definition with_settings s (d : t) : t :=
  mk (vault d) (whitelistedDomains d) (requestHistory d) s (customEndpoints d).
Definition with_customEndpoints m (d : t) : t :=
  mk (vault d) (whitelistedDomains d) (requestHistory d) (settings d) m.
End StoredData.

(** The content of [chrome.storage.local]: any key may be absent. *)
Module ChromeStorage.
Record t := mk {
  vault : option VaultData.t;
  whitelistedDomains : option (list WhitelistedDomain.t);
  requestHistory : option (list RequestHistoryEntry.t);
  settings : option ExtensionSettings.partial;
  customEndpoints : option (gmap string string);
}.

Definition empty : t := mk None None None None None.

(** One call of [chrome.storage.local.set]. *)
Inductive write :=
| SetVault (v : VaultData.t)
| SetWhitelistedDomains (l : list WhitelistedDomain.t)
| SetRequestHistory (l : list RequestHistoryEntry.t)
| SetSettings (s : ExtensionSettings.t)
| SetCustomEndpoints (m : gmap string string)
| Clear.

Definition apply (x : write) (c : t) : t :=
  match x with
  | SetVault v =>
      mk (Some v) (whitelistedDomains c) (requestHistory c) (settings c)
         (customEndpoints c)
  | SetWhitelistedDomains l =>
      mk (vault c) (Some l) (requestHistory c) (settings c) (customEndpoints c)
  | SetRequestHistory l =>
      mk (vault c) (whitelistedDomains c) (Some l) (settings c)
         (customEndpoints c)
  | SetSettings s =>
      mk (vault c) (whitelistedDomains c) (requestHistory c)
         (Some (ExtensionSettings.total s)) (customEndpoints c)
  | SetCustomEndpoints m =>
      mk (vault c) (whitelistedDomains c) (requestHistory c) (settings c)
         (Some m)
  | Clear => empty
  end.
End ChromeStorage.

(** ** The world *)

(** What leaves the background worker. *)
Inductive Sent :=
| RuntimeMessage (type : string)
| StreamChunk (tabId : Z) (requestId : string) (chunk : jsstring) (done : bool).

Record World := mkWorld {
  ticks : nat;                               (* cursor of the oracles *)
  local : ChromeStorage.t;                   (* chrome.storage.local *)
  writes : list ChromeStorage.write;         (* its [set] calls, oldest first *)
  cache : option StoredData.t;               (* StorageService.cache *)
  heap : list bytes;                         (* key buffers, by address *)
  encryptionKey : option nat;                (* VaultService.encryptionKey *)
  decryptedKeys : option (list ApiKeyEntry.t); (* VaultService.decryptedKeys *)
  lastActivity : Z;                          (* SessionService.lastActivity *)
  alarm : option Z;                          (* pending auto-lock alarm: its delayInMinutes *)
  tabs : list (option Z);                    (* ids of the open tabs *)
  outbox : list Sent;                        (* messages sent, oldest first *)
}.

Definition set_ticks x (w : World) : World :=
  mkWorld x (local w) (writes w) (cache w) (heap w) (encryptionKey w)
          (decryptedKeys w) (lastActivity w) (alarm w) (tabs w) (outbox w).
Definition set_local x (w : World) : World :=
  mkWorld (ticks w) x (writes w) (cache w) (heap w) (encryptionKey w)
          (decryptedKeys w) (lastActivity w) (alarm w) (tabs w) (outbox w).
Definition set_writes x (w : World) : World :=
  mkWorld (ticks w) (local w) x (cache w) (heap w) (encryptionKey w)
          (decryptedKeys w) (lastActivity w) (alarm w) (tabs w) (outbox w).
Definition set_cache x (w : World) : World :=
  mkWorld (ticks w) (local w) (writes w) x (heap w) (encryptionKey w)
          (decryptedKeys w) (lastActivity w) (alarm w) (tabs w) (outbox w).
Definition set_heap x (w : World) : World :=
  mkWorld (ticks w) (local w) (writes w) (cache w) x (encryptionKey w)
          (decryptedKeys w) (lastActivity w) (alarm w) (tabs w) (outbox w).
Definition set_encryptionKey x (w : World) : World :=
  mkWorld (ticks w) (local w) (writes w) (cache w) (heap w) x
          (decryptedKeys w) (lastActivity w) (alarm w) (tabs w) (outbox w).
Definition set_decryptedKeys x (w : World) : World :=
  mkWorld (ticks w) (local w) (writes w) (cache w) (heap w) (encryptionKey w)
          x (lastActivity w) (alarm w) (tabs w) (outbox w).
Definition set_lastActivity x (w : World) : World :=
  mkWorld (ticks w) (local w) (writes w) (cache w) (heap w) (encryptionKey w)
          (decryptedKeys w) x (alarm w) (tabs w) (outbox w).
Definition set_alarm x (w : World) : World :=
  mkWorld (ticks w) (local w) (writes w) (cache w) (heap w) (encryptionKey w)
          (decryptedKeys w) (lastActivity w) x (tabs w) (outbox w).
Definition set_outbox x (w : World) : World :=
  mkWorld (ticks w) (local w) (writes w) (cache w) (heap w) (encryptionKey w)
          (decryptedKeys w) (lastActivity w) (alarm w) (tabs w) x.

(** ** Computations *)

Inductive Completion (A : Type) :=
| Normal (a : A)
| Thrown (e : string).
Arguments Normal {A} a.
Arguments Thrown {A} e.

Definition Js (A : Type) : Type := World -> Completion A * World.

#[global] Instance Js_ret : MRet Js := fun A a w => (Normal a, w).

#[global] Instance Js_bind : MBind Js := fun A B k m w =>
  match m w with
  | (Normal a, w') => k a w'
  | (Thrown e, w') => (Thrown e, w')
  end.

Definition throw {A} (e : string) : Js A := fun w => (Thrown e, w).

(** [try { body } catch (e) { handler }] *)
Definition try_catch {A} (body : Js A) (handler : string -> Js A) : Js A :=
  fun w =>
    match body w with
    | (Normal a, w') => (Normal a, w')
    | (Thrown e, w') => handler e w'
    end.

(** A promise that nobody awaits: its effects happen, its rejection is
    lost. *)
Definition unawaited {A} (m : Js A) : Js unit :=
  fun w => (Normal tt, snd (m w)).

Definition read {A} (f : World -> A) : Js A := fun w => (Normal (f w), w).
Definition update (f : World -> World) : Js unit := fun w => (Normal tt, f w).


(** ** Providers (shared/types/providers.ts) *)

Module ProviderConfig.
Record t := mk {
  id : string;
  name : string;
  baseUrl : string;
  authHeader : string;
  authPrefix : string;
  testEndpoint : string;
  requiresEndpointUrl : bool;
}.
End ProviderConfig.

Definition PROVIDERS : list ProviderConfig.t :=
  [ ProviderConfig.mk "openai" "OpenAI" "https://api.openai.com"
      "Authorization" "Bearer " "/v1/models" false;
    ProviderConfig.mk "anthropic" "Anthropic" "https://api.anthropic.com"
      "x-api-key" "" "/v1/messages" false;
    ProviderConfig.mk "gemini" "Google Gemini"
      "https://generativelanguage.googleapis.com"
      "x-goog-api-key" "" "/v1/models" false;
    ProviderConfig.mk "mistral" "Mistral AI" "https://api.mistral.ai"
      "Authorization" "Bearer " "/v1/models" false;
    ProviderConfig.mk "cohere" "Cohere" "https://api.cohere.ai"
      "Authorization" "Bearer " "/v1/models" false;
    ProviderConfig.mk "groq" "Groq" "https://api.groq.com/openai"
      "Authorization" "Bearer " "/v1/models" false;
    ProviderConfig.mk "xai" "xAI (Grok)" "https://api.x.ai"
      "Authorization" "Bearer " "/v1/models" false;
    ProviderConfig.mk "deepseek" "DeepSeek" "https://api.deepseek.com"
      "Authorization" "Bearer " "/v1/models" false;
    ProviderConfig.mk "perplexity" "Perplexity" "https://api.perplexity.ai"
      "Authorization" "Bearer " "/chat/completions" false;
    ProviderConfig.mk "together" "Together AI" "https://api.together.xyz"
      "Authorization" "Bearer " "/v1/models" false;
    ProviderConfig.mk "lm_studio" "LM Studio / Custom" ""
      "Authorization" "Bearer " "/v1/models" true ].

Definition getProviderById (id : string) : option ProviderConfig.t :=
  List.find (fun p => bool_decide (ProviderConfig.id p = id)) PROVIDERS.

(** ** Messages (shared/types/messages.ts, background/message-handler.ts) *)

Definition MESSAGE_TYPE_PING : string := "TINYLOCKET_PING".
Definition MESSAGE_TYPE_PONG : string := "TINYLOCKET_PONG".
Definition MESSAGE_TYPE_REQUEST : string := "TINYLOCKET_REQUEST".
Definition MESSAGE_TYPE_RESPONSE : string := "TINYLOCKET_RESPONSE".
Definition MESSAGE_TYPE_GET_PROVIDERS : string := "TINYLOCKET_GET_PROVIDERS".
Definition MESSAGE_TYPE_GET_STATUS : string := "TINYLOCKET_GET_STATUS".

Inductive TinylocketErrorCode :=
| NOT_INSTALLED
| CONNECTION_REFUSED
| LOCKED
| DOMAIN_NOT_ALLOWED
| NO_KEY
| TIMEOUT
| NETWORK_ERROR
| INVALID_REQUEST.

Record ProviderInfo := mkProviderInfo {
  info_id : string;
  info_name : string;
  info_hasKey : bool;
}.

(** The body of a response as the proxy returns it: the text, or the value
    [response.json()] parsed from the text. *)
Inductive ResponseBody :=
| Text (text : jsstring)
| Json (source : jsstring).

Record ProxyResult := mkProxyResult {
  result_status : Z;
  result_headers : gmap string string;
  result_body : ResponseBody;
}.

Module Payload.
Record t := mk {
  provider : option string;
  endpoint : option string;
  method : option string;
  headers : option (gmap string string);
  body : option string;            (* a body that is set, as its JSON text *)
  stream : option bool;
  endpointUrl : option string;
}.
End Payload.

Module MessagePayload.
Record t := mk {
  type : string;
  requestId : option string;
  origin : option string;
  payload : option Payload.t;
}.
End MessagePayload.

Inductive ResponseData :=
| Installed (version : string)
| Status (unlocked : bool) (version : string)
| Providers (providers : list ProviderInfo)
| Proxied (result : ProxyResult).

Module MessageResponse.
Record t := mk {
  type : string;
  requestId : string;
  success : bool;
  error : option (TinylocketErrorCode * string);
  data : option ResponseData;
}.
End MessageResponse.

(** ** The network (what [fetch] resolves to) *)

Inductive StreamEnd :=
| Closed
| Errored (e : string).

(** A response body read chunk by chunk: the chunks [reader.read()] gives,
    then the end of the stream or the failure of a read. *)
Record ReadableStream := mkReadableStream {
  stream_chunks : list bytes;
  stream_end : StreamEnd;
}.

Module Response.
Record t := mk {
  status : Z;
  headers : gmap string string;
  text : jsstring;                 (* the body as [text()] gives it *)
  json : bool;                     (* whether the body parses as JSON *)
  body : option ReadableStream;
}.

Definition ok (r : t) : bool := (200 <=? status r) && (status r <=? 299).
End Response.


(** ** The popup (popup/store/index.ts) *)

Inductive Page :=
| PageSetup
| PageUnlock
| PageHome
| PageKeys
| PageDomains
| PageHistory
| PageSettings.

(** The state of the store. *)
Module PopupState.
Record t := mk {
  currentPage : Page;
  isUnlocked : bool;
  hasVault : bool;
  keys : list ApiKeyEntry.t;
  domains : list WhitelistedDomain.t;
  history : list RequestHistoryEntry.t;
  settings : option ExtensionSettings.t;
}.

Definition initial : t := mk PageHome false false [] [] [] None.

Definition with_currentPage x (s : t) : t :=
  mk x (isUnlocked s) (hasVault s) (keys s) (domains s) (history s) (settings s).
Definition with_isUnlocked x (s : t) : t :=
  mk (currentPage s) x (hasVault s) (keys s) (domains s) (history s) (settings s).
Definition with_hasVault x (s : t) : t :=
  mk (currentPage s) (isUnlocked s) x (keys s) (domains s) (history s) (settings s).
Definition with_keys x (s : t) : t :=
  mk (currentPage s) (isUnlocked s) (hasVault s) x (domains s) (history s) (settings s).
Definition with_domains x (s : t) : t :=
  mk (currentPage s) (isUnlocked s) (hasVault s) (keys s) x (history s) (settings s).
Definition with_history x (s : t) : t :=
  mk (currentPage s) (isUnlocked s) (hasVault s) (keys s) (domains s) x (settings s).
Definition with_settings x (s : t) : t :=
  mk (currentPage s) (isUnlocked s) (hasVault s) (keys s) (domains s) (history s) x.
End PopupState.

(** An action of the store: a computation over the state of the store and
    the world of the services the popup has loaded. *)
Definition Popup (A : Type) : Type :=
  PopupState.t * World -> Completion A * (PopupState.t * World).

#[global] Instance Popup_ret : MRet Popup := fun A a s => (Normal a, s).

#[global] Instance Popup_bind : MBind Popup := fun A B k m s =>
  match m s with
  | (Normal a, s') => k a s'
  | (Thrown e, s') => (Thrown e, s')
  end.

(** A call of a service from the store. *)
Definition call {A} (m : Js A) : Popup A :=
  fun s => let '(c, w') := m (snd s) in (c, (fst s, w')).

(** [set(partial)] *)
Definition set_state (f : PopupState.t -> PopupState.t) : Popup unit :=
  fun s => (Normal tt, (f (fst s), snd s)).


(** ** The page (content/index.ts, inpage/index.ts) *)

Definition MESSAGE_TARGET_CONTENT_SCRIPT : string := "TINYLOCKET_CONTENT_SCRIPT".
Definition MESSAGE_TARGET_INPAGE : string := "TINYLOCKET_INPAGE".
Definition MESSAGE_TYPE_STREAM_CHUNK : string := "TINYLOCKET_STREAM_CHUNK".

(** A code as it travels in a message. *)
Definition code_name (code : TinylocketErrorCode) : string :=
  match code with
  | NOT_INSTALLED => "NOT_INSTALLED"
  | CONNECTION_REFUSED => "CONNECTION_REFUSED"
  | LOCKED => "LOCKED"
  | DOMAIN_NOT_ALLOWED => "DOMAIN_NOT_ALLOWED"
  | NO_KEY => "NO_KEY"
  | TIMEOUT => "TIMEOUT"
  | NETWORK_ERROR => "NETWORK_ERROR"
  | INVALID_REQUEST => "INVALID_REQUEST"
  end.

(** [event.data] of a message the page receives, as the listener of the
    in-page script reads it: [success] and [done] by their truth value,
    [error] by its [message] and its [code]. *)
Module EventData.
Record t := mk {
  target : option string;
  type : option string;
  requestId : option string;
  success : bool;
  error_message : option string;
  error_code : option string;
  data : option ResponseData;
  chunk : option jsstring;
  done : bool;
}.
End EventData.

(** What the content script posts to the page for the answer of the
    background: the fields of the answer, spread over the target, the type
    and the request id of its own.  When the handler threw, the background
    answers with [{ error: error.message }]: a string, that has no
    [message] and no [code]. *)
Definition posted_answer (requestId : option string)
    (answer : Completion MessageResponse.t) : EventData.t :=
  match answer with
  | Normal response =>
      EventData.mk (Some MESSAGE_TARGET_INPAGE)
                   (Some (MessageResponse.type response))
                   (Some (MessageResponse.requestId response))
                   (MessageResponse.success response)
                   (snd <$> MessageResponse.error response)
                   ((fun e => code_name (fst e)) <$> MessageResponse.error response)
                   (MessageResponse.data response)
                   None false
  | Thrown _ =>
      EventData.mk (Some MESSAGE_TARGET_INPAGE) (Some MESSAGE_TYPE_RESPONSE)
                   requestId false None None None None false
  end.

(** What it posts when [chrome.runtime.sendMessage] rejects. *)
Definition posted_error (requestId : option string) (message : string)
  : EventData.t :=
  EventData.mk (Some MESSAGE_TARGET_INPAGE) (Some MESSAGE_TYPE_RESPONSE)
               requestId false (Some message) (Some "NETWORK_ERROR"%string)
               None None false.

(** What it posts for a chunk the background sent to its tab. *)
Definition posted_chunk (requestId : string) (chunk : jsstring) (done : bool)
  : EventData.t :=
  EventData.mk (Some MESSAGE_TARGET_INPAGE) (Some MESSAGE_TYPE_STREAM_CHUNK)
               (Some requestId) false None None None (Some chunk) done.

(** The in-page script.  An entry of [pendingRequests] is three closures; it
    is kept here as what they close over: the promise and the timer of a
    call of [sendMessage], or the variables of a generator of [stream]. *)
Module Inpage.

(** An [Error] with the [code] put on it. *)
Record Failure := mkFailure {
  message : string;
  code : option string;
}.

Inductive Settled :=
| Fulfilled (value : option ResponseData)
| Rejected (e : Failure).

Inductive Pending :=
| OfCall (call : nat)
| OfStream (generator : nat).

(** A call of [sendMessage]: its request id, whether its timer is armed,
    and what its promise is settled with. *)
Record Call := mkCall {
  call_requestId : string;
  timer : bool;
  promise : option Settled;
}.

(** The variables of a generator of [stream]. *)
Record Generator := mkGenerator {
  chunks : list jsstring;
  done : bool;
  error : option Failure;
}.

Record t := mk {
  pendingRequests : gmap string Pending;
  calls : list Call;
  generators : list Generator;
  posted : list MessagePayload.t;       (* the messages for the content script *)
}.

Definition with_pendingRequests x (p : t) : t :=
  mk x (calls p) (generators p) (posted p).
Definition with_calls x (p : t) : t :=
  mk (pendingRequests p) x (generators p) (posted p).
Definition with_generators x (p : t) : t :=
  mk (pendingRequests p) (calls p) x (posted p).

(** A promise is settled once. *)
Definition settle (s : Settled) (c : Call) : Call :=
  mkCall (call_requestId c) (timer c) (Some (default s (promise c))).

Definition clearTimeout (c : Call) : Call :=
  mkCall (call_requestId c) false (promise c).

(** [sendMessage], with the request id [generateRequestId] gave. *)
Definition sendMessage (type : string) (payload : option Payload.t)
    (requestId : string) (p : t) : t :=
  mk (<[requestId := OfCall (length (calls p))]> (pendingRequests p))
     (calls p ++ [mkCall requestId true None])
     (generators p)
     (posted p ++ [MessagePayload.mk type (Some requestId) None payload]).

(** The timer of a call, when it fires. *)
Definition timed_out (call : nat) (p : t) : t :=
  match calls p !! call with
  | Some c =>
      if timer c then
        mk (delete (call_requestId c) (pendingRequests p))
           (<[call := settle (Rejected (mkFailure "Request timed out" None))
                             (clearTimeout c)]> (calls p))
           (generators p) (posted p)
      else p
  | None => p
  end.

Definition resolve (pending : Pending) (value : option ResponseData) (p : t) : t :=
  match pending with
  | OfCall call =>
      match calls p !! call with
      | Some c =>
          mk (delete (call_requestId c) (pendingRequests p))
             (<[call := settle (Fulfilled value) (clearTimeout c)]> (calls p))
             (generators p) (posted p)
      | None => p
      end
  | OfStream generator =>
      with_generators
        (alter (fun g => mkGenerator (chunks g) true (error g)) generator
               (generators p)) p
  end.

Definition reject (pending : Pending) (e : Failure) (p : t) : t :=
  match pending with
  | OfCall call =>
      match calls p !! call with
      | Some c =>
          mk (delete (call_requestId c) (pendingRequests p))
             (<[call := settle (Rejected e) (clearTimeout c)]> (calls p))
             (generators p) (posted p)
      | None => p
      end
  | OfStream generator =>
      with_generators
        (alter (fun g => mkGenerator (chunks g) (done g) (Some e)) generator
               (generators p)) p
  end.

(** The [streamCallback] of the entry of a generator. *)
Definition streamCallback (generator : nat) (chunk : option jsstring)
    (isDone : bool) (p : t) : t :=
  with_generators
    (alter (fun g =>
              mkGenerator
                (match chunk with
                 | Some ((_ :: _) as text) => chunks g ++ [text]
                 | _ => chunks g
                 end)
                (if isDone then true else done g)
                (error g))
           generator (generators p)) p.

(** A string in a condition. *)
Definition or_else (s : option string) (other : string) : string :=
  match s with
  | Some s => if bool_decide (s = ""%string) then other else s
  | None => other
  end.

(** The listener of the window: [from_window] is [event.source === window],
    [data] is [event.data] when it is an object. *)
Definition listener (from_window : bool) (data : option EventData.t) (p : t) : t :=
  if negb from_window then p
  else
    match data with
    | None => p
    | Some data =>
        if negb (bool_decide (EventData.target data = Some MESSAGE_TARGET_INPAGE))
        then p
        else
          let pending :=
            match EventData.requestId data with
            | Some requestId => pendingRequests p !! requestId
            | None => None
            end in
          if bool_decide (EventData.type data = Some MESSAGE_TYPE_STREAM_CHUNK)
          then
            match pending with
            | Some (OfStream generator) =>
                let p := streamCallback generator (EventData.chunk data)
                                        (EventData.done data) p in
                if EventData.done data
                then resolve (OfStream generator) None p
                else p
            | _ => p
            end
          else
            match pending with
            | None => p
            | Some pending =>
                if EventData.success data
                then resolve pending (EventData.data data) p
                else
                  reject pending
                    (mkFailure
                       (or_else (EventData.error_message data) "Unknown error")
                       (Some (or_else (EventData.error_code data) "NETWORK_ERROR")))
                    p
            end
    end.

(** [stream], up to its loop: the variables of the generator, its entry,
    the message for the content script. *)
Definition stream (options : Payload.t) (requestId : string) (p : t) : t :=
  mk (<[requestId := OfStream (length (generators p))]> (pendingRequests p))
     (calls p)
     (generators p ++ [mkGenerator [] false None])
     (posted p
      ++ [MessagePayload.mk MESSAGE_TYPE_REQUEST (Some requestId) None
            (Some (Payload.mk (Payload.provider options) (Payload.endpoint options)
                     (Payload.method options) (Payload.headers options)
                     (Payload.body options) (Some true)
                     (Payload.endpointUrl options)))]).

(** Where a generator that is resumed stops next. *)
Inductive Turn :=
| Yielded (chunk : jsstring)
| Sleeping                       (* awaits the timer of ten milliseconds *)
| Returned
| Threw (e : Failure).

(** The loop of [stream], from where it was resumed to where it stops. *)
Definition resume (g : Generator) : Turn * Generator :=
  match chunks g with
  | chunk :: rest => (Yielded chunk, mkGenerator rest (done g) (error g))
  | [] =>
      if negb (done g) then (Sleeping, g)
      else
        match error g with
        | Some e => (Threw e, g)
        | None => (Returned, g)
        end
  end.

(** What happens in the page, one thing at a time. *)
Inductive Step :=
| Message (from_window : bool) (data : option EventData.t)
| TimerFires (call : nat)
| Resume (generator : nat)
| SendMessage (type : string) (payload : option Payload.t) (requestId : string)
| Stream (options : Payload.t) (requestId : string).

Definition step (s : Step) (p : t) : option (nat * Turn) * t :=
  match s with
  | Message from_window data => (None, listener from_window data p)
  | TimerFires call => (None, timed_out call p)
  | Resume generator =>
      match generators p !! generator with
      | Some g =>
          let '(turn, g') := resume g in
          (Some (generator, turn),
           with_generators (<[generator := g']> (generators p)) p)
      | None => (None, p)
      end
  | SendMessage type payload requestId => (None, sendMessage type payload requestId p)
  | Stream options requestId => (None, stream options requestId p)
  end.

(** The stops of the generators over a run, and the page after it. *)
Fixpoint run (steps : list Step) (p : t) : list (nat * Turn) * t :=
  match steps with
  | [] => ([], p)
  | s :: steps =>
      let '(turn, p') := step s p in
      let '(turns, p'') := run steps p' in
      (match turn with Some x => x :: turns | None => turns end, p'')
  end.

(** The messages that tell the generator behind [requestId] that the stream
    is over: a chunk with [done] set, or an answer with [success] set. *)
Definition ends (requestId : string) (s : Step) : bool :=
  match s with
  | Message true (Some data) =>
      bool_decide (EventData.target data = Some MESSAGE_TARGET_INPAGE)
      && bool_decide (EventData.requestId data = Some requestId)
      && (if bool_decide (EventData.type data = Some MESSAGE_TYPE_STREAM_CHUNK)
          then EventData.done data
          else EventData.success data)
  | _ => false
  end.

(** The page when the script has just been loaded. *)
Definition initial : t := mk ∅ [] [] [].

(** Every entry of a generator is the entry of a generator there is. *)
Definition well_formed (p : t) : Prop :=
  forall requestId generator,
    pendingRequests p !! requestId = Some (OfStream generator) ->
    (generator < length (generators p))%nat.

(** The generator has not been told that the stream is over, and no entry
    but that of [requestId] is its own. *)
Definition streaming (generator : nat) (requestId : string) (p : t) : Prop :=
  (exists g, generators p !! generator = Some g /\ done g = false) /\
  forall other,
    pendingRequests p !! other = Some (OfStream generator) -> other = requestId.

End Inpage.

(** ** A sample platform

    Small stand-ins for the oracles and the library primitives, on which the
    model runs on concrete inputs.  The cipher writes the key and the nonce
    in front of the plaintext and checks them on the way back; the key
    derivation writes the password in front of the salt.  The serializer
    writes numbers in binary and strings with their length. *)

Module Sample.

Definition clock (t : nat) : Z := 1000 * Z.of_nat t.
Definition entropy (t : nat) : byte := byte_of_Z (Z.of_nat t mod 256).
Definition uuid (t : nat) : string :=
  String (Ascii.ascii_of_nat (97 + t mod 26)) "-uuid".

(** A list of bytes written so that no writing is the start of another. *)
Definition frame (l : bytes) : bytes :=
  concat (map (fun b => ["001"%byte; b]) l) ++ ["000"%byte].

Fixpoint strip {A} `{EqDecision A} (p l : list A) : option (list A) :=
  match p, l with
  | [], _ => Some l
  | a :: p', b :: l' => if decide (a = b) then strip p' l' else None
  | _ :: _, [] => None
  end.

Definition pbkdf2 (password : string) (salt : bytes) (c dkLen : Z) : bytes :=
  frame (list_byte_of_string password) ++ salt.

Definition gcm_encrypt (key iv plaintext : bytes) : bytes :=
  frame key ++ frame iv ++ plaintext.

Definition gcm_decrypt (key iv ciphertext : bytes) : option bytes :=
  strip (frame key ++ frame iv) ciphertext.

Definition btoa (binary : bytes) : string := string_of_list_byte binary.
Definition atob (base64 : string) : option bytes :=
  Some (list_byte_of_string base64).

(** Serializer: a number is written in binary, lowest digit first, and ended
    by [;]. *)
Fixpoint put_positive (p : positive) : jsstring :=
  match p with
  | xH => [49]
  | xO q => 48 :: put_positive q
  | xI q => 49 :: put_positive q
  end.
Definition put_N (n : N) : jsstring :=
  match n with
  | N0 => [59]
  | Npos p => put_positive p ++ [59]
  end.
Definition put_nat (n : nat) : jsstring := put_N (N.of_nat n).
Definition put_Z (z : Z) : jsstring :=
  (if z <? 0 then 45 else 43) :: put_N (Z.abs_N z).
Definition put_string (s : string) : jsstring :=
  put_nat (String.length s) ++ map Z_of_byte (list_byte_of_string s).
Definition put_option (o : option string) : jsstring :=
  match o with
  | Some s => 49 :: put_string s
  | None => [48]
  end.
Definition put_entry (k : ApiKeyEntry.t) : jsstring :=
  put_string (ApiKeyEntry.id k) ++ put_string (ApiKeyEntry.provider k) ++
  put_string (ApiKeyEntry.name k) ++ put_string (ApiKeyEntry.apiKey k) ++
  put_option (ApiKeyEntry.endpointUrl k) ++
  put_Z (ApiKeyEntry.createdAt k) ++ put_Z (ApiKeyEntry.updatedAt k).

Definition JSON_stringify (v : option (list ApiKeyEntry.t)) : jsstring :=
  match v with
  | None => [110; 117; 108; 108]
  | Some l => 91 :: put_nat (length l) ++ concat (map put_entry l)
  end.

(** Parser: each reader gives the value read and the rest of the text. *)
Fixpoint get_N (s : jsstring) : option (N * jsstring) :=
  match s with
  | [] => None
  | c :: r =>
      if c =? 59 then Some (0%N, r)
      else
        match get_N r with
        | Some (n, r') =>
            if c =? 48 then Some (N.double n, r')
            else if c =? 49 then Some (N.succ_double n, r')
            else None
        | None => None
        end
  end.

Definition get_nat (s : jsstring) : option (nat * jsstring) :=
  match get_N s with
  | Some (n, r) => Some (N.to_nat n, r)
  | None => None
  end.

Definition get_Z (s : jsstring) : option (Z * jsstring) :=
  match s with
  | [] => None
  | c :: r =>
      match get_N r with
      | Some (n, r') =>
          if c =? 43 then Some (Z.of_N n, r')
          else if c =? 45 then Some (- Z.of_N n, r')
          else None
      | None => None
      end
  end.

Definition get_string (s : jsstring) : option (string * jsstring) :=
  match get_nat s with
  | Some (n, r) =>
      if (n <=? length r)%nat
      then Some (string_of_list_byte (map byte_of_Z (take n r)), drop n r)
      else None
  | None => None
  end.

Definition get_option (s : jsstring) : option (option string * jsstring) :=
  match s with
  | [] => None
  | c :: r =>
      if c =? 48 then Some (None, r)
      else if c =? 49 then
        match get_string r with
        | Some (x, r') => Some (Some x, r')
        | None => None
        end
      else None
  end.

Definition get_entry (s : jsstring) : option (ApiKeyEntry.t * jsstring) :=
  '(id, s) ← get_string s;
  '(provider, s) ← get_string s;
  '(name, s) ← get_string s;
  '(apiKey, s) ← get_string s;
  '(endpointUrl, s) ← get_option s;
  '(createdAt, s) ← get_Z s;
  '(updatedAt, s) ← get_Z s;
  Some (ApiKeyEntry.mk id provider name apiKey endpointUrl createdAt updatedAt, s).

Fixpoint get_entries (n : nat) (s : jsstring)
  : option (list ApiKeyEntry.t * jsstring) :=
  match n with
  | O => Some ([], s)
  | S n' =>
      '(k, s) ← get_entry s;
      '(l, s) ← get_entries n' s;
      Some (k :: l, s)
  end.

Definition JSON_parse (s : jsstring) : option (option (list ApiKeyEntry.t)) :=
  match s with
  | 110 :: 117 :: 108 :: 108 :: [] => Some None
  | 91 :: r =>
      '(n, r) ← get_nat r;
      '(l, r) ← get_entries n r;
      match r with
      | [] => Some (Some l)
      | _ :: _ => None
      end
  | _ => None
  end.

(** URLs of the form [https://host]. *)
Definition URL_hostname (url : string) : option string :=
  if String.prefix "https://" url
  then Some (String.substring 8 (String.length url - 8) url)
  else None.

Definition URL_origin (url : string) : option string :=
  if String.prefix "https://" url then Some url else None.

Definition manifest_version : string := "1.0.0".

(** A server that streams two chunks and then fails, one that streams two
    chunks and closes, and one that answers in one piece. *)
Definition hello : bytes := ["H"; "e"; "l"; "l"; "o"]%byte.
Definition world : bytes := [" "; "w"; "o"; "r"; "l"; "d"]%byte.

Definition failing_stream (t : nat) (url method : string)
    (headers : gmap string string) (body : option string)
  : Completion Response.t :=
  Normal (Response.mk 200 ∅ []
            false (Some (mkReadableStream [hello; world] (Errored "reset")))).

Definition closing_stream (t : nat) (url method : string)
    (headers : gmap string string) (body : option string)
  : Completion Response.t :=
  Normal (Response.mk 200 ∅ []
            false (Some (mkReadableStream [hello; world] Closed))).

Definition plain (t : nat) (url method : string)
    (headers : gmap string string) (body : option string)
  : Completion Response.t :=
  Normal (Response.mk 200 ∅ [111; 107] false None).

(** A world in which nothing has happened yet. *)
Definition initial : World :=
  mkWorld 0 ChromeStorage.empty [] None [] None None 0 None [Some 7; None; Some 0; Some 9] [].

(** Sample data: a key, a record sealed under a password, and worlds that
    hold them locked and unlocked. *)
Definition password : string := "correct-horse-battery".
Definition salt : bytes := map entropy (seq 0 16).
Definition iv : bytes := map entropy (seq 16 12).

Definition entry : ApiKeyEntry.t :=
  ApiKeyEntry.mk "k1" "openai" "main" "sk-test" None 1 2.

Definition key : bytes := pbkdf2 password salt 310000 32.

Definition vault : VaultData.t :=
  VaultData.mk
    (btoa (gcm_encrypt key iv (Utf8.encode (JSON_stringify (Some [entry])))))
    (btoa salt) (btoa iv) 1 2.

Definition storage : ChromeStorage.t :=
  ChromeStorage.mk (Some vault)
                   (Some [WhitelistedDomain.mk "example.com" 3])
                   None None None.

(** Five minutes of auto-lock, four minutes since the last activity. *)
Definition locked : World :=
  mkWorld 240 storage [] None [] None None 0 None
          [Some 7; None; Some 0; Some 9] [].

Definition unlocked : World :=
  mkWorld 240
          (ChromeStorage.mk (Some vault)
             (Some [WhitelistedDomain.mk "example.com" 3]) None
             (Some (ExtensionSettings.mkPartial (Some 5) None None)) None)
          [] None [key] (Some 0%nat) (Some [entry]) 0 (Some 5)
          [Some 7; None; Some 0; Some 9] [].

(** History enabled, with a cap of zero. *)
Definition uncapped : World :=
  mkWorld 0
          (ChromeStorage.mk None None None
             (Some (ExtensionSettings.mkPartial None (Some true) (Some 0))) None)
          [] None [] None None 0 None [] [].

Definition logged : RequestHistoryEntry.t :=
  RequestHistoryEntry.mk "h1" 10 "openai" "/v1/models" "example.com" 200 5.

(** A request for a provider that is not in the table. *)
Definition bogus : Payload.t :=
  Payload.mk (Some "bogus"%string) (Some "/v1/models"%string) None None None
             None None.


(** A streamed chat request for a provider the vault has a key for. *)
Definition chat : Payload.t :=
  Payload.mk (Some "openai"%string) (Some "/v1/chat/completions"%string) None
             None None (Some true) None.

(** A text with characters of one to four bytes: [[é€😀]]. *)
Definition text : jsstring := [0x5B; 0xE9; 0x20AC; 0xD83D; 0xDE00; 0x5D].


(** The unlocked world with the timeout at zero. *)
Definition never : World :=
  mkWorld 240
          (ChromeStorage.mk (Some vault)
             (Some [WhitelistedDomain.mk "example.com" 3]) None
             (Some (ExtensionSettings.mkPartial (Some 0) None None)) None)
          [] None [key] (Some 0%nat) (Some [entry]) 0 (Some 5)
          [Some 7; None; Some 0; Some 9] [].

(** A plain request for a provider the vault has a key for. *)
Definition models : Payload.t :=
  Payload.mk (Some "openai"%string) (Some "/v1/models"%string)
             (Some "GET"%string) None None None None.

(** A key for a local model, stored without an endpoint URL, the unlocked
    world that holds it as well, and a request that brings the URL. *)
Definition studio_entry : ApiKeyEntry.t :=
  ApiKeyEntry.mk "k2" "lm_studio" "local" "" None 1 2.

Definition studio : World :=
  mkWorld 240
          (ChromeStorage.mk (Some vault)
             (Some [WhitelistedDomain.mk "example.com" 3]) None
             (Some (ExtensionSettings.mkPartial (Some 5) None None)) None)
          [] None [key] (Some 0%nat) (Some [entry; studio_entry]) 0 (Some 5)
          [Some 7; None; Some 0; Some 9] [].

Definition local_models : Payload.t :=
  Payload.mk (Some "lm_studio"%string) (Some "/v1/models"%string)
             (Some "GET"%string) None None None
             (Some "https://localhost:1234"%string).

(** A text that starts with U+FEFF and has a high surrogate on its own. *)
Definition broken : jsstring := [0xFEFF; 0x41; 0xD800; 0x42].


End Sample.


(** ** The services *)

Definition PBKDF2_ITERATIONS : Z := 310000.
Definition SALT_LENGTH : nat := 16.
Definition KEY_LENGTH : Z := 32.

Section Extension.

#[local] Set Default Proof Using "Type".

(** *** Oracles and library primitives *)

Variable clock : nat -> Z.              (* Date.now() *)
Variable entropy : nat -> byte.         (* the bytes randomBytes hands out *)
Variable uuid : nat -> string.          (* uuidv4() *)

(** [pbkdf2(sha256, password, salt, {c, dkLen})] *)
Variable pbkdf2 : string -> bytes -> Z -> Z -> bytes.
(** [gcm(key, iv).encrypt(plaintext)] *)
Variable gcm_encrypt : bytes -> bytes -> bytes -> bytes.
(** [gcm(key, iv).decrypt(ciphertext)]; [None] when it throws. *)
Variable gcm_decrypt : bytes -> bytes -> bytes -> option bytes.
(** [btoa] and [atob] on binary strings, a binary string being the list of
    its char codes; [None] when [atob] throws. *)
Variable btoa : bytes -> string.
Variable atob : string -> option bytes.
(** [JSON.stringify] and [JSON.parse] on the content of the vault, which is
    [null] or an array of entries; [None] when [JSON.parse] throws. *)
Variable JSON_stringify : option (list ApiKeyEntry.t) -> jsstring.
Variable JSON_parse : jsstring -> option (option (list ApiKeyEntry.t)).

Definition Date_now : Js Z :=
  fun w => (Normal (clock (ticks w)), set_ticks (S (ticks w)) w).

Definition uuidv4 : Js string :=
  fun w => (Normal (uuid (ticks w)), set_ticks (S (ticks w)) w).

(** The bytes [randomBytes n] draws in [w]: the next [n] of the oracle. *)
Definition drawn (n : nat) (w : World) : bytes :=
  map (fun i => entropy (ticks w + i)%nat) (seq 0 n).

Definition randomBytes (n : nat) : Js bytes :=
  fun w => (Normal (drawn n w), set_ticks (ticks w + n)%nat w).

(** A new [Uint8Array] holding [b]; the result is its address. *)
Definition alloc (b : bytes) : Js nat :=
  fun w => (Normal (length (heap w)), set_heap (heap w ++ [b]) w).

Definition buffer (w : World) (a : nat) : bytes := default [] (heap w !! a).

(** *** CryptoService *)

Definition CryptoService_deriveKey (password : string) (salt : option bytes)
  : Js (nat * bytes) :=
  saltBytes ← match salt with
              | Some s => mret s
              | None => randomBytes SALT_LENGTH
              end;
  key ← alloc (pbkdf2 password saltBytes PBKDF2_ITERATIONS KEY_LENGTH);
  mret (key, saltBytes).

Definition CryptoService_encrypt (data : jsstring) (key : nat)
  : Js (bytes * bytes) :=
  iv ← randomBytes 12;
  let plaintext := Utf8.encode data in
  k ← read (fun w => buffer w key);
  let ciphertext := gcm_encrypt k iv plaintext in
  mret (ciphertext, iv).

Definition CryptoService_decrypt (ciphertext : bytes) (key : nat) (iv : bytes)
  : Js jsstring :=
  k ← read (fun w => buffer w key);
  match gcm_decrypt k iv ciphertext with
  | Some plaintext => mret (Utf8.decode plaintext)
  | None => throw "invalid tag"
  end.

Definition CryptoService_toBase64 (data : bytes) : string := btoa data.

Definition CryptoService_fromBase64 (base64 : string) : Js bytes :=
  match atob base64 with
  | Some binary => mret binary
  | None => throw "InvalidCharacterError"
  end.

(** [data.fill(0)] on the buffer at [a]. *)
Definition CryptoService_zeroMemory (a : nat) : Js unit :=
  update (fun w => set_heap (alter (map (fun _ => "000"%byte)) a (heap w)) w).

(** *** StorageService *)

Definition chrome_storage_local_set (x : ChromeStorage.write) : Js unit :=
  update (fun w =>
    set_writes (writes w ++ [x]) (set_local (ChromeStorage.apply x (local w)) w)).

(** [if (this.cache) { this.cache.field = value }] *)
Definition patch_cache (f : StoredData.t -> StoredData.t) : Js unit :=
  update (fun w => set_cache (f <$> cache w) w).

Definition StorageService_getAll : Js StoredData.t :=
  c ← read cache;
  match c with
  | Some data => mret data
  | None =>
      result ← read local;
      let data :=
        StoredData.mk
          (ChromeStorage.vault result)
          (default [] (ChromeStorage.whitelistedDomains result))
          (default [] (ChromeStorage.requestHistory result))
          (match ChromeStorage.settings result with
           | Some s => ExtensionSettings.spread DEFAULT_SETTINGS s
           | None => DEFAULT_SETTINGS
           end)
          (default ∅ (ChromeStorage.customEndpoints result)) in
      update (set_cache (Some data));;
      mret data
  end.

Definition StorageService_getVault : Js (option VaultData.t) :=
  data ← StorageService_getAll;
  mret (StoredData.vault data).

Definition StorageService_saveVault (vault : VaultData.t) : Js unit :=
  chrome_storage_local_set (ChromeStorage.SetVault vault);;
  patch_cache (StoredData.with_vault vault).

Definition StorageService_getWhitelistedDomains : Js (list WhitelistedDomain.t) :=
  data ← StorageService_getAll;
  mret (StoredData.whitelistedDomains data).

Definition StorageService_addWhitelistedDomain (domain : string) : Js unit :=
  domains ← StorageService_getWhitelistedDomains;
  if existsb (fun d => bool_decide (WhitelistedDomain.domain d = domain)) domains
  then mret tt
  else
    now ← Date_now;
    let newDomains := domains ++ [WhitelistedDomain.mk domain now] in
    chrome_storage_local_set (ChromeStorage.SetWhitelistedDomains newDomains);;
    patch_cache (StoredData.with_whitelistedDomains newDomains).

Definition StorageService_removeWhitelistedDomain (domain : string) : Js unit :=
  domains ← StorageService_getWhitelistedDomains;
  let newDomains :=
    List.filter (fun d => negb (bool_decide (WhitelistedDomain.domain d = domain)))
                domains in
  chrome_storage_local_set (ChromeStorage.SetWhitelistedDomains newDomains);;
  patch_cache (StoredData.with_whitelistedDomains newDomains).

Definition StorageService_isDomainWhitelisted (domain : string) : Js bool :=
  domains ← StorageService_getWhitelistedDomains;
  mret (existsb (fun d => bool_decide (WhitelistedDomain.domain d = domain)) domains).

Definition StorageService_getRequestHistory : Js (list RequestHistoryEntry.t) :=
  data ← StorageService_getAll;
  mret (StoredData.requestHistory data).

(** [array.slice(start)]: a negative [start] counts from the end, and [-0]
    is [0]. *)
Definition slice {A} (start : Z) (l : list A) : list A :=
  let len := Z.of_nat (length l) in
  let from := if start <? 0 then Z.max (len + start) 0 else Z.min start len in
  drop (Z.to_nat from) l.

Definition StorageService_addRequestHistory (entry : RequestHistoryEntry.t)
  : Js unit :=
  data ← StorageService_getAll;
  if negb (ExtensionSettings.historyEnabled (StoredData.settings data))
  then mret tt
  else
    let max := ExtensionSettings.maxHistoryEntries (StoredData.settings data) in
    let history := StoredData.requestHistory data ++ [entry] in
    let history :=
      if max <? Z.of_nat (length history) then slice (- max) history
      else history in
    chrome_storage_local_set (ChromeStorage.SetRequestHistory history);;
    patch_cache (StoredData.with_requestHistory history).

Definition StorageService_clearRequestHistory : Js unit :=
  chrome_storage_local_set (ChromeStorage.SetRequestHistory []);;
  patch_cache (StoredData.with_requestHistory []).

Definition StorageService_getSettings : Js ExtensionSettings.t :=
  data ← StorageService_getAll;
  mret (StoredData.settings data).

Definition StorageService_updateSettings (settings : ExtensionSettings.partial)
  : Js unit :=
  current ← StorageService_getSettings;
  let newSettings := ExtensionSettings.spread current settings in
  chrome_storage_local_set (ChromeStorage.SetSettings newSettings);;
  patch_cache (StoredData.with_settings newSettings).

Definition StorageService_getCustomEndpoints : Js (gmap string string) :=
  data ← StorageService_getAll;
  mret (StoredData.customEndpoints data).

Definition StorageService_saveCustomEndpoint (keyId url : string) : Js unit :=
  endpoints ← StorageService_getCustomEndpoints;
  let newEndpoints := <[keyId := url]> endpoints in
  chrome_storage_local_set (ChromeStorage.SetCustomEndpoints newEndpoints);;
  patch_cache (StoredData.with_customEndpoints newEndpoints).

Definition StorageService_clearCache : Js unit := update (set_cache None).

Definition StorageService_hasVault : Js bool :=
  vault ← StorageService_getVault;
  mret (bool_decide (is_Some vault)).

Definition StorageService_clearAll : Js unit :=
  chrome_storage_local_set ChromeStorage.Clear;;
  update (set_cache None).

(** *** VaultService *)

Definition JSON_parse_or_throw (text : jsstring)
  : Js (option (list ApiKeyEntry.t)) :=
  match JSON_parse text with
  | Some v => mret v
  | None => throw "SyntaxError"
  end.

Definition VaultService_exists : Js bool := StorageService_hasVault.

Definition VaultService_create (password : string) : Js unit :=
  ex ← VaultService_exists;
  if (ex : bool) then throw "Vault already exists"
  else
    '(key, salt) ← CryptoService_deriveKey password None;
    let emptyKeys : list ApiKeyEntry.t := [] in
    let data := JSON_stringify (Some emptyKeys) in
    '(ciphertext, iv) ← CryptoService_encrypt data key;
    createdAt ← Date_now;
    updatedAt ← Date_now;
    let vault :=
      VaultData.mk (CryptoService_toBase64 ciphertext)
                   (CryptoService_toBase64 salt)
                   (CryptoService_toBase64 iv)
                   createdAt updatedAt in
    StorageService_saveVault vault;;
    update (set_encryptionKey (Some key));;
    update (set_decryptedKeys (Some emptyKeys)).

Definition VaultService_unlock (password : string) : Js bool :=
  vault ← StorageService_getVault;
  match vault with
  | None => throw "Vault does not exist"
  | Some vault =>
      try_catch
        (salt ← CryptoService_fromBase64 (VaultData.salt vault);
         '(key, _) ← CryptoService_deriveKey password (Some salt);
         ciphertext ← CryptoService_fromBase64 (VaultData.encrypted vault);
         iv ← CryptoService_fromBase64 (VaultData.iv vault);
         decrypted ← CryptoService_decrypt ciphertext key iv;
         keys ← JSON_parse_or_throw decrypted;
         update (set_encryptionKey (Some key));;
         update (set_decryptedKeys keys);;
         mret true)
        (fun _ => mret false)
  end.

Definition VaultService_lock : Js unit :=
  key ← read encryptionKey;
  match key with
  | Some a =>
      CryptoService_zeroMemory a;;
      update (set_encryptionKey None)
  | None => mret tt
  end;;
  update (set_decryptedKeys None).

Definition isUnlocked (w : World) : bool :=
  bool_decide (is_Some (decryptedKeys w)) && bool_decide (is_Some (encryptionKey w)).

Definition VaultService_isUnlocked : Js bool := read isUnlocked.

(** [if (!this.isUnlocked()) throw new Error('Vault is locked')], followed by
    the uses of [this.decryptedKeys!] and [this.encryptionKey!]. *)
Definition require_unlocked : Js (list ApiKeyEntry.t * nat) :=
  fun w =>
    match decryptedKeys w, encryptionKey w with
    | Some keys, Some key => (Normal (keys, key), w)
    | _, _ => (Thrown "Vault is locked", w)
    end.

Definition VaultService_getKeys : Js (list ApiKeyEntry.t) :=
  '(keys, _) ← require_unlocked;
  mret keys.

Definition VaultService_getKeyForProvider (provider : string)
  : Js (option ApiKeyEntry.t) :=
  '(keys, _) ← require_unlocked;
  mret (List.find (fun k => bool_decide (ApiKeyEntry.provider k = provider)) keys).

(** The private [saveVault]: encrypts the list in memory under the key in
    memory and writes the record back, the other fields carried over. *)
Definition VaultService_saveVault : Js unit :=
  '(keys, key) ← require_unlocked;
  let data := JSON_stringify (Some keys) in
  '(ciphertext, iv) ← CryptoService_encrypt data key;
  vault ← StorageService_getVault;
  match vault with
  | None => throw "Vault does not exist"
  | Some vault =>
      updatedAt ← Date_now;
      let updatedVault :=
        VaultData.mk (CryptoService_toBase64 ciphertext)
                     (VaultData.salt vault)
                     (CryptoService_toBase64 iv)
                     (VaultData.createdAt vault)
                     updatedAt in
      StorageService_saveVault updatedVault
  end.

(** A string in a condition: [undefined] and [""] are false. *)
Definition truthy (s : option string) : bool :=
  match s with
  | Some s => negb (bool_decide (s = ""%string))
  | None => false
  end.

Definition VaultService_addKey (provider name apiKey : string)
    (endpointUrl : option string) : Js ApiKeyEntry.t :=
  require_unlocked;;
  id ← uuidv4;
  createdAt ← Date_now;
  updatedAt ← Date_now;
  let entry :=
    ApiKeyEntry.mk id provider name apiKey endpointUrl createdAt updatedAt in
  update (fun w => set_decryptedKeys ((fun l => l ++ [entry]) <$> decryptedKeys w) w);;
  VaultService_saveVault;;
  match endpointUrl with
  | Some url =>
      if truthy endpointUrl && bool_decide (provider = "lm_studio"%string)
      then StorageService_saveCustomEndpoint (ApiKeyEntry.id entry) url
      else mret tt
  | None => mret tt
  end;;
  mret entry.

(** [Partial<Pick<ApiKeyEntry, 'name' | 'apiKey' | 'endpointUrl'>>]; a field
    is absent or holds a string. *)
Record KeyUpdates := mkKeyUpdates {
  updates_name : option string;
  updates_apiKey : option string;
  updates_endpointUrl : option string;
}.

Definition findIndex (id : string) (keys : list ApiKeyEntry.t)
  : option (nat * ApiKeyEntry.t) :=
  list_find (fun k => ApiKeyEntry.id k = id) keys.

Definition VaultService_updateKey (id : string) (updates : KeyUpdates)
  : Js (option ApiKeyEntry.t) :=
  '(keys, _) ← require_unlocked;
  match findIndex id keys with
  | None => mret None
  | Some (index, key) =>
      updatedAt ← Date_now;
      let updated :=
        ApiKeyEntry.mk
          (ApiKeyEntry.id key)
          (ApiKeyEntry.provider key)
          (default (ApiKeyEntry.name key) (updates_name updates))
          (default (ApiKeyEntry.apiKey key) (updates_apiKey updates))
          (match updates_endpointUrl updates with
           | Some u => Some u
           | None => ApiKeyEntry.endpointUrl key
           end)
          (ApiKeyEntry.createdAt key)
          updatedAt in
      update (fun w =>
        set_decryptedKeys ((fun l => <[index := updated]> l) <$> decryptedKeys w) w);;
      VaultService_saveVault;;
      match updates_endpointUrl updates with
      | Some u =>
          if bool_decide (ApiKeyEntry.provider key = "lm_studio"%string)
          then StorageService_saveCustomEndpoint id u
          else mret tt
      | None => mret tt
      end;;
      mret (Some updated)
  end.

Definition VaultService_deleteKey (id : string) : Js bool :=
  '(keys, _) ← require_unlocked;
  match findIndex id keys with
  | None => mret false
  | Some (index, _) =>
      update (fun w =>
        set_decryptedKeys ((fun l => delete index l) <$> decryptedKeys w) w);;
      VaultService_saveVault;;
      mret true
  end.

Definition VaultService_changePassword (oldPassword newPassword : string)
  : Js bool :=
  vault ← StorageService_getVault;
  match vault with
  | None => mret false
  | Some vault =>
      try_catch
        (oldSalt ← CryptoService_fromBase64 (VaultData.salt vault);
         '(oldKey, _) ← CryptoService_deriveKey oldPassword (Some oldSalt);
         ciphertext ← CryptoService_fromBase64 (VaultData.encrypted vault);
         iv ← CryptoService_fromBase64 (VaultData.iv vault);
         decrypted ← CryptoService_decrypt ciphertext oldKey iv;
         keys ← JSON_parse_or_throw decrypted;
         '(newKey, newSalt) ← CryptoService_deriveKey newPassword None;
         let data := JSON_stringify keys in
         '(newCiphertext, newIv) ← CryptoService_encrypt data newKey;
         updatedAt ← Date_now;
         let newVault :=
           VaultData.mk (CryptoService_toBase64 newCiphertext)
                        (CryptoService_toBase64 newSalt)
                        (CryptoService_toBase64 newIv)
                        (VaultData.createdAt vault)
                        updatedAt in
         StorageService_saveVault newVault;;
         held ← read encryptionKey;
         match held with
         | Some a => CryptoService_zeroMemory a
         | None => mret tt
         end;;
         update (set_encryptionKey (Some newKey));;
         update (set_decryptedKeys keys);;
         mret true)
        (fun _ => mret false)
  end.


(** *** SessionService *)

(** The extension owns one alarm, ['tinylocket-auto-lock']; the [alarm] field
    of the world is that alarm.  [chrome.alarms.create] under a name that is
    taken replaces the alarm, and without [periodInMinutes] the alarm fires
    once. *)
Definition AUTO_LOCK_ALARM_NAME : string := "tinylocket-auto-lock".

Definition chrome_alarms_clear : Js unit := update (set_alarm None).

Definition chrome_alarms_create (delayInMinutes : Z) : Js unit :=
  update (set_alarm (Some delayInMinutes)).

Definition chrome_runtime_sendMessage (type : string) : Js unit :=
  update (fun w => set_outbox (outbox w ++ [RuntimeMessage type]) w).

Definition SessionService_resetAutoLockTimer : Js unit :=
  settings ← StorageService_getSettings;
  let minutes := ExtensionSettings.autoLockMinutes settings in
  chrome_alarms_clear;;
  if 0 <? minutes then chrome_alarms_create minutes else mret tt.

Definition SessionService_recordActivity : Js unit :=
  now ← Date_now;
  update (set_lastActivity now);;
  unlocked ← VaultService_isUnlocked;
  if (unlocked : bool) then SessionService_resetAutoLockTimer else mret tt.

(** [Math.ceil(a / b)] for a positive [b] *)
Definition ceil_div (a b : Z) : Z := - ((- a) / b).

Definition SessionService_handleAutoLock : Js unit :=
  settings ← StorageService_getSettings;
  let minutes := ExtensionSettings.autoLockMinutes settings in
  if minutes =? 0 then mret tt
  else
    now ← Date_now;
    inactiveMs ← read (fun w => now - lastActivity w);
    let thresholdMs := minutes * 60 * 1000 in
    if thresholdMs <=? inactiveMs then
      VaultService_lock;;
      try_catch (chrome_runtime_sendMessage "SESSION_LOCKED") (fun _ => mret tt)
    else
      let remainingMs := thresholdMs - inactiveMs in
      let remainingMinutes := ceil_div remainingMs 60000 in
      chrome_alarms_create remainingMinutes.

(** The listener registered by [init]: the alarm that fires is gone, and the
    handler runs without being awaited. *)
Definition onAlarm (name : string) : Js unit :=
  if bool_decide (name = AUTO_LOCK_ALARM_NAME) then
    chrome_alarms_clear;;
    unawaited SessionService_handleAutoLock
  else mret tt.

Definition SessionService_init : Js unit :=
  unlocked ← VaultService_isUnlocked;
  if (unlocked : bool) then SessionService_resetAutoLockTimer else mret tt.

Definition SessionService_setAutoLockMinutes (minutes : Z) : Js unit :=
  StorageService_updateSettings
    (ExtensionSettings.mkPartial (Some minutes) None None);;
  SessionService_resetAutoLockTimer.

Definition SessionService_getAutoLockMinutes : Js Z :=
  settings ← StorageService_getSettings;
  mret (ExtensionSettings.autoLockMinutes settings).

Definition SessionService_isUnlocked : Js bool := VaultService_isUnlocked.

Definition SessionService_lock : Js unit :=
  VaultService_lock;;
  chrome_alarms_clear.

Definition SessionService_unlock (password : string) : Js bool :=
  success ← VaultService_unlock password;
  (if (success : bool) then SessionService_resetAutoLockTimer else mret tt);;
  mret success.


(** *** API proxy (background/api-proxy.ts) *)

(** [fetch(url, {method, headers, body})], read at the cursor of the
    oracles: a response, or a rejection. *)
Variable fetch :
  nat -> string -> string -> gmap string string -> option string ->
  Completion Response.t.

Definition do_fetch (url method : string) (headers : gmap string string)
    (body : option string) : Js Response.t :=
  fun w =>
    (fetch (ticks w) url method
           (headers ∪ {[ "Content-Type"%string := "application/json"%string ]})
           body,
     set_ticks (S (ticks w)) w).

(** [haystack.includes(needle)] *)
Definition includes (haystack needle : string) : bool :=
  bool_decide (is_Some (String.index 0 needle haystack)).

Definition makeApiRequest (url method : string) (headers : gmap string string)
    (body : option string) : Js ProxyResult :=
  response ← do_fetch url method headers body;
  let responseHeaders := Response.headers response in
  responseBody ←
    match Response.headers response !! "content-type"%string with
    | Some contentType =>
        if includes contentType "application/json" then
          if Response.json response
          then mret (Json (Response.text response))
          else throw "SyntaxError"
        else mret (Text (Response.text response))
    | None => mret (Text (Response.text response))
    end;
  mret (mkProxyResult (Response.status response) responseHeaders responseBody).

(** [if (tab.id)]: a tab without an id, or with the id 0, is skipped.  A
    failure of [chrome.tabs.sendMessage] is caught and ignored. *)
Definition broadcastStreamChunk (requestId : string) (chunk : jsstring)
    (done : bool) : Js unit :=
  update (fun w =>
    set_outbox
      (outbox w ++
       omap (fun tab =>
               match tab with
               | Some id =>
                   if id =? 0 then None
                   else Some (StreamChunk id requestId chunk done)
               | None => None
               end) (tabs w))
      w).

(** The [while (true)] loop over the reads of the stream.  A read that fails
    throws out of the loop. *)
Fixpoint read_loop (requestId : string) (decoder : Utf8.TextDecoder)
    (fullContent : jsstring) (chunks : list bytes) (ending : StreamEnd)
  : Js jsstring :=
  match chunks with
  | [] =>
      match ending with
      | Closed =>
          broadcastStreamChunk requestId [] true;;
          mret fullContent
      | Errored e => throw e
      end
  | value :: rest =>
      let '(decoder', chunk) := Utf8.decode_stream decoder value in
      let fullContent' := fullContent ++ chunk in
      broadcastStreamChunk requestId chunk false;;
      read_loop requestId decoder' fullContent' rest ending
  end.

Definition makeStreamingRequest (url method : string)
    (headers : gmap string string) (body : option string)
    (requestId : string) : Js ProxyResult :=
  response ← do_fetch url method headers body;
  let responseHeaders := Response.headers response in
  if negb (Response.ok response) then
    mret (mkProxyResult (Response.status response) responseHeaders
                        (Text (Response.text response)))
  else
    match Response.body response with
    | None => throw "Response body is null"
    | Some stream =>
        fullContent ←
          try_catch
            (read_loop requestId Utf8.new_TextDecoder []
                       (stream_chunks stream) (stream_end stream))
            (fun error =>
               broadcastStreamChunk requestId [] true;;
               throw error);
        mret (mkProxyResult (Response.status response) responseHeaders
                            (Text fullContent))
    end.

(** *** Message handler (background/message-handler.ts) *)

(** [new URL(url).origin] and [new URL(url).hostname]; [None] when the
    constructor throws. *)
Variable URL_origin : string -> option string.
Variable URL_hostname : string -> option string.
(** [chrome.runtime.getManifest().version] *)
Variable manifest_version : string.

Definition failure (requestId : string) (code : TinylocketErrorCode)
    (message : string) : MessageResponse.t :=
  MessageResponse.mk MESSAGE_TYPE_RESPONSE requestId false
                     (Some (code, message)) None.

Definition handlePing (requestId : string) : MessageResponse.t :=
  MessageResponse.mk MESSAGE_TYPE_PONG requestId true None
                     (Some (Installed manifest_version)).

Definition handleGetStatus (requestId : string) : Js MessageResponse.t :=
  unlocked ← VaultService_isUnlocked;
  mret (MessageResponse.mk MESSAGE_TYPE_RESPONSE requestId true None
                           (Some (Status unlocked manifest_version))).

Definition handleGetProviders (requestId : string) : Js MessageResponse.t :=
  unlocked ← VaultService_isUnlocked;
  if negb unlocked then
    mret (failure requestId LOCKED "Extension is locked")
  else
    keys ← VaultService_getKeys;
    let providers :=
      map (fun p =>
             mkProviderInfo
               (ProviderConfig.id p) (ProviderConfig.name p)
               (existsb (fun k => bool_decide (ApiKeyEntry.provider k = ProviderConfig.id p))
                        keys))
          PROVIDERS in
    mret (MessageResponse.mk MESSAGE_TYPE_RESPONSE requestId true None
                             (Some (Providers providers))).

(** The declared types of [payload] and [origin] exclude [undefined], but
    [handleMessage] passes [message.payload!] and [origin!] unchecked: an
    absent origin makes [new URL] throw, an absent payload makes the
    destructuring throw.  [sessionService.recordActivity()] is called
    without [await]; here it runs to its end at the call, which is one of
    the orders the event loop allows and touches nothing the rest of the
    handler reads but the cache that both fill alike. *)
Definition handleRequest (requestId : string) (payload : option Payload.t)
    (origin : option string) : Js MessageResponse.t :=
  startTime ← Date_now;
  unlocked ← VaultService_isUnlocked;
  if negb unlocked then
    mret (failure requestId LOCKED
                  "Extension is locked. Please unlock to continue.")
  else
    unawaited SessionService_recordActivity;;
    match origin ≫= URL_hostname with
    | None => throw "TypeError: Invalid URL"
    | Some domain =>
        isWhitelisted ← StorageService_isDomainWhitelisted domain;
        if negb isWhitelisted then
          mret (failure requestId DOMAIN_NOT_ALLOWED
                  ("Domain " +:+ domain +:+
                   " is not whitelisted. Add it in the TinyLocket extension."))
        else
          match payload with
          | None => throw "TypeError: Cannot destructure"
          | Some payload =>
          let endpoint := Payload.endpoint payload in
          let method := default "POST"%string (Payload.method payload) in
          let headers := default ∅ (Payload.headers payload) in
          if negb (truthy (Payload.provider payload)) then
            mret (failure requestId INVALID_REQUEST "Provider is required")
          else
            let provider := default ""%string (Payload.provider payload) in
            keyEntry ← VaultService_getKeyForProvider provider;
            match keyEntry with
            | None =>
                mret (failure requestId NO_KEY
                        ("No API key configured for " +:+ provider +:+
                         ". Add one in the TinyLocket extension."))
            | Some keyEntry =>
                match getProviderById provider with
                | None =>
                    mret (failure requestId INVALID_REQUEST
                                  ("Unknown provider: " +:+ provider))
                | Some providerConfig =>
                    let baseUrl :=
                      if ProviderConfig.requiresEndpointUrl providerConfig then
                        if truthy (Payload.endpointUrl payload)
                        then default ""%string (Payload.endpointUrl payload)
                        else if truthy (ApiKeyEntry.endpointUrl keyEntry)
                        then default ""%string (ApiKeyEntry.endpointUrl keyEntry)
                        else ""%string
                      else ProviderConfig.baseUrl providerConfig in
                    if ProviderConfig.requiresEndpointUrl providerConfig
                       && bool_decide (baseUrl = ""%string)
                    then
                      mret (failure requestId INVALID_REQUEST
                              "Custom endpoint URL is required for this provider")
                    else
                      let fullUrl :=
                        baseUrl +:+ default "undefined"%string endpoint in
                      let authHeaders :=
                        <[ ProviderConfig.authHeader providerConfig :=
                             ProviderConfig.authPrefix providerConfig +:+
                             ApiKeyEntry.apiKey keyEntry ]> headers in
                      let authHeaders :=
                        if bool_decide (provider = "anthropic"%string)
                        then <[ "anthropic-version"%string := "2023-06-01"%string ]> authHeaders
                        else authHeaders in
                      let logged :=
                        if truthy endpoint then default ""%string endpoint
                        else ""%string in
                      try_catch
                        (result ←
                           (if default false (Payload.stream payload)
                            then makeStreamingRequest fullUrl method authHeaders
                                   (Payload.body payload) requestId
                            else makeApiRequest fullUrl method authHeaders
                                   (Payload.body payload));
                         finished ← Date_now;
                         let durationMs := finished - startTime in
                         id ← uuidv4;
                         timestamp ← Date_now;
                         StorageService_addRequestHistory
                           (RequestHistoryEntry.mk id timestamp provider logged
                              domain (result_status result) durationMs);;
                         mret (MessageResponse.mk MESSAGE_TYPE_RESPONSE requestId
                                 true None (Some (Proxied result))))
                        (fun error =>
                           finished ← Date_now;
                           let durationMs := finished - startTime in
                           id ← uuidv4;
                           timestamp ← Date_now;
                           StorageService_addRequestHistory
                             (RequestHistoryEntry.mk id timestamp provider logged
                                domain 0 durationMs);;
                           mret (failure requestId NETWORK_ERROR error))
                end
            end
          end
    end.

(** [sender.tab?.url], when there is one *)
Definition handleMessage (message : MessagePayload.t)
    (sender_tab_url : option string) : Js MessageResponse.t :=
  origin ←
    (if truthy sender_tab_url then
       match URL_origin (default ""%string sender_tab_url) with
       | Some o => mret (Some o)
       | None => throw "TypeError: Invalid URL"
       end
     else mret (MessagePayload.origin message));
  requestId ←
    (if truthy (MessagePayload.requestId message)
     then mret (default ""%string (MessagePayload.requestId message))
     else uuidv4);
  let type := MessagePayload.type message in
  if bool_decide (type = MESSAGE_TYPE_PING) then mret (handlePing requestId)
  else if bool_decide (type = MESSAGE_TYPE_GET_STATUS) then
    handleGetStatus requestId
  else if bool_decide (type = MESSAGE_TYPE_GET_PROVIDERS) then
    handleGetProviders requestId
  else if bool_decide (type = MESSAGE_TYPE_REQUEST) then
    handleRequest requestId (MessagePayload.payload message) origin
  else
    mret (failure requestId INVALID_REQUEST
                  ("Unknown message type: " +:+ type)).


(** *** Views of the world used in the statements *)

(** What [getAll] returns: the cache when there is one, else the content of
    [chrome.storage.local] with the defaults filled in. *)
Definition stored (w : World) : StoredData.t :=
  match cache w with
  | Some data => data
  | None =>
      StoredData.mk
        (ChromeStorage.vault (local w))
        (default [] (ChromeStorage.whitelistedDomains (local w)))
        (default [] (ChromeStorage.requestHistory (local w)))
        (match ChromeStorage.settings (local w) with
         | Some s => ExtensionSettings.spread DEFAULT_SETTINGS s
         | None => DEFAULT_SETTINGS
         end)
        (default ∅ (ChromeStorage.customEndpoints (local w)))
  end.

(** The world once [getAll] has run. *)
Definition cached (w : World) : World := set_cache (Some (stored w)) w.

(** The vault records written so far, oldest first. *)
Definition vault_writes (w : World) : list VaultData.t :=
  omap (fun x => match x with
                 | ChromeStorage.SetVault v => Some v
                 | _ => None
                 end) (writes w).

(** The messages one [broadcastStreamChunk] sends. *)
Definition broadcast (w : World) (requestId : string) (chunk : jsstring)
    (done : bool) : list Sent :=
  omap (fun tab =>
          match tab with
          | Some id =>
              if id =? 0 then None
              else Some (StreamChunk id requestId chunk done)
          | None => None
          end) (tabs w).

(** The texts the streaming decoder gives for the chunks of a stream. *)
Fixpoint stream_texts (decoder : Utf8.TextDecoder) (chunks : list bytes)
  : list jsstring :=
  match chunks with
  | [] => []
  | value :: rest =>
      let '(decoder', chunk) := Utf8.decode_stream decoder value in
      chunk :: stream_texts decoder' rest
  end.

(** The history [addRequestHistory] leaves, from the history it finds. *)
Definition trimmed (max : Z) (history : list RequestHistoryEntry.t)
    (entry : RequestHistoryEntry.t) : list RequestHistoryEntry.t :=
  let history := history ++ [entry] in
  if max <? Z.of_nat (length history) then slice (- max) history else history.

(** The [n] most recent entries of a history. *)
Definition most_recent {A} (n : nat) (l : list A) : list A :=
  drop (length l - n)%nat l.

(** Entries logged one after the other. *)
Definition log_all (entries : list RequestHistoryEntry.t) (w : World) : World :=
  foldl (fun w entry => snd (StorageService_addRequestHistory entry w)) w entries.

(** The world once [handleRequest] has read the clock and recorded the
    activity. *)
Definition active (w : World) : World :=
  snd (SessionService_recordActivity (set_ticks (S (ticks w)) w)).

(** Whether a domain is on the allow-list. *)
Definition listed (domain : string) (w : World) : bool :=
  existsb (fun d => bool_decide (WhitelistedDomain.domain d = domain))
          (StoredData.whitelistedDomains (stored w)).

(** Whether the vault in memory holds a key for a provider. *)
Definition has_key (provider : string) (w : World) : bool :=
  existsb (fun k => bool_decide (ApiKeyEntry.provider k = provider))
          (default [] (decryptedKeys w)).


(** The round trip of the design document: a key derived from the password
    with a fresh salt, the text encrypted under it, the key derived again
    from the password and that salt, and the ciphertext decrypted under it
    with the nonce the encryption drew. *)
Definition encrypt_then_decrypt (password : string) (plaintext : jsstring)
  : Js jsstring :=
  '(key, salt) ← CryptoService_deriveKey password None;
  '(ciphertext, iv) ← CryptoService_encrypt plaintext key;
  '(key', _) ← CryptoService_deriveKey password (Some salt);
  CryptoService_decrypt ciphertext key' iv.


(** *** The persisted vault *)

(** The key [deriveKey] computes from a password and a salt. *)
Definition derived (password : string) (salt : bytes) : bytes :=
  pbkdf2 password salt PBKDF2_ITERATIONS KEY_LENGTH.

(** A record whose ciphertext and nonce come from one encryption under
    [key], stored next to [salt]. *)
Definition sealed_with (key : bytes) (salt : string) (v : VaultData.t) : Prop :=
  exists iv plaintext,
    length iv = 12%nat /\
    VaultData.iv v = btoa iv /\
    VaultData.encrypted v = btoa (gcm_encrypt key iv plaintext) /\
    VaultData.salt v = salt.

(** A record sealed under the key that [password] gives with the salt of the
    record: [password] is the master password of the record. *)
Definition sealed_under (password : string) (v : VaultData.t) : Prop :=
  exists salt,
    length salt = SALT_LENGTH /\
    sealed_with (derived password salt) (btoa salt) v.


(** The key held in memory, when there is one, is a buffer of the heap. *)
Definition key_allocated (w : World) : Prop :=
  match encryptionKey w with
  | Some a => (a < length (heap w))%nat
  | None => True
  end.

(** The check of a password against a record, as [unlock] and
    [changePassword] make it: the fields decoded, the ciphertext decrypted
    under the key the password gives with the salt of the record, the text
    parsed.  [None] when a step throws. *)
Definition decrypt_record (password : string) (v : VaultData.t)
  : option (option (list ApiKeyEntry.t)) :=
  salt ← atob (VaultData.salt v);
  ciphertext ← atob (VaultData.encrypted v);
  iv ← atob (VaultData.iv v);
  plaintext ← gcm_decrypt (derived password salt) iv ciphertext;
  JSON_parse (Utf8.decode plaintext).

(** [password] opens the record to the list [keys]. *)
Definition opens (password : string) (v : VaultData.t)
    (keys : list ApiKeyEntry.t) : Prop :=
  decrypt_record password v = Some (Some keys).


(** What a password rotation persisted: nothing, or one record, in one
    write, with a new salt and the ciphertext and the nonce of one
    encryption under the key the new password gives with that salt. *)
Definition rotated (newPassword : string) (w w' : World) : Prop :=
  (vault_writes w' = vault_writes w /\
   ChromeStorage.vault (local w') = ChromeStorage.vault (local w) /\
   StoredData.vault (stored w') = StoredData.vault (stored w)) \/
  exists v',
    vault_writes w' = vault_writes w ++ [v'] /\
    sealed_under newPassword v' /\
    ChromeStorage.vault (local w') = Some v' /\
    StoredData.vault (stored w') = Some v'.

(** The memory of the vault service is the same in both worlds. *)
Definition same_memory (w w' : World) : Prop :=
  encryptionKey w' = encryptionKey w /\
  decryptedKeys w' = decryptedKeys w /\
  heap w' = heap w.


(** *** The operations of the vault, as a state machine *)

Inductive VaultOp :=
| Restart
| Create (password : string)
| Unlock (password : string)
| Lock
| AddKey (provider name apiKey : string) (endpointUrl : option string)
| UpdateKey (id : string) (updates : KeyUpdates)
| DeleteKey (id : string)
| ChangePassword (oldPassword newPassword : string).

(** The background worker is stopped and started again: the services are
    constructed anew, with nothing in memory; storage and the alarm stay.
    [SessionService] reads the clock for [lastActivity], and [init] finds
    the vault locked. *)
Definition restart (w : World) : World :=
  mkWorld (S (ticks w)) (local w) (writes w) None [] None None
          (clock (ticks w)) (alarm w) (tabs w) (outbox w).

(** The world after an operation, whatever it returned or threw. *)
Definition step (op : VaultOp) (w : World) : World :=
  match op with
  | Restart => restart w
  | Create password => snd (VaultService_create password w)
  | Unlock password => snd (VaultService_unlock password w)
  | Lock => snd (VaultService_lock w)
  | AddKey provider name apiKey endpointUrl =>
      snd (VaultService_addKey provider name apiKey endpointUrl w)
  | UpdateKey id updates => snd (VaultService_updateKey id updates w)
  | DeleteKey id => snd (VaultService_deleteKey id w)
  | ChangePassword oldPassword newPassword =>
      snd (VaultService_changePassword oldPassword newPassword w)
  end.

(** The master password after an operation: the new password of a rotation
    that returned [true], else the password before. *)
Definition next_master (password : string) (op : VaultOp) (w : World) : string :=
  match op with
  | ChangePassword oldPassword newPassword =>
      match fst (VaultService_changePassword oldPassword newPassword w) with
      | Normal true => newPassword
      | _ => password
      end
  | _ => password
  end.


(** The master password and the world after a sequence of operations. *)
Fixpoint run (ops : list VaultOp) (password : string) (w : World)
  : string * World :=
  match ops with
  | [] => (password, w)
  | op :: rest => run rest (next_master password op w) (step op w)
  end.

(** *** The storage service as a state machine *)

(** What a service constructed anew would read from [chrome.storage.local]. *)
Definition persisted (w : World) : StoredData.t := stored (set_cache None w).

(** The answer of [getAll] read off a content of [chrome.storage.local]. *)
Definition view (l : ChromeStorage.t) : StoredData.t :=
  stored (mkWorld 0 l [] None [] None None 0 None [] []).

(** The cache, when there is one, holds what [chrome.storage.local] holds. *)
Definition coherent (w : World) : Prop := stored w = persisted w.

(** The public methods of [StorageService] that touch the cache or the
    storage area. *)
Inductive StorageOp :=
| GetAll
| SaveVault (vault : VaultData.t)
| AddWhitelistedDomain (domain : string)
| RemoveWhitelistedDomain (domain : string)
| AddRequestHistory (entry : RequestHistoryEntry.t)
| ClearRequestHistory
| UpdateSettings (settings : ExtensionSettings.partial)
| SaveCustomEndpoint (keyId url : string)
| ClearCache
| ClearAll.

Definition storage_step (w : World) (op : StorageOp) : World :=
  match op with
  | GetAll => snd (StorageService_getAll w)
  | SaveVault vault => snd (StorageService_saveVault vault w)
  | AddWhitelistedDomain domain => snd (StorageService_addWhitelistedDomain domain w)
  | RemoveWhitelistedDomain domain =>
      snd (StorageService_removeWhitelistedDomain domain w)
  | AddRequestHistory entry => snd (StorageService_addRequestHistory entry w)
  | ClearRequestHistory => snd (StorageService_clearRequestHistory w)
  | UpdateSettings settings => snd (StorageService_updateSettings settings w)
  | SaveCustomEndpoint keyId url => snd (StorageService_saveCustomEndpoint keyId url w)
  | ClearCache => snd (StorageService_clearCache w)
  | ClearAll => snd (StorageService_clearAll w)
  end.

Definition storage_run (ops : list StorageOp) (w : World) : World :=
  foldl storage_step w ops.

(** The entry [addKey] makes in [w]: an id and two readings of the clock
    drawn from the oracles, the rest as given. *)
Definition new_entry (provider name apiKey : string)
    (endpointUrl : option string) (w : World) : ApiKeyEntry.t :=
  ApiKeyEntry.mk (uuid (ticks w)) provider name apiKey endpointUrl
                 (clock (S (ticks w))) (clock (S (S (ticks w)))).

(** The headers of a proxied call: those of the caller, with the key of the
    vault under the authentication header of the provider, and the version
    header for ["anthropic"]. *)
Definition authenticated (config : ProviderConfig.t) (keyEntry : ApiKeyEntry.t)
    (provider : string) (headers : gmap string string) : gmap string string :=
  let authHeaders :=
    <[ ProviderConfig.authHeader config :=
         ProviderConfig.authPrefix config +:+ ApiKeyEntry.apiKey keyEntry ]> headers in
  if bool_decide (provider = "anthropic"%string)
  then <[ "anthropic-version"%string := "2023-06-01"%string ]> authHeaders
  else authHeaders.

(** [result] is what [handleRequest] gives in [w] when it proxies the
    request to [url] with [headers]: the answer is the result of the call, or
    [NETWORK_ERROR] with the message of the error when the call throws;
    the time of the activity is recorded; and, when the history is enabled,
    one entry is logged with the provider, the endpoint, the domain, the
    duration and the status of the response, or the status 0 when the call
    threw. *)
Definition proxied (requestId : string) (payload : Payload.t)
    (domain provider url : string) (headers : gmap string string) (w : World)
    (result : Completion MessageResponse.t * World) : Prop :=
  let method := default "POST"%string (Payload.method payload) in
  let outcome :=
    (if default false (Payload.stream payload)
     then makeStreamingRequest url method headers (Payload.body payload) requestId
     else makeApiRequest url method headers (Payload.body payload))
      (cached (active w)) in
  let status :=
    match fst outcome with
    | Normal result => result_status result
    | Thrown _ => 0
    end in
  let entry :=
    RequestHistoryEntry.mk
      (uuid (ticks w + 4)) (clock (ticks w + 5)) provider
      (default ""%string (Payload.endpoint payload)) domain status
      (clock (ticks w + 3) - clock (ticks w)) in
  let settings := StoredData.settings (stored w) in
  fst result
  = Normal
      match fst outcome with
      | Normal result =>
          MessageResponse.mk MESSAGE_TYPE_RESPONSE requestId true None
                             (Some (Proxied result))
      | Thrown error => failure requestId NETWORK_ERROR error
      end /\
  StoredData.requestHistory (stored (snd result))
  = (if ExtensionSettings.historyEnabled settings
     then trimmed (ExtensionSettings.maxHistoryEntries settings)
                  (StoredData.requestHistory (stored w)) entry
     else StoredData.requestHistory (stored w)) /\
  lastActivity (snd result) = clock (S (ticks w)).


(** *** The store of the popup (popup/store/index.ts) *)

Definition PopupStore_setCurrentPage (page : Page) : Popup unit :=
  set_state (PopupState.with_currentPage page).

Definition PopupStore_checkAuthState : Popup unit :=
  hasVault ← call VaultService_exists;
  isUnlocked ← call VaultService_isUnlocked;
  let currentPage :=
    if negb hasVault then PageSetup
    else if negb isUnlocked then PageUnlock
    else PageHome in
  set_state (fun s =>
    PopupState.with_currentPage currentPage
      (PopupState.with_isUnlocked isUnlocked (PopupState.with_hasVault hasVault s))).

Definition PopupStore_loadKeys : Popup unit :=
  unlocked ← call VaultService_isUnlocked;
  if negb unlocked then set_state (PopupState.with_keys [])
  else
    keys ← call VaultService_getKeys;
    set_state (PopupState.with_keys keys).

Definition PopupStore_loadDomains : Popup unit :=
  domains ← call StorageService_getWhitelistedDomains;
  set_state (PopupState.with_domains domains).

Definition PopupStore_addDomain (domain : string) : Popup unit :=
  call (StorageService_addWhitelistedDomain domain);;
  PopupStore_loadDomains.

Definition PopupStore_removeDomain (domain : string) : Popup unit :=
  call (StorageService_removeWhitelistedDomain domain);;
  PopupStore_loadDomains.

(** [history.reverse()] reverses in place the array [getRequestHistory]
    returned, which is the array the cache of the storage service holds: the
    cache is there once [getAll] has run. *)
Definition PopupStore_loadHistory : Popup unit :=
  history ← call StorageService_getRequestHistory;
  call (patch_cache (StoredData.with_requestHistory (rev history)));;
  set_state (PopupState.with_history (rev history)).

Definition PopupStore_clearHistory : Popup unit :=
  call StorageService_clearRequestHistory;;
  set_state (PopupState.with_history []).

Definition PopupStore_loadSettings : Popup unit :=
  settings ← call StorageService_getSettings;
  set_state (PopupState.with_settings (Some settings)).

Definition PopupStore_updateSettings (updates : ExtensionSettings.partial)
  : Popup unit :=
  call (StorageService_updateSettings updates);;
  PopupStore_loadSettings.

Definition PopupStore_unlock (password : string) : Popup bool :=
  success ← call (VaultService_unlock password);
  (if (success : bool) then
     set_state (fun s =>
       PopupState.with_currentPage PageHome (PopupState.with_isUnlocked true s));;
     PopupStore_loadKeys
   else mret tt);;
  mret success.

Definition PopupStore_lock : Popup unit :=
  call VaultService_lock;;
  set_state (fun s =>
    PopupState.with_keys []
      (PopupState.with_currentPage PageUnlock (PopupState.with_isUnlocked false s))).

Definition PopupStore_createVault (password : string) : Popup unit :=
  call (VaultService_create password);;
  set_state (fun s =>
    PopupState.with_currentPage PageHome
      (PopupState.with_isUnlocked true (PopupState.with_hasVault true s))).

Definition PopupStore_addKey (provider name apiKey : string)
    (endpointUrl : option string) : Popup unit :=
  call (VaultService_addKey provider name apiKey endpointUrl);;
  PopupStore_loadKeys.

Definition PopupStore_updateKey (id : string) (updates : KeyUpdates) : Popup unit :=
  call (VaultService_updateKey id updates);;
  PopupStore_loadKeys.

Definition PopupStore_deleteKey (id : string) : Popup unit :=
  call (VaultService_deleteKey id);;
  PopupStore_loadKeys.

(** The keys the popup may show: those of the vault when it is unlocked. *)
Definition visible_keys (w : World) : list ApiKeyEntry.t :=
  if isUnlocked w then default [] (decryptedKeys w) else [].

(** [String.prototype.toWellFormed]: the string with every surrogate that
    is not half of a pair replaced by U+FFFD. *)
Fixpoint toWellFormed (s : jsstring) : jsstring :=
  match s with
  | [] => []
  | c :: r =>
      if Utf8.is_high c then
        match r with
        | d :: r' =>
            if Utf8.is_low d then c :: d :: toWellFormed r'
            else 0xFFFD :: toWellFormed r
        | [] => [0xFFFD]
        end
      else if Utf8.is_low c then 0xFFFD :: toWellFormed r
      else c :: toWellFormed r
  end.

(** A text without the U+FEFF it starts with, if it starts with one. *)
Definition without_mark (s : jsstring) : jsstring :=
  match s with
  | c :: rest => if c =? 0xFEFF then rest else s
  | [] => []
  end.

(** ** Properties *)

(** *** Stepping through computations *)

Lemma bind_normal {A B} (m : Js A) (k : A -> Js B) w a w' :
  m w = (Normal a, w') -> (m ≫= k) w = k a w'.
Proof. intros H. unfold mbind, Js_bind. now rewrite H. Qed.

Lemma set_cache_same (w : World) d : cache w = Some d -> set_cache (Some d) w = w.
Proof. destruct w; simpl; intros ->; reflexivity. Qed.

Lemma getAll_spec (w : World) :
  StorageService_getAll w = (Normal (stored w), cached w).
Proof.
  unfold StorageService_getAll, cached, stored, mbind, Js_bind, read, update, mret, Js_ret.
  destruct (cache w) eqn:E; simpl.
  - now rewrite set_cache_same.
  - reflexivity.
Qed.

Lemma stored_cached (w : World) : stored (cached w) = stored w.
Proof. reflexivity. Qed.

Lemma getVault_spec (w : World) :
  StorageService_getVault w = (Normal (StoredData.vault (stored w)), cached w).
Proof.
  unfold StorageService_getVault.
  now rewrite (bind_normal _ _ _ _ _ (getAll_spec w)).
Qed.


(** *** The text codec *)

Lemma Z_of_byte_of_Z (z : Z) : 0 <= z < 256 -> Z_of_byte (byte_of_Z z) = z.
Proof.
  intros H. unfold Z_of_byte, byte_of_Z.
  destruct (Byte.of_N (Z.to_N z)) as [b|] eqn:E.
  - apply Byte.to_of_N in E. rewrite E. lia.
  - apply Byte.of_N_None_iff in E. lia.
Qed.

(** Arithmetic with division: the goal is cut off from the platform first,
    which these facts do not depend on. *)
Ltac forget_platform :=
  clear clock entropy uuid pbkdf2 gcm_encrypt gcm_decrypt btoa atob
        JSON_stringify JSON_parse fetch URL_origin URL_hostname manifest_version.

Ltac arith := Z.div_mod_to_equations; lia.

(** The decoder on a sequence of one, two, three and four bytes. *)
Ltac bools :=
  repeat match goal with
         | |- context [?a <=? ?b] =>
             first [ rewrite (proj2 (Z.leb_le a b)) by lia
                   | rewrite (proj2 (Z.leb_gt a b)) by lia ]
         | |- context [?a =? ?b] =>
             first [ rewrite (proj2 (Z.eqb_eq a b)) by lia
                   | rewrite (proj2 (Z.eqb_neq a b)) by lia ]
         end.

Lemma run_1 b rest :
  0 <= b <= 0x7F ->
  Utf8.run Utf8.fresh (b :: rest) = (fst (Utf8.run Utf8.fresh rest), b :: snd (Utf8.run Utf8.fresh rest)).
Proof.
  intros H. cbn [Utf8.run]. unfold Utf8.handler, Utf8.lead. cbn [Utf8.bytes_needed Utf8.fresh Z.eqb].
  bools. destruct (Utf8.run Utf8.fresh rest); reflexivity.
Qed.

Lemma run_2 b1 b2 rest :
  0xC2 <= b1 <= 0xDF -> 0x80 <= b2 <= 0xBF ->
  Utf8.run Utf8.fresh (b1 :: b2 :: rest)
  = (fst (Utf8.run Utf8.fresh rest), b1 mod 32 * 64 + b2 mod 64 :: snd (Utf8.run Utf8.fresh rest)).
Proof.
  intros H1 H2. cbn [Utf8.run]. unfold Utf8.handler, Utf8.lead. cbn [Utf8.bytes_needed Utf8.fresh Z.eqb].
  bools. cbn [andb negb Utf8.bytes_needed Utf8.bytes_seen Utf8.code_point Utf8.lower_boundary Utf8.upper_boundary Z.eqb Z.add Pos.eqb].
  bools. cbn [andb negb].
  destruct (Utf8.run Utf8.fresh rest); reflexivity.
Qed.

Lemma run_3 b1 b2 b3 rest :
  0xE0 <= b1 <= 0xEF -> 0x80 <= b2 <= 0xBF -> 0x80 <= b3 <= 0xBF ->
  (b1 = 0xE0 -> 0xA0 <= b2) -> (b1 = 0xED -> b2 <= 0x9F) ->
  Utf8.run Utf8.fresh (b1 :: b2 :: b3 :: rest)
  = (fst (Utf8.run Utf8.fresh rest),
     (b1 mod 16 * 64 + b2 mod 64) * 64 + b3 mod 64 :: snd (Utf8.run Utf8.fresh rest)).
Proof.
  intros H1 H2 H3 Hlo Hhi. cbn [Utf8.run]. unfold Utf8.handler, Utf8.lead. cbn [Utf8.bytes_needed Utf8.fresh Z.eqb].
  bools. cbn [andb negb Utf8.bytes_needed Utf8.bytes_seen Utf8.code_point Utf8.lower_boundary Utf8.upper_boundary Z.eqb Z.add Pos.eqb].
  destruct (Z.eqb_spec b1 224), (Z.eqb_spec b1 237); try lia.
  all: bools; cbn [andb negb Utf8.bytes_needed Utf8.bytes_seen Utf8.code_point Utf8.lower_boundary Utf8.upper_boundary Z.eqb Z.add Pos.eqb Pos.add Pos.succ].
  all: bools; cbn [andb negb].
  all: destruct (Utf8.run Utf8.fresh rest); reflexivity.
Qed.

Lemma run_4 b1 b2 b3 b4 rest :
  0xF0 <= b1 <= 0xF4 -> 0x80 <= b2 <= 0xBF -> 0x80 <= b3 <= 0xBF -> 0x80 <= b4 <= 0xBF ->
  (b1 = 0xF0 -> 0x90 <= b2) -> (b1 = 0xF4 -> b2 <= 0x8F) ->
  Utf8.run Utf8.fresh (b1 :: b2 :: b3 :: b4 :: rest)
  = (fst (Utf8.run Utf8.fresh rest),
     ((b1 mod 8 * 64 + b2 mod 64) * 64 + b3 mod 64) * 64 + b4 mod 64
     :: snd (Utf8.run Utf8.fresh rest)).
Proof.
  intros H1 H2 H3 H4 Hlo Hhi. cbn [Utf8.run]. unfold Utf8.handler, Utf8.lead. cbn [Utf8.bytes_needed Utf8.fresh Z.eqb].
  bools. cbn [andb negb Utf8.bytes_needed Utf8.bytes_seen Utf8.code_point Utf8.lower_boundary Utf8.upper_boundary Z.eqb Z.add Pos.eqb].
  destruct (Z.eqb_spec b1 240), (Z.eqb_spec b1 244); try lia.
  all: bools; cbn [andb negb Utf8.bytes_needed Utf8.bytes_seen Utf8.code_point Utf8.lower_boundary Utf8.upper_boundary Z.eqb Z.add Pos.eqb Pos.add Pos.succ].
  all: bools; cbn [andb negb Utf8.bytes_needed Utf8.bytes_seen Utf8.code_point Utf8.lower_boundary Utf8.upper_boundary Z.eqb Z.add Pos.eqb Pos.add Pos.succ].
  all: bools; cbn [andb negb].
  all: destruct (Utf8.run Utf8.fresh rest); reflexivity.
Qed.

(** The decoder reads back the encoding of a scalar value and is ready for
    the next one. *)
Lemma run_scalar (cp : Z) (rest : list Z) :
  Utf8.scalar cp ->
  Utf8.run Utf8.fresh (Utf8.encode_scalar cp ++ rest)
  = (fst (Utf8.run Utf8.fresh rest), cp :: snd (Utf8.run Utf8.fresh rest)).
Proof.
  forget_platform.
  intros [Hr Hs]. unfold Utf8.encode_scalar.
  destruct (Z.leb_spec cp 0x7F);
    [|destruct (Z.leb_spec cp 0x7FF); [|destruct (Z.leb_spec cp 0xFFFF)]];
    cbn [app].
  - apply run_1. lia.
  - rewrite run_2 by arith. f_equal. f_equal. arith.
  - rewrite run_3 by arith. f_equal. f_equal. arith.
  - rewrite run_4 by arith. f_equal. f_equal. arith.
Qed.

Lemma run_scalars (cps : list Z) :
  Forall Utf8.scalar cps ->
  Utf8.run Utf8.fresh (concat (map Utf8.encode_scalar cps)) = (Utf8.fresh, cps).
Proof.
  induction 1 as [|cp cps Hcp _ IH]; [reflexivity|].
  cbn [map concat]. rewrite run_scalar by assumption. now rewrite IH.
Qed.

Lemma encode_scalar_bytes (cp : Z) :
  Utf8.scalar cp -> Forall (fun b => 0 <= b < 256) (Utf8.encode_scalar cp).
Proof.
  forget_platform.
  intros [Hr _]. unfold Utf8.encode_scalar.
  destruct (Z.leb_spec cp 0x7F);
    [|destruct (Z.leb_spec cp 0x7FF); [|destruct (Z.leb_spec cp 0xFFFF)]].
  all: repeat constructor; arith.
Qed.

Lemma code_units_pair (c d : Z) :
  Utf8.is_high c = true -> Utf8.is_low d = true ->
  let cp := 0x10000 + (c - 0xD800) * 0x400 + (d - 0xDC00) in
  Utf8.scalar cp /\ Utf8.code_units cp = [c; d] /\ cp <> 0xFEFF.
Proof.
  forget_platform.
  unfold Utf8.is_high, Utf8.is_low, Utf8.scalar, Utf8.code_units.
  intros Hc Hd. cbv zeta.
  apply andb_true_iff in Hc as [Hc1 Hc2]. apply andb_true_iff in Hd as [Hd1 Hd2].
  apply Z.leb_le in Hc1, Hc2, Hd1, Hd2.
  destruct (Z.leb_spec (65536 + (c - 55296) * 1024 + (d - 56320)) 65535); [lia|].
  split; [lia|]. split; [|lia]. f_equal; [|f_equal]; arith.
Qed.

Lemma code_units_single (c : Z) :
  0 <= c <= 0xFFFF -> Utf8.is_high c = false -> Utf8.is_low c = false ->
  Utf8.scalar c /\ Utf8.code_units c = [c].
Proof.
  unfold Utf8.is_high, Utf8.is_low, Utf8.scalar, Utf8.code_units.
  intros Hr Hh Hl.
  apply andb_false_iff in Hh. apply andb_false_iff in Hl.
  rewrite !Z.leb_gt in Hh, Hl.
  destruct (Z.leb_spec c 65535); [|lia]. split; [lia|reflexivity].
Qed.

(** On a well-formed string the conversion to scalar values loses nothing. *)
Lemma scalar_values_well_formed (n : nat) :
  forall s : jsstring,
    (length s <= n)%nat ->
    Utf8.well_formed s ->
    Forall Utf8.scalar (Utf8.scalar_values s) /\
    concat (map Utf8.code_units (Utf8.scalar_values s)) = s /\
    (hd_error s <> Some 0xFEFF -> hd_error (Utf8.scalar_values s) <> Some 0xFEFF).
Proof.
  induction n as [|n IH]; intros s Hlen Hwf.
  - destruct s; [|cbn in Hlen; lia]. cbn. repeat split; [constructor|congruence].
  - destruct s as [|c r]; [cbn; repeat split; [constructor|congruence]|].
    cbn [Utf8.well_formed] in Hwf. destruct Hwf as [Hc Hwf].
    cbn [Utf8.scalar_values]. cbn [length] in Hlen.
    destruct (Utf8.is_high c) eqn:Eh.
    + destruct r as [|d r']; [contradiction|]. destruct Hwf as [Hd Hwf].
      rewrite Hd. cbn [length] in Hlen.
      destruct (IH r' ltac:(lia) Hwf) as (F & C & _).
      destruct (code_units_pair c d Eh Hd) as (S1 & S2 & S3).
      repeat split.
      * now constructor.
      * cbn [map concat]. rewrite S2, C. reflexivity.
      * cbn [hd_error]. congruence.
    + destruct Hwf as [El Hwf]. rewrite El.
      destruct (IH r ltac:(lia) Hwf) as (F & C & _).
      destruct (code_units_single c Hc Eh El) as (S1 & S2).
      repeat split.
      * now constructor.
      * cbn [map concat]. rewrite S2, C. reflexivity.
      * cbn [hd_error]. congruence.
Qed.

Lemma bytes_back (l : list Z) :
  Forall (fun b => 0 <= b < 256) l -> map Z_of_byte (map byte_of_Z l) = l.
Proof.
  induction 1 as [|b l Hb _ IH]; [reflexivity|].
  cbn [map]. now rewrite Z_of_byte_of_Z, IH.
Qed.

(** [TextDecoder] gives back what [TextEncoder] was given, on well-formed
    strings that do not start with U+FEFF. *)
Lemma decode_encode (s : jsstring) :
  Utf8.well_formed s ->
  hd_error s <> Some 0xFEFF ->
  Utf8.decode (Utf8.encode s) = s.
Proof.
  intros Hwf Hbom.
  destruct (scalar_values_well_formed (length s) s (le_n _) Hwf) as (F & C & B).
  specialize (B Hbom).
  unfold Utf8.decode, Utf8.encode, Utf8.encode_Z.
  rewrite bytes_back.
  2: { apply Forall_concat, Forall_map.
       eapply Forall_impl; [exact F|]. intros cp Hcp. now apply encode_scalar_bytes. }
  rewrite run_scalars by exact F.
  cbn [Utf8.flush Utf8.bytes_needed Utf8.fresh Z.eqb]. rewrite app_nil_r.
  unfold Utf8.serialize.
  destruct (Utf8.scalar_values s) as [|cp cps]; [exact C|].
  cbn [snd negb andb].
  destruct (Z.eqb_spec cp 0xFEFF) as [->|_]; [now elim B|exact C].
Qed.


(** A leading U+FEFF does not come back: the decoder takes it for a byte
    order mark. *)
Lemma decode_encode_bom (s : jsstring) :
  Utf8.well_formed s ->
  Utf8.decode (Utf8.encode (0xFEFF :: s)) = s.
Proof.
  intros Hwf.
  assert (Hwf' : Utf8.well_formed (0xFEFF :: s)).
  { cbn. repeat split; try lia; assumption. }
  destruct (scalar_values_well_formed _ _ (le_n _) Hwf') as (F & _ & _).
  destruct (scalar_values_well_formed _ _ (le_n _) Hwf) as (_ & C & _).
  unfold Utf8.decode, Utf8.encode, Utf8.encode_Z.
  rewrite bytes_back.
  2: { apply Forall_concat, Forall_map.
       eapply Forall_impl; [exact F|]. intros cp Hcp. now apply encode_scalar_bytes. }
  rewrite run_scalars by exact F.
  cbn [Utf8.flush Utf8.bytes_needed Utf8.fresh Z.eqb]. rewrite app_nil_r.
  exact C.
Qed.


(** *** lock *)

Lemma zeroMemory_buffer (w : World) (a : nat) :
  buffer (snd (CryptoService_zeroMemory a w)) a
  = replicate (length (buffer w a)) "000"%byte.
Proof.
  unfold CryptoService_zeroMemory, update, buffer. simpl.
  rewrite list_lookup_alter_eq.
  destruct (heap w !! a) as [b|]; simpl; [|reflexivity].
  induction b as [|x b IH]; simpl; [reflexivity|]. now rewrite IH.
Qed.

Lemma lock_spec (w : World) :
  VaultService_lock w
  = (Normal tt,
     set_decryptedKeys None
       (match encryptionKey w with
        | Some a => set_encryptionKey None (snd (CryptoService_zeroMemory a w))
        | None => w
        end)).
Proof.
  unfold VaultService_lock, mbind, Js_bind, read, update, mret, Js_ret.
  destruct (encryptionKey w); reflexivity.
Qed.

Lemma lock_fields (w : World) :
  let after := snd (VaultService_lock w) in
  encryptionKey after = None /\
  decryptedKeys after = None /\
  isUnlocked after = false /\
  outbox after = outbox w /\
  alarm after = alarm w /\
  writes after = writes w /\
  local after = local w /\
  cache after = cache w.
Proof.
  cbv zeta. rewrite lock_spec. unfold isUnlocked.
  destruct (encryptionKey w) eqn:E; cbn; rewrite ?E; repeat split; reflexivity.
Qed.

(** C9.  [lock()] overwrites the held key with zeros in place, drops the
    reference to it and to the decrypted list, and leaves the vault locked;
    a second [lock()] returns normally as well and changes nothing. *)
Theorem lock_zeroizes_and_is_idempotent (w : World) :
  let once := snd (VaultService_lock w) in
  let twice := snd (VaultService_lock once) in
  fst (VaultService_lock w) = Normal tt /\
  match encryptionKey w with
  | Some a => buffer once a = replicate (length (buffer w a)) "000"%byte
  | None => heap once = heap w
  end /\
  encryptionKey once = None /\
  decryptedKeys once = None /\
  isUnlocked once = false /\
  fst (VaultService_lock once) = Normal tt /\
  isUnlocked twice = false /\
  twice = once.
Proof.
  cbv zeta. rewrite (lock_spec w). cbn [fst snd].
  destruct (encryptionKey w) as [a|] eqn:E.
  - rewrite lock_spec. cbn. rewrite <- (zeroMemory_buffer w a).
    repeat split; reflexivity.
  - rewrite lock_spec. cbn. rewrite E. repeat split; reflexivity.
Qed.


(** *** Auto-lock *)

Lemma ceil_div_bounds (a : Z) :
  60000 * (ceil_div a 60000 - 1) < a <= 60000 * ceil_div a 60000.
Proof. forget_platform. unfold ceil_div. Z.div_mod_to_equations. lia. Qed.

Lemma handleAutoLock_spec (w : World) :
  let minutes := ExtensionSettings.autoLockMinutes (StoredData.settings (stored w)) in
  let inactiveMs := clock (ticks w) - lastActivity w in
  let thresholdMs := minutes * 60 * 1000 in
  let w1 := set_ticks (S (ticks w)) (cached w) in
  minutes <> 0 ->
  SessionService_handleAutoLock w =
  (Normal tt,
   if thresholdMs <=? inactiveMs
   then set_outbox (outbox w ++ [RuntimeMessage "SESSION_LOCKED"])
                   (snd (VaultService_lock w1))
   else set_alarm (Some (ceil_div (thresholdMs - inactiveMs) 60000)) w1).
Proof.
  cbv zeta. intros Hmin.
  unfold SessionService_handleAutoLock, StorageService_getSettings.
  unfold mbind, Js_bind. rewrite getAll_spec.
  unfold mret, Js_ret.
  destruct (Z.eqb_spec (ExtensionSettings.autoLockMinutes (StoredData.settings (stored w))) 0)
    as [E|_]; [contradiction|].
  unfold Date_now, read. cbn [ticks cached set_cache set_alarm set_ticks lastActivity].
  destruct (_ <=? _).
  - rewrite lock_spec. unfold try_catch, chrome_runtime_sendMessage, update.
    destruct (encryptionKey _); reflexivity.
  - reflexivity.
Qed.

(** C8.  When the auto-lock alarm fires and auto-lock is enabled: if the
    time since the last activity has reached the threshold, the vault is
    locked and [SESSION_LOCKED] is sent; otherwise the vault is left as it is
    and the alarm is created again, without a period, for the remaining time
    rounded up to whole minutes. *)
Theorem autolock_fire (w : World) :
  let minutes := ExtensionSettings.autoLockMinutes (StoredData.settings (stored w)) in
  let inactiveMs := clock (ticks w) - lastActivity w in
  let thresholdMs := minutes * 60 * 1000 in
  let after := snd (onAlarm AUTO_LOCK_ALARM_NAME w) in
  minutes <> 0 ->
  fst (onAlarm AUTO_LOCK_ALARM_NAME w) = Normal tt /\
  (thresholdMs <= inactiveMs ->
     isUnlocked after = false /\
     encryptionKey after = None /\
     decryptedKeys after = None /\
     outbox after = outbox w ++ [RuntimeMessage "SESSION_LOCKED"] /\
     alarm after = None) /\
  (inactiveMs < thresholdMs ->
     encryptionKey after = encryptionKey w /\
     decryptedKeys after = decryptedKeys w /\
     heap after = heap w /\
     outbox after = outbox w /\
     exists delay,
       alarm after = Some delay /\
       60000 * (delay - 1) < thresholdMs - inactiveMs <= 60000 * delay).
Proof.
  cbv zeta. intros Hmin.
  assert (E : onAlarm AUTO_LOCK_ALARM_NAME w
              = (Normal tt, snd (SessionService_handleAutoLock (set_alarm None w)))).
  { unfold onAlarm. rewrite bool_decide_eq_true_2 by reflexivity. reflexivity. }
  rewrite E. cbn [fst snd].
  rewrite (handleAutoLock_spec (set_alarm None w)) by exact Hmin.
  change (stored (set_alarm None w)) with (stored w).
  cbn [fst snd ticks lastActivity set_alarm outbox].
  split; [reflexivity|]. split; intros H.
  - rewrite (proj2 (Z.leb_le _ _) H).
    match goal with
    | |- context [VaultService_lock ?x] =>
        destruct (lock_fields x) as (K1 & K2 & K3 & K4 & K5 & _)
    end.
    unfold isUnlocked in *. cbn in *. rewrite K1, K2, K5. now repeat split.
  - rewrite (proj2 (Z.leb_gt _ _)) by lia.
    cbn. repeat split; try reflexivity.
    eexists; split; [reflexivity|]. apply ceil_div_bounds.
Qed.

(** *** Request history *)

Lemma addRequestHistory_spec (entry : RequestHistoryEntry.t) (w : World) :
  ExtensionSettings.historyEnabled (StoredData.settings (stored w)) = true ->
  let history :=
    trimmed (ExtensionSettings.maxHistoryEntries (StoredData.settings (stored w)))
            (StoredData.requestHistory (stored w)) entry in
  let after := snd (StorageService_addRequestHistory entry w) in
  fst (StorageService_addRequestHistory entry w) = Normal tt /\
  stored after = StoredData.with_requestHistory history (stored w) /\
  ChromeStorage.requestHistory (local after) = Some history.
Proof.
  cbv zeta. intros Hen.
  unfold StorageService_addRequestHistory, mbind, Js_bind.
  rewrite getAll_spec, Hen. cbn [negb].
  unfold chrome_storage_local_set, patch_cache, update, trimmed. cbn.
  repeat split; reflexivity.
Qed.

Lemma trimmed_most_recent (max : Z) history entry :
  1 <= max ->
  trimmed max history entry = most_recent (Z.to_nat max) (history ++ [entry]).
Proof.
  intros Hmax. unfold trimmed, most_recent, slice.
  set (l := history ++ [entry]).
  destruct (Z.ltb_spec max (Z.of_nat (length l))) as [H|H].
  - rewrite (proj2 (Z.ltb_lt (- max) 0)) by lia.
    f_equal. lia.
  - replace (length l - Z.to_nat max)%nat with 0%nat by lia. reflexivity.
Qed.

Lemma most_recent_snoc {A} (n : nat) (l : list A) (x : A) :
  (1 <= n)%nat ->
  most_recent n (most_recent n l ++ [x]) = most_recent n (l ++ [x]).
Proof.
  intros Hn. unfold most_recent.
  rewrite !length_app, length_drop. cbn [length].
  destruct (le_lt_dec (length l) n) as [H|H].
  - replace (length l - n)%nat with 0%nat by lia. cbn [drop].
    f_equal. lia.
  - rewrite (drop_app_le l [x]) by lia.
    rewrite drop_app_le by (rewrite length_drop; lia).
    rewrite drop_drop. f_equal. f_equal. lia.
Qed.

Lemma most_recent_app {A} (n : nat) (l k : list A) :
  (n <= length k)%nat -> most_recent n (l ++ k) = most_recent n k.
Proof.
  intros H. unfold most_recent. rewrite length_app.
  replace (length l + length k - n)%nat with (length l + (length k - n))%nat by lia.
  now rewrite drop_app_add'.
Qed.

Lemma log_all_spec (entries : list RequestHistoryEntry.t) (w : World) :
  let max := ExtensionSettings.maxHistoryEntries (StoredData.settings (stored w)) in
  ExtensionSettings.historyEnabled (StoredData.settings (stored w)) = true ->
  1 <= max ->
  entries <> [] ->
  stored (log_all entries w)
  = StoredData.with_requestHistory
      (most_recent (Z.to_nat max) (StoredData.requestHistory (stored w) ++ entries))
      (stored w).
Proof.
  cbv zeta. intros Hen Hmax.
  induction entries as [|e es IH] using rev_ind; [congruence|]. intros _.
  unfold log_all in *. rewrite foldl_app. cbn [foldl].
  destruct (decide (es = [])) as [->|Hne].
  - cbn [foldl]. rewrite app_nil_l.
    destruct (addRequestHistory_spec e w Hen) as (_ & -> & _).
    now rewrite trimmed_most_recent.
  - specialize (IH Hne).
    set (w1 := foldl _ w es) in *.
    assert (Hen1 : ExtensionSettings.historyEnabled (StoredData.settings (stored w1)) = true)
      by now rewrite IH.
    destruct (addRequestHistory_spec e w1 Hen1) as (_ & -> & _).
    rewrite IH. cbn [StoredData.settings StoredData.requestHistory StoredData.with_requestHistory
                     StoredData.vault StoredData.whitelistedDomains StoredData.customEndpoints].
    rewrite trimmed_most_recent by exact Hmax.
    rewrite most_recent_snoc by lia.
    now rewrite app_assoc.
Qed.

(** The cap holds once it is at least one: after [max + k] entries have been
    logged, whatever the history before, the history is the [max] most
    recent of them, oldest first. *)
Lemma history_cap_positive (entries : list RequestHistoryEntry.t) (w : World) :
  let max := ExtensionSettings.maxHistoryEntries (StoredData.settings (stored w)) in
  ExtensionSettings.historyEnabled (StoredData.settings (stored w)) = true ->
  1 <= max ->
  max <= Z.of_nat (length entries) ->
  StoredData.requestHistory (stored (log_all entries w))
  = most_recent (Z.to_nat max) entries /\
  Z.of_nat (length (StoredData.requestHistory (stored (log_all entries w)))) = max.
Proof.
  cbv zeta. intros Hen Hmax Hlen.
  rewrite log_all_spec; [|assumption|assumption|destruct entries; cbn in *; [lia|congruence]].
  cbn [StoredData.requestHistory StoredData.with_requestHistory].
  rewrite most_recent_app by lia. split; [reflexivity|].
  unfold most_recent. rewrite length_drop. lia.
Qed.

(** With a cap of zero the branch that trims is taken and trims nothing:
    [slice(-0)] is the whole array. *)
Lemma history_cap_zero (entry : RequestHistoryEntry.t) (w : World) :
  ExtensionSettings.historyEnabled (StoredData.settings (stored w)) = true ->
  ExtensionSettings.maxHistoryEntries (StoredData.settings (stored w)) = 0 ->
  StoredData.requestHistory (stored (snd (StorageService_addRequestHistory entry w)))
  = StoredData.requestHistory (stored w) ++ [entry].
Proof.
  intros Hen Hmax.
  destruct (addRequestHistory_spec entry w Hen) as (_ & -> & _).
  rewrite Hmax. cbn [StoredData.requestHistory StoredData.with_requestHistory].
  unfold trimmed, slice.
  destruct (_ <? _); [|reflexivity].
  cbn [Z.opp Z.ltb Z.compare]. rewrite Z.min_l by lia. reflexivity.
Qed.


(** *** Streaming *)

Lemma broadcastStreamChunk_spec requestId chunk done (w : World) :
  broadcastStreamChunk requestId chunk done w
  = (Normal tt, set_outbox (outbox w ++ broadcast w requestId chunk done) w).
Proof. reflexivity. Qed.

Lemma read_loop_spec requestId (chunks : list bytes) ending :
  forall decoder fullContent (w : World),
    let texts := stream_texts decoder chunks in
    let sent := concat (map (fun t => broadcast w requestId t false) texts) in
    read_loop requestId decoder fullContent chunks ending w
    = match ending with
      | Closed =>
          (Normal (fullContent ++ concat texts),
           set_outbox (outbox w ++ sent ++ broadcast w requestId [] true) w)
      | Errored e => (Thrown e, set_outbox (outbox w ++ sent) w)
      end.
Proof.
  induction chunks as [|value rest IH]; intros decoder fullContent w; cbn.
  - destruct ending; cbn.
    + unfold mbind, Js_bind. rewrite broadcastStreamChunk_spec.
      now rewrite app_nil_r.
    + rewrite app_nil_r. unfold throw. f_equal. now destruct w.
  - destruct (Utf8.decode_stream decoder value) as [decoder' chunk].
    unfold mbind, Js_bind. rewrite broadcastStreamChunk_spec.
    rewrite IH. cbn.
    destruct ending; cbn; unfold broadcast; cbn;
      rewrite <- ?app_assoc; reflexivity.
Qed.

(** C7.  A streaming request whose response has started to be read and
    whose stream then fails: the chunks read so far have been sent with
    [done = false], the last messages sent are the chunk with [done = true]
    under the same request id, to every tab, and then the error of the
    stream is thrown to the caller. *)
Theorem stream_failure_ends_with_done
    (url method : string) (headers : gmap string string) (body : option string)
    (requestId : string) (w : World) (response : Response.t)
    (stream : ReadableStream) (e : string) :
  fetch (ticks w) url method
        (headers ∪ {[ "Content-Type"%string := "application/json"%string ]}) body
    = Normal response ->
  Response.ok response = true ->
  Response.body response = Some stream ->
  stream_end stream = Errored e ->
  let texts := stream_texts Utf8.new_TextDecoder (stream_chunks stream) in
  let result := makeStreamingRequest url method headers body requestId w in
  fst result = Thrown e /\
  outbox (snd result)
  = outbox w
    ++ concat (map (fun t => broadcast w requestId t false) texts)
    ++ broadcast w requestId [] true.
Proof.
  cbv zeta. intros Hfetch Hok Hbody Hend.
  unfold makeStreamingRequest, do_fetch, mbind, Js_bind.
  rewrite Hfetch, Hok, Hbody. cbn [negb].
  unfold try_catch. rewrite read_loop_spec, Hend.
  rewrite broadcastStreamChunk_spec. unfold throw. cbn.
  split; [reflexivity|]. unfold broadcast. cbn. now rewrite <- app_assoc.
Qed.


(** *** The broker's checks *)

Lemma recordActivity_frame (w : World) :
  let after := snd (SessionService_recordActivity w) in
  stored after = stored w /\
  decryptedKeys after = decryptedKeys w /\
  encryptionKey after = encryptionKey w /\
  heap after = heap w /\
  tabs after = tabs w /\
  outbox after = outbox w /\
  writes after = writes w.
Proof.
  cbv zeta.
  unfold SessionService_recordActivity, SessionService_resetAutoLockTimer,
    StorageService_getSettings, VaultService_isUnlocked, Date_now, read, update,
    chrome_alarms_clear, chrome_alarms_create, mbind, Js_bind, mret, Js_ret.
  cbn [fst snd].
  destruct (isUnlocked _); [|cbn; repeat split; reflexivity].
  rewrite getAll_spec.
  destruct (0 <? _); cbn; repeat split; reflexivity.
Qed.

Lemma isDomainWhitelisted_spec (domain : string) (w : World) :
  StorageService_isDomainWhitelisted domain w = (Normal (listed domain w), cached w).
Proof.
  unfold StorageService_isDomainWhitelisted, StorageService_getWhitelistedDomains,
    mbind, Js_bind.
  now rewrite getAll_spec.
Qed.

Lemma handleRequest_gate requestId payload origin domain (w : World) :
  isUnlocked w = true ->
  URL_hostname origin = Some domain ->
  listed domain w = false ->
  handleRequest requestId payload (Some origin) w
  = (Normal (failure requestId DOMAIN_NOT_ALLOWED
               ("Domain " +:+ domain +:+
                " is not whitelisted. Add it in the TinyLocket extension.")),
     cached (active w)).
Proof.
  intros Hun Hhost Hlist.
  unfold handleRequest, mbind, Js_bind, Date_now, VaultService_isUnlocked, read.
  change (isUnlocked (set_ticks (S (ticks w)) w)) with (isUnlocked w).
  rewrite Hun. cbn [negb]. unfold unawaited. cbn [option_bind mbind].
  rewrite Hhost, isDomainWhitelisted_spec.
  assert (E : listed domain (active w) = listed domain w).
  { unfold listed, active. now rewrite (proj1 (recordActivity_frame _)). }
  fold (active w). rewrite E, Hlist. reflexivity.
Qed.

Lemma listed_false (domain : string) (w : World) :
  domain ∉ map WhitelistedDomain.domain (StoredData.whitelistedDomains (stored w)) ->
  listed domain w = false.
Proof.
  unfold listed. induction (StoredData.whitelistedDomains (stored w)) as [|d l IH];
    cbn; intros H; [reflexivity|].
  rewrite not_elem_of_cons in H. destruct H as [H1 H2].
  rewrite bool_decide_eq_false_2 by congruence. now apply IH.
Qed.

Lemma listed_true (domain : string) (w : World) :
  domain ∈ map WhitelistedDomain.domain (StoredData.whitelistedDomains (stored w)) ->
  listed domain w = true.
Proof.
  unfold listed. induction (StoredData.whitelistedDomains (stored w)) as [|d l IH];
    cbn; intros H; [now apply elem_of_nil in H|].
  apply elem_of_cons in H. destruct H as [->|H].
  - now rewrite bool_decide_eq_true_2.
  - rewrite IH by assumption. apply orb_true_r.
Qed.

(** C4.  A request that arrives while the vault is unlocked, from an origin
    whose hostname is not on the allow-list, is answered with
    [DOMAIN_NOT_ALLOWED], whatever the payload asks for and whatever keys the
    vault holds. *)
Theorem domain_not_allowed
    (requestId : string) (payload : option Payload.t) (origin domain : string)
    (w : World) :
  isUnlocked w = true ->
  URL_hostname origin = Some domain ->
  domain ∉ map WhitelistedDomain.domain (StoredData.whitelistedDomains (stored w)) ->
  fst (handleRequest requestId payload (Some origin) w)
  = Normal (failure requestId DOMAIN_NOT_ALLOWED
              ("Domain " +:+ domain +:+
               " is not whitelisted. Add it in the TinyLocket extension.")).
Proof.
  intros Hun Hhost Hnot.
  now rewrite (handleRequest_gate requestId payload origin domain w Hun Hhost
                 (listed_false domain w Hnot)).
Qed.


Lemma isUnlocked_true (w : World) :
  isUnlocked w = true ->
  exists keys key, decryptedKeys w = Some keys /\ encryptionKey w = Some key.
Proof.
  unfold isUnlocked. destruct (decryptedKeys w), (encryptionKey w); cbn;
    try discriminate. eauto.
Qed.

Lemma find_existsb {A} (f : A -> bool) (l : list A) :
  existsb f l = bool_decide (is_Some (List.find f l)).
Proof.
  induction l as [|x l IH]; cbn; [reflexivity|].
  destruct (f x); cbn; [reflexivity|exact IH].
Qed.

Lemma getKeyForProvider_spec (provider : string) (w : World) keys key :
  decryptedKeys w = Some keys ->
  encryptionKey w = Some key ->
  VaultService_getKeyForProvider provider w
  = (Normal (List.find (fun k => bool_decide (ApiKeyEntry.provider k = provider)) keys), w).
Proof.
  intros Hk He.
  unfold VaultService_getKeyForProvider, require_unlocked, mbind, Js_bind.
  now rewrite Hk, He.
Qed.

(** C1, as the code has it.  A request that passes the unlock and allow-list
    checks and whose provider resolves to no configuration: without a
    provider (absent or empty) the answer is [INVALID_REQUEST]; with one, the
    key is looked up first, so the answer is [NO_KEY] when the vault holds no
    key under that provider and [INVALID_REQUEST] only when it holds one. *)
Theorem unresolved_provider
    (requestId : string) (payload : Payload.t) (origin domain : string)
    (w : World) :
  isUnlocked w = true ->
  URL_hostname origin = Some domain ->
  domain ∈ map WhitelistedDomain.domain (StoredData.whitelistedDomains (stored w)) ->
  getProviderById (default ""%string (Payload.provider payload)) = None ->
  let provider := default ""%string (Payload.provider payload) in
  fst (handleRequest requestId (Some payload) (Some origin) w)
  = Normal
      (if negb (truthy (Payload.provider payload)) then
         failure requestId INVALID_REQUEST "Provider is required"
       else if has_key provider w then
         failure requestId INVALID_REQUEST ("Unknown provider: " +:+ provider)
       else
         failure requestId NO_KEY
           ("No API key configured for " +:+ provider +:+
            ". Add one in the TinyLocket extension.")).
Proof.
  cbv zeta. intros Hun Hhost Hin Hnone.
  destruct (isUnlocked_true w Hun) as (keys & key & Hk & He).
  destruct (recordActivity_frame (set_ticks (S (ticks w)) w))
    as (Hs & Hd & Hek & _).
  unfold handleRequest, mbind, Js_bind, Date_now, VaultService_isUnlocked, read.
  change (isUnlocked (set_ticks (S (ticks w)) w)) with (isUnlocked w).
  rewrite Hun. cbn [negb]. unfold unawaited. cbn [option_bind mbind].
  rewrite Hhost, isDomainWhitelisted_spec. fold (active w).
  assert (E : listed domain (active w) = true).
  { unfold listed, active. rewrite Hs. now apply listed_true. }
  rewrite E. cbn [negb].
  destruct (truthy (Payload.provider payload)); cbn [negb]; [|reflexivity].
  rewrite (getKeyForProvider_spec _ (cached (active w)) keys key).
  2: { change (decryptedKeys (active w) = Some keys).
       unfold active. now rewrite Hd. }
  2: { change (encryptionKey (active w) = Some key).
       unfold active. now rewrite Hek. }
  unfold has_key. rewrite Hk.
  change (default [] (Some keys)) with keys. rewrite find_existsb.
  destruct (List.find _ keys) as [k|] eqn:Ef.
  - rewrite Hnone.
    rewrite bool_decide_eq_true_2 by (eexists; reflexivity). reflexivity.
  - rewrite bool_decide_eq_false_2 by (intros [? ?]; discriminate). reflexivity.
Qed.


(** *** Encryption *)

(** What is assumed of AES-GCM: decryption under the key and nonce of the
    encryption gives the plaintext back. *)
Hypothesis gcm_decrypt_encrypt :
  forall key iv plaintext,
    gcm_decrypt key iv (gcm_encrypt key iv plaintext) = Some plaintext.

(** C5, as the code has it.  For every password and every plaintext that is
    well-formed UTF-16 and does not start with U+FEFF, encrypting under the
    key derived with a fresh salt and decrypting under the key derived again
    with that salt, with the nonce of the encryption, gives the plaintext
    back. *)
Theorem round_trip (password : string) (plaintext : jsstring) (w : World) :
  Utf8.well_formed plaintext ->
  hd_error plaintext <> Some 0xFEFF ->
  fst (encrypt_then_decrypt password plaintext w) = Normal plaintext.
Proof using Type gcm_decrypt_encrypt.
  intros Hwf Hbom.
  unfold encrypt_then_decrypt, CryptoService_deriveKey, CryptoService_encrypt,
    CryptoService_decrypt, randomBytes, alloc, read, buffer,
    mbind, Js_bind, mret, Js_ret.
  cbn [fst snd heap set_heap set_ticks ticks].
  rewrite list_lookup_middle by reflexivity. cbn [default from_option id].
  rewrite list_lookup_middle by reflexivity. cbn [default from_option id].
  rewrite gcm_decrypt_encrypt. cbn [fst].
  now rewrite decode_encode.
Qed.


Lemma byte_order_mark_lost (password : string) (rest : jsstring) (w : World) :
  Utf8.well_formed rest ->
  fst (encrypt_then_decrypt password (0xFEFF :: rest) w) = Normal rest.
Proof using Type gcm_decrypt_encrypt.
  intros Hwf.
  unfold encrypt_then_decrypt, CryptoService_deriveKey, CryptoService_encrypt,
    CryptoService_decrypt, randomBytes, alloc, read, buffer,
    mbind, Js_bind, mret, Js_ret.
  cbn [fst snd heap set_heap set_ticks ticks].
  rewrite list_lookup_middle by reflexivity. cbn [default from_option id].
  rewrite list_lookup_middle by reflexivity. cbn [default from_option id].
  rewrite gcm_decrypt_encrypt. cbn [fst].
  now rewrite decode_encode_bom.
Qed.


(** *** Writing the vault *)

Lemma drawn_length (n : nat) (w : World) : length (drawn n w) = n.
Proof. unfold drawn. now rewrite length_map, length_seq. Qed.

Lemma vault_writes_snoc_vault (w : World) (l : list ChromeStorage.write) v :
  writes w = l ++ [ChromeStorage.SetVault v] ->
  vault_writes w
  = omap (fun x => match x with
                   | ChromeStorage.SetVault v => Some v
                   | _ => None
                   end) l ++ [v].
Proof. unfold vault_writes. intros ->. now rewrite omap_app. Qed.

Lemma saveVault_spec (w : World) keys a :
  decryptedKeys w = Some keys ->
  encryptionKey w = Some a ->
  let result := VaultService_saveVault w in
  same_memory w (snd result) /\
  match StoredData.vault (stored w) with
  | None =>
      fst result = Thrown "Vault does not exist" /\
      writes (snd result) = writes w /\
      stored (snd result) = stored w /\
      local (snd result) = local w
  | Some v =>
      fst result = Normal tt /\
      exists v',
        vault_writes (snd result) = vault_writes w ++ [v'] /\
        sealed_with (buffer w a) (VaultData.salt v) v' /\
        ChromeStorage.vault (local (snd result)) = Some v' /\
        stored (snd result) = StoredData.with_vault v' (stored w)
  end.
Proof.
  cbv zeta. intros Hk He.
  unfold VaultService_saveVault, require_unlocked, CryptoService_encrypt,
    StorageService_getVault, randomBytes, read, mbind, Js_bind, mret, Js_ret.
  rewrite Hk, He. cbn [fst snd]. rewrite getAll_spec.
  change (stored (set_ticks (ticks w + 12) w)) with (stored w).
  destruct (StoredData.vault (stored w)) as [v|].
  - unfold Date_now, StorageService_saveVault, chrome_storage_local_set,
      patch_cache, update, mbind, Js_bind.
    cbn [fst snd]. split; [repeat split|]. split; [reflexivity|].
    eexists. split; [|split; [|split]].
    + erewrite vault_writes_snoc_vault by reflexivity. reflexivity.
    + exists (drawn 12 w). eexists. split; [apply drawn_length|].
      split; [reflexivity|]. split; reflexivity.
    + reflexivity.
    + reflexivity.
  - unfold throw. cbn [fst snd]. repeat split.
Qed.


Lemma saveCustomEndpoint_frame (keyId url : string) (w : World) :
  let result := StorageService_saveCustomEndpoint keyId url w in
  fst result = Normal tt /\
  vault_writes (snd result) = vault_writes w /\
  ChromeStorage.vault (local (snd result)) = ChromeStorage.vault (local w) /\
  StoredData.vault (stored (snd result)) = StoredData.vault (stored w) /\
  same_memory w (snd result).
Proof.
  cbv zeta.
  unfold StorageService_saveCustomEndpoint, StorageService_getCustomEndpoints,
    chrome_storage_local_set, patch_cache, update, mbind, Js_bind, mret, Js_ret.
  rewrite getAll_spec. cbn [fst snd].
  split; [reflexivity|]. split; [|repeat split].
  unfold vault_writes. cbn [writes set_cache set_writes set_local cached].
  rewrite omap_app. cbn. apply app_nil_r.
Qed.







(** *** unlock *)

Lemma unlock_spec (password : string) (w : World) (v : VaultData.t) :
  StoredData.vault (stored w) = Some v ->
  let result := VaultService_unlock password w in
  writes (snd result) = writes w /\
  stored (snd result) = stored w /\
  local (snd result) = local w /\
  match decrypt_record password v with
  | Some keys =>
      fst result = Normal true /\
      exists salt,
        atob (VaultData.salt v) = Some salt /\
        encryptionKey (snd result) = Some (length (heap w)) /\
        heap (snd result) = heap w ++ [derived password salt] /\
        decryptedKeys (snd result) = keys
  | None =>
      fst result = Normal false /\
      encryptionKey (snd result) = encryptionKey w /\
      decryptedKeys (snd result) = decryptedKeys w /\
      exists extra, heap (snd result) = heap w ++ extra
  end.
Proof.
  cbv zeta. intros Hv.
  remember (VaultService_unlock password w) as result eqn:E.
  unfold VaultService_unlock in E.
  rewrite (bind_normal _ _ _ _ _ (getVault_spec w)), Hv in E.
  unfold try_catch, CryptoService_fromBase64, CryptoService_deriveKey,
    CryptoService_decrypt, JSON_parse_or_throw, alloc, read, update, throw, buffer in E.
  unfold decrypt_record, derived, mbind at 1, option_bind.
  destruct (atob (VaultData.salt v)) as [salt|].
  2: { unfold mbind, Js_bind in E. subst result. cbn. repeat split; try reflexivity.
       exists []. now rewrite app_nil_r. }
  unfold mbind at 1, option_bind.
  destruct (atob (VaultData.encrypted v)) as [ciphertext|].
  2: { unfold mbind, Js_bind in E. subst result. cbn. repeat split; try reflexivity.
       now eexists. }
  unfold mbind at 1, option_bind.
  destruct (atob (VaultData.iv v)) as [iv|].
  2: { unfold mbind, Js_bind in E. subst result. cbn. repeat split; try reflexivity.
       now eexists. }
  unfold mbind at 1, option_bind.
  unfold mbind, Js_bind, mret, Js_ret in E.
  cbn [fst snd heap set_heap cached set_cache] in E.
  rewrite list_lookup_middle in E by reflexivity. cbn [default from_option id] in E.
  destruct (gcm_decrypt _ iv ciphertext) as [plaintext|].
  2: { subst result. cbn. repeat split; try reflexivity. now eexists. }
  destruct (JSON_parse (Utf8.decode plaintext)) as [keys|].
  2: { subst result. cbn. repeat split; try reflexivity. now eexists. }
  subst result. cbn.
  repeat split; try reflexivity. exists salt. repeat split; reflexivity.
Qed.

(** *** changePassword *)

Lemma changePassword_spec (oldPassword newPassword : string) (w : World)
    (v : VaultData.t) :
  StoredData.vault (stored w) = Some v ->
  let result := VaultService_changePassword oldPassword newPassword w in
  match decrypt_record oldPassword v with
  | Some keys =>
      fst result = Normal true /\
      exists v' oldSalt,
        let salt := drawn SALT_LENGTH w in
        let grown :=
          heap w ++ [derived oldPassword oldSalt; derived newPassword salt] in
        vault_writes (snd result) = vault_writes w ++ [v'] /\
        sealed_with (derived newPassword salt) (btoa salt) v' /\
        ChromeStorage.vault (local (snd result)) = Some v' /\
        StoredData.vault (stored (snd result)) = Some v' /\
        encryptionKey (snd result) = Some (S (length (heap w))) /\
        decryptedKeys (snd result) = keys /\
        heap (snd result)
        = match encryptionKey w with
          | Some a => alter (map (fun _ => "000"%byte)) a grown
          | None => grown
          end
  | None =>
      fst result = Normal false /\
      writes (snd result) = writes w /\
      stored (snd result) = stored w /\
      encryptionKey (snd result) = encryptionKey w /\
      decryptedKeys (snd result) = decryptedKeys w /\
      local (snd result) = local w /\
      exists extra, heap (snd result) = heap w ++ extra
  end.
Proof.
  cbv zeta. intros Hv.
  remember (VaultService_changePassword oldPassword newPassword w) as result eqn:E.
  unfold VaultService_changePassword in E.
  rewrite (bind_normal _ _ _ _ _ (getVault_spec w)), Hv in E.
  unfold try_catch, CryptoService_fromBase64, CryptoService_deriveKey,
    CryptoService_decrypt, CryptoService_encrypt, CryptoService_zeroMemory,
    JSON_parse_or_throw, StorageService_saveVault, chrome_storage_local_set,
    patch_cache, Date_now, randomBytes, alloc, read, update, throw, buffer in E.
  unfold decrypt_record, derived, mbind at 1, option_bind.
  destruct (atob (VaultData.salt v)) as [salt|].
  2: { unfold mbind, Js_bind in E. subst result. cbn. repeat split; try reflexivity.
       exists []. now rewrite app_nil_r. }
  unfold mbind at 1, option_bind.
  destruct (atob (VaultData.encrypted v)) as [ciphertext|].
  2: { unfold mbind, Js_bind in E. subst result. cbn. repeat split; try reflexivity.
       now eexists. }
  unfold mbind at 1, option_bind.
  destruct (atob (VaultData.iv v)) as [iv|].
  2: { unfold mbind, Js_bind in E. subst result. cbn. repeat split; try reflexivity.
       now eexists. }
  unfold mbind at 1, option_bind.
  unfold mbind, Js_bind, mret, Js_ret in E.
  cbn [fst snd heap set_heap cached set_cache] in E.
  rewrite list_lookup_middle in E by reflexivity. cbn [default from_option id] in E.
  destruct (gcm_decrypt _ iv ciphertext) as [plaintext|].
  2: { subst result. cbn. repeat split; try reflexivity. now eexists. }
  destruct (JSON_parse (Utf8.decode plaintext)) as [keys|].
  2: { subst result. cbn. repeat split; try reflexivity. now eexists. }
  cbn [fst snd heap set_heap set_ticks ticks set_cache cached set_writes set_local
       encryptionKey] in E.
  rewrite list_lookup_middle in E by reflexivity. cbn [default from_option id] in E.
  split.
  { subst result. destruct (encryptionKey w); reflexivity. }
  eexists. exists salt.
  split; [|split; [|split; [|split; [|split; [|split]]]]].
  - subst result. destruct (encryptionKey w); cbn [snd];
      (erewrite vault_writes_snoc_vault by reflexivity); reflexivity.
  - exists (drawn 12 (set_ticks (ticks w + SALT_LENGTH)%nat w)). eexists.
    split; [apply drawn_length|]. repeat split.
  - subst result. destruct (encryptionKey w); reflexivity.
  - subst result. destruct (encryptionKey w); reflexivity.
  - subst result. destruct (encryptionKey w); cbn; now rewrite length_app, Nat.add_1_r.
  - subst result. destruct (encryptionKey w); reflexivity.
  - subst result. destruct (encryptionKey w); cbn; now rewrite <- app_assoc.
Qed.


Lemma grown_lookup (l : list bytes) (o n : bytes) :
  (l ++ [o; n]) !! S (length l) = Some n.
Proof.
  replace (l ++ [o; n]) with ((l ++ [o]) ++ [n]) by now rewrite <- app_assoc.
  replace (S (length l)) with (length (l ++ [o])) by (rewrite length_app; cbn; lia).
  apply list_lookup_middle. reflexivity.
Qed.

(** C10.  [changePassword] does not ask for an unlocked vault: with a vault
    persisted and an old password that opens it, the call made from the
    locked state returns [true] and leaves the vault unlocked, holding the
    key derived from the new password and the decrypted list. *)
Theorem changePassword_unlocks
    (oldPassword newPassword : string) (keys : list ApiKeyEntry.t)
    (v : VaultData.t) (w : World) :
  StoredData.vault (stored w) = Some v ->
  opens oldPassword v keys ->
  isUnlocked w = false ->
  key_allocated w ->
  let result := VaultService_changePassword oldPassword newPassword w in
  fst result = Normal true /\
  isUnlocked (snd result) = true /\
  decryptedKeys (snd result) = Some keys /\
  exists a v',
    encryptionKey (snd result) = Some a /\
    buffer (snd result) a = derived newPassword (drawn SALT_LENGTH w) /\
    StoredData.vault (stored (snd result)) = Some v' /\
    sealed_under newPassword v'.
Proof.
  cbv zeta. intros Hv Hopen _ Halloc.
  pose proof (changePassword_spec oldPassword newPassword w v Hv) as H.
  cbv zeta in H. unfold opens in Hopen. rewrite Hopen in H.
  destruct H as (R & v' & oldSalt & W & Sl & L & St & K & D & Hp).
  split; [exact R|]. split; [unfold isUnlocked; now rewrite K, D|].
  split; [exact D|].
  exists (S (length (heap w))), v'. split; [exact K|]. split.
  - unfold buffer. rewrite Hp. unfold key_allocated in Halloc.
    destruct (encryptionKey w) as [a|].
    + rewrite list_lookup_alter_ne by lia. now rewrite grown_lookup.
    + now rewrite grown_lookup.
  - split; [exact St|]. exists (drawn SALT_LENGTH w).
    split; [apply drawn_length|exact Sl].
Qed.



(** *** create *)

Lemma hasVault_spec (w : World) :
  StorageService_hasVault w
  = (Normal (bool_decide (is_Some (StoredData.vault (stored w)))), cached w).
Proof.
  unfold StorageService_hasVault.
  now rewrite (bind_normal _ _ _ _ _ (getVault_spec w)).
Qed.


(** *** One record, written whole *)



(** *** The wrong password *)

(** What is assumed of [btoa] and [atob]: decoding gives the bytes back. *)
Hypothesis atob_btoa : forall binary, atob (btoa binary) = Some binary.

(** What is assumed of the key derivation and of the authentication tag
    together: a ciphertext does not authenticate under the key that another
    password gives with the same salt. *)
Hypothesis wrong_password_rejected :
  forall password password' salt iv plaintext,
    password' <> password ->
    gcm_decrypt (derived password' salt) iv
                (gcm_encrypt (derived password salt) iv plaintext) = None.



(** *** The master password is an invariant *)












(** *** The cache of the storage service *)

Lemma spread_total (s : ExtensionSettings.t) :
  ExtensionSettings.spread DEFAULT_SETTINGS (ExtensionSettings.total s) = s.
Proof. now destruct s. Qed.

Lemma persisted_view (w : World) : persisted w = view (local w).
Proof. reflexivity. Qed.

Lemma coherent_cached (w : World) : coherent w -> coherent (cached w).
Proof. unfold coherent. now rewrite stored_cached. Qed.

(** A write to the storage area followed by the same change of the cache. *)
Lemma set_patch_coherent (x : ChromeStorage.write)
    (f : StoredData.t -> StoredData.t) (w : World) :
  (forall l, f (view l) = view (ChromeStorage.apply x l)) ->
  coherent w ->
  coherent (snd ((chrome_storage_local_set x;; patch_cache f) w)).
Proof.
  unfold coherent. rewrite !persisted_view. intros Hf H.
  unfold chrome_storage_local_set, patch_cache, update, mbind, Js_bind.
  cbn [fst snd local set_cache set_writes set_local].
  rewrite <- Hf, <- H. unfold stored. cbn [cache set_cache set_writes set_local].
  destruct (cache w) as [d|] eqn:E; cbn [fmap option_fmap option_map].
  - reflexivity.
  - symmetry. exact (Hf (local w)).
Qed.

Lemma storage_step_coherent (op : StorageOp) (w : World) :
  coherent w -> coherent (storage_step w op).
Proof.
  intros H. destruct op; cbn [storage_step].
  - rewrite getAll_spec. now apply coherent_cached.
  - now apply set_patch_coherent.
  - unfold StorageService_addWhitelistedDomain, StorageService_getWhitelistedDomains.
    rewrite (bind_normal _ _ _ _ _ (bind_normal _ _ _ _ _ (getAll_spec w))).
    destruct (existsb _ _); [now apply coherent_cached|].
    unfold Date_now. unfold mbind at 1, Js_bind at 1.
    apply set_patch_coherent; [reflexivity|]. now apply coherent_cached in H.
  - unfold StorageService_removeWhitelistedDomain, StorageService_getWhitelistedDomains.
    rewrite (bind_normal _ _ _ _ _ (bind_normal _ _ _ _ _ (getAll_spec w))).
    apply set_patch_coherent; [reflexivity|]. now apply coherent_cached.
  - unfold StorageService_addRequestHistory.
    rewrite (bind_normal _ _ _ _ _ (getAll_spec w)).
    destruct (negb _); [now apply coherent_cached|].
    apply set_patch_coherent; [reflexivity|]. now apply coherent_cached.
  - now apply set_patch_coherent.
  - unfold StorageService_updateSettings, StorageService_getSettings.
    rewrite (bind_normal _ _ _ _ _ (bind_normal _ _ _ _ _ (getAll_spec w))).
    apply set_patch_coherent; [|now apply coherent_cached].
    intros l. unfold view, stored. cbn. now rewrite spread_total.
  - unfold StorageService_saveCustomEndpoint, StorageService_getCustomEndpoints.
    rewrite (bind_normal _ _ _ _ _ (bind_normal _ _ _ _ _ (getAll_spec w))).
    apply set_patch_coherent; [reflexivity|]. now apply coherent_cached.
  - reflexivity.
  - reflexivity.
Qed.

(** X1.  The storage service keeps its cache in step with
    [chrome.storage.local]: if the cache agrees with the storage area, it
    still does after any sequence of calls of the service, so that dropping
    the cache changes no answer. *)
Theorem storage_cache_coherent (ops : list StorageOp) (w : World) :
  coherent w ->
  coherent (storage_run ops w) /\
  fst (StorageService_getAll (snd (StorageService_clearCache (storage_run ops w))))
  = fst (StorageService_getAll (storage_run ops w)).
Proof.
  intros H.
  assert (C : coherent (storage_run ops w)).
  { unfold storage_run. revert w H.
    induction ops as [|op ops IH]; intros w H; cbn [foldl]; [exact H|].
    apply IH. now apply storage_step_coherent. }
  split; [exact C|].
  rewrite !getAll_spec. cbn [fst]. f_equal. symmetry. exact C.
Qed.

(** A write to the storage area and the same change of a cache that is
    there: what the service answers afterwards, and what else is touched. *)
Lemma write_through (x : ChromeStorage.write) (f : StoredData.t -> StoredData.t)
    (w : World) (d : StoredData.t) :
  cache w = Some d ->
  let result := (chrome_storage_local_set x;; patch_cache f) w in
  fst result = Normal tt /\
  stored (snd result) = f d /\
  writes (snd result) = writes w ++ [x] /\
  local (snd result) = ChromeStorage.apply x (local w) /\
  same_memory w (snd result) /\
  alarm (snd result) = alarm w /\
  outbox (snd result) = outbox w /\
  lastActivity (snd result) = lastActivity w /\
  ticks (snd result) = ticks w.
Proof.
  cbv zeta. intros E.
  unfold chrome_storage_local_set, patch_cache, update, mbind, Js_bind, stored.
  cbn. rewrite E. repeat split; reflexivity.
Qed.

(** *** The allow-list *)

Lemma existsb_domain_snoc (domain other : string) (now : Z)
    (l : list WhitelistedDomain.t) :
  existsb (fun d => bool_decide (WhitelistedDomain.domain d = other))
          (l ++ [WhitelistedDomain.mk domain now])
  = existsb (fun d => bool_decide (WhitelistedDomain.domain d = other)) l
    || bool_decide (domain = other).
Proof. rewrite existsb_app. cbn. now rewrite orb_false_r. Qed.

Lemma existsb_domain_filter (domain other : string)
    (l : list WhitelistedDomain.t) :
  existsb (fun d => bool_decide (WhitelistedDomain.domain d = other))
          (List.filter
             (fun d => negb (bool_decide (WhitelistedDomain.domain d = domain))) l)
  = existsb (fun d => bool_decide (WhitelistedDomain.domain d = other)) l
    && negb (bool_decide (other = domain)).
Proof.
  induction l as [|d l IH]; cbn; [reflexivity|].
  destruct (decide (WhitelistedDomain.domain d = domain)) as [E|E].
  - rewrite (bool_decide_eq_true_2 _ E). cbn [negb]. rewrite IH.
    destruct (decide (other = domain)) as [->|N].
    + rewrite (bool_decide_eq_true_2 (domain = domain)) by reflexivity.
      cbn. now rewrite !andb_false_r.
    + rewrite (bool_decide_eq_false_2 (WhitelistedDomain.domain d = other))
        by congruence.
      reflexivity.
  - rewrite (bool_decide_eq_false_2 _ E). cbn [negb existsb]. rewrite IH.
    destruct (bool_decide (WhitelistedDomain.domain d = other)) eqn:B; cbn.
    + apply bool_decide_eq_true_1 in B.
      rewrite bool_decide_eq_false_2 by congruence. reflexivity.
    + reflexivity.
Qed.

(** X2.  [addWhitelistedDomain] returns normally and leaves the domain on
    the allow-list, the answer for every other domain unchanged.  A domain
    that is listed already is not listed twice and nothing is written; a new
    one is put at the end, with the time of the call, in one write. *)
Theorem whitelist_add_then_check (domain : string) (w : World) :
  let result := StorageService_addWhitelistedDomain domain w in
  let after := snd result in
  let domains := StoredData.whitelistedDomains (stored w) in
  let added := domains ++ [WhitelistedDomain.mk domain (clock (ticks w))] in
  fst result = Normal tt /\
  fst (StorageService_isDomainWhitelisted domain after) = Normal true /\
  (forall other,
      other <> domain ->
      fst (StorageService_isDomainWhitelisted other after)
      = fst (StorageService_isDomainWhitelisted other w)) /\
  StoredData.whitelistedDomains (stored after)
  = (if listed domain w then domains else added) /\
  writes after
  = (if listed domain w then writes w
     else writes w ++ [ChromeStorage.SetWhitelistedDomains added]) /\
  (if listed domain w then local after = local w
   else ChromeStorage.whitelistedDomains (local after) = Some added).
Proof.
  cbv zeta.
  set (added := StoredData.whitelistedDomains (stored w)
                ++ [WhitelistedDomain.mk domain (clock (ticks w))]).
  assert (E : StorageService_addWhitelistedDomain domain w
              = if listed domain w then (Normal tt, cached w)
                else (chrome_storage_local_set
                        (ChromeStorage.SetWhitelistedDomains added);;
                      patch_cache (StoredData.with_whitelistedDomains added))
                       (set_ticks (S (ticks w)) (cached w))).
  { unfold StorageService_addWhitelistedDomain, StorageService_getWhitelistedDomains.
    rewrite (bind_normal _ _ _ _ _ (bind_normal _ _ _ _ _ (getAll_spec w))).
    fold (listed domain w). now destruct (listed domain w). }
  rewrite E. clear E. rewrite !isDomainWhitelisted_spec. cbn [fst].
  destruct (listed domain w) eqn:L; cbn [fst snd].
  - split; [reflexivity|]. split; [now f_equal|]. repeat split; try reflexivity.
    intros other _. rewrite !isDomainWhitelisted_spec. reflexivity.
  - destruct (write_through (ChromeStorage.SetWhitelistedDomains added)
                (StoredData.with_whitelistedDomains added)
                (set_ticks (S (ticks w)) (cached w)) (stored w) eq_refl)
      as (R & St & W & Lo & _).
    split; [exact R|].
    assert (Hl : forall other,
               listed other
                 (snd ((chrome_storage_local_set
                          (ChromeStorage.SetWhitelistedDomains added);;
                        patch_cache (StoredData.with_whitelistedDomains added))
                         (set_ticks (S (ticks w)) (cached w))))
               = listed other w || bool_decide (domain = other)).
    { intros other. unfold listed at 1. rewrite St. apply existsb_domain_snoc. }
    split; [|split; [|split; [|split]]].
    + f_equal. rewrite Hl. rewrite (bool_decide_eq_true_2 (domain = domain)) by reflexivity.
      apply orb_true_r.
    + intros other Hne. rewrite !isDomainWhitelisted_spec. cbn [fst]. f_equal.
      rewrite Hl. rewrite bool_decide_eq_false_2 by congruence. apply orb_false_r.
    + now rewrite St.
    + exact W.
    + now rewrite Lo.
Qed.

(** X3.  [removeWhitelistedDomain] returns normally and leaves the domain
    off the allow-list, the answer for every other domain unchanged and the
    domains that stay in their order; the list is written whether or not the
    domain was on it. *)
Theorem whitelist_remove_then_check (domain : string) (w : World) :
  let result := StorageService_removeWhitelistedDomain domain w in
  let after := snd result in
  let kept :=
    List.filter (fun d => negb (bool_decide (WhitelistedDomain.domain d = domain)))
                (StoredData.whitelistedDomains (stored w)) in
  fst result = Normal tt /\
  fst (StorageService_isDomainWhitelisted domain after) = Normal false /\
  (forall other,
      other <> domain ->
      fst (StorageService_isDomainWhitelisted other after)
      = fst (StorageService_isDomainWhitelisted other w)) /\
  StoredData.whitelistedDomains (stored after) = kept /\
  writes after = writes w ++ [ChromeStorage.SetWhitelistedDomains kept] /\
  ChromeStorage.whitelistedDomains (local after) = Some kept.
Proof.
  cbv zeta.
  set (kept := List.filter _ _).
  assert (E : StorageService_removeWhitelistedDomain domain w
              = (chrome_storage_local_set (ChromeStorage.SetWhitelistedDomains kept);;
                 patch_cache (StoredData.with_whitelistedDomains kept)) (cached w)).
  { unfold StorageService_removeWhitelistedDomain, StorageService_getWhitelistedDomains.
    now rewrite (bind_normal _ _ _ _ _ (bind_normal _ _ _ _ _ (getAll_spec w))). }
  rewrite E. clear E.
  destruct (write_through (ChromeStorage.SetWhitelistedDomains kept)
              (StoredData.with_whitelistedDomains kept)
              (cached w) (stored w) eq_refl)
    as (R & St & W & Lo & _).
  split; [exact R|].
  assert (Hl : forall other,
             listed other
               (snd ((chrome_storage_local_set
                        (ChromeStorage.SetWhitelistedDomains kept);;
                      patch_cache (StoredData.with_whitelistedDomains kept))
                       (cached w)))
             = listed other w && negb (bool_decide (other = domain))).
  { intros other. unfold listed at 1. rewrite St. apply existsb_domain_filter. }
  split; [|split; [|split; [|split]]].
  - rewrite isDomainWhitelisted_spec. cbn [fst]. f_equal.
    rewrite Hl. rewrite (bool_decide_eq_true_2 (domain = domain)) by reflexivity.
    apply andb_false_r.
  - intros other Hne. rewrite !isDomainWhitelisted_spec. cbn [fst]. f_equal.
    rewrite Hl. rewrite bool_decide_eq_false_2 by congruence. apply andb_true_r.
  - now rewrite St.
  - exact W.
  - now rewrite Lo.
Qed.

(** *** The auto-lock setting and the alarm *)

Lemma getSettings_spec (w : World) :
  StorageService_getSettings w = (Normal (StoredData.settings (stored w)), cached w).
Proof.
  unfold StorageService_getSettings.
  now rewrite (bind_normal _ _ _ _ _ (getAll_spec w)).
Qed.

Lemma resetAutoLockTimer_spec (w : World) :
  let minutes := ExtensionSettings.autoLockMinutes (StoredData.settings (stored w)) in
  SessionService_resetAutoLockTimer w
  = (Normal tt, set_alarm (if 0 <? minutes then Some minutes else None) (cached w)).
Proof.
  cbv zeta. unfold SessionService_resetAutoLockTimer.
  rewrite (bind_normal _ _ _ _ _ (getSettings_spec w)).
  unfold chrome_alarms_clear, chrome_alarms_create, update, mbind, Js_bind, mret, Js_ret.
  cbn [fst snd]. now destruct (0 <? _).
Qed.

Lemma updateSettings_spec (settings : ExtensionSettings.partial) (w : World) :
  let newSettings :=
    ExtensionSettings.spread (StoredData.settings (stored w)) settings in
  StorageService_updateSettings settings w
  = (chrome_storage_local_set (ChromeStorage.SetSettings newSettings);;
     patch_cache (StoredData.with_settings newSettings)) (cached w).
Proof.
  cbv zeta. unfold StorageService_updateSettings.
  now rewrite (bind_normal _ _ _ _ _ (getSettings_spec w)).
Qed.

(** X4.  [setAutoLockMinutes] persists the timeout with the other two
    settings as they were, and [getAutoLockMinutes] then returns it.  The
    alarm is replaced by one with that delay when the timeout is positive
    and dropped otherwise, whether the vault is unlocked or not; the vault
    itself is not touched. *)
Theorem auto_lock_minutes_set (minutes : Z) (w : World) :
  let result := SessionService_setAutoLockMinutes minutes w in
  let after := snd result in
  let before := StoredData.settings (stored w) in
  let settings :=
    ExtensionSettings.mk minutes (ExtensionSettings.historyEnabled before)
                         (ExtensionSettings.maxHistoryEntries before) in
  fst result = Normal tt /\
  fst (SessionService_getAutoLockMinutes after) = Normal minutes /\
  StoredData.settings (stored after) = settings /\
  ChromeStorage.settings (local after) = Some (ExtensionSettings.total settings) /\
  writes after = writes w ++ [ChromeStorage.SetSettings settings] /\
  alarm after = (if 0 <? minutes then Some minutes else None) /\
  same_memory w after.
Proof.
  cbv zeta.
  set (settings := ExtensionSettings.mk minutes _ _).
  destruct (write_through (ChromeStorage.SetSettings settings)
              (StoredData.with_settings settings) (cached w) (stored w) eq_refl)
    as (R & St & W & Lo & (M1 & M2 & M3) & _).
  set (w1 := snd ((chrome_storage_local_set (ChromeStorage.SetSettings settings);;
                   patch_cache (StoredData.with_settings settings)) (cached w))) in *.
  assert (E : SessionService_setAutoLockMinutes minutes w
              = (Normal tt,
                 set_alarm (if 0 <? minutes then Some minutes else None) (cached w1))).
  { unfold SessionService_setAutoLockMinutes. unfold mbind at 1, Js_bind at 1.
    rewrite updateSettings_spec.
    change (ExtensionSettings.spread (StoredData.settings (stored w))
              (ExtensionSettings.mkPartial (Some minutes) None None))
      with settings.
    rewrite (surjective_pairing
               ((chrome_storage_local_set (ChromeStorage.SetSettings settings);;
                 patch_cache (StoredData.with_settings settings)) (cached w))).
    fold w1. rewrite R, resetAutoLockTimer_spec, St. reflexivity. }
  rewrite E. cbn [fst snd].
  unfold SessionService_getAutoLockMinutes.
  rewrite (bind_normal _ _ _ _ _ (getSettings_spec _)).
  change (stored (set_alarm _ (cached w1))) with (stored w1).
  rewrite St. cbn.
  repeat split; assumption || (now rewrite Lo) || idtac.
Qed.

(** X5.  With the timeout at zero the vault is never locked by the alarm:
    an alarm under the auto-lock name that still fires changes nothing of
    the vault, sends nothing and is not created again, and neither the timer
    reset nor an activity on an unlocked vault leaves an alarm behind. *)
Theorem never_auto_locks (w : World) :
  ExtensionSettings.autoLockMinutes (StoredData.settings (stored w)) = 0 ->
  let fired := snd (onAlarm AUTO_LOCK_ALARM_NAME w) in
  fst (onAlarm AUTO_LOCK_ALARM_NAME w) = Normal tt /\
  same_memory w fired /\
  isUnlocked fired = isUnlocked w /\
  outbox fired = outbox w /\
  alarm fired = None /\
  alarm (snd (SessionService_resetAutoLockTimer w)) = None /\
  alarm (snd (SessionService_recordActivity w))
  = (if isUnlocked w then None else alarm w).
Proof.
  cbv zeta. intros Hz.
  unfold onAlarm. rewrite bool_decide_eq_true_2 by reflexivity.
  unfold chrome_alarms_clear, update, unawaited, mbind, Js_bind. cbn [fst snd].
  unfold SessionService_handleAutoLock.
  rewrite (bind_normal _ _ _ _ _ (getSettings_spec _)).
  change (stored (set_alarm None w)) with (stored w). rewrite Hz.
  cbn [Z.eqb]. unfold mret, Js_ret. cbn [fst snd].
  split; [reflexivity|]. split; [repeat split|]. split; [reflexivity|].
  split; [reflexivity|]. split; [reflexivity|].
  rewrite resetAutoLockTimer_spec, Hz. cbn [snd]. split; [reflexivity|].
  unfold SessionService_recordActivity, Date_now, update, VaultService_isUnlocked,
    read, mbind, Js_bind. cbn [fst snd].
  change (isUnlocked (set_lastActivity _ _)) with (isUnlocked w).
  destruct (isUnlocked w); [|reflexivity].
  rewrite resetAutoLockTimer_spec.
  change (stored (set_lastActivity _ _)) with (stored w). now rewrite Hz.
Qed.

(** X6.  [SessionService.unlock] answers as [VaultService.unlock] does.
    When that is [true], the alarm is replaced by one with the configured
    delay, or dropped when the timeout is not positive, and nothing else of
    the vault changes; when it is not, the session does nothing more than
    the vault service did.  [SessionService.lock] leaves the vault locked and
    no alarm pending. *)
Theorem session_lock_and_unlock (password : string) (w : World) :
  let inner := VaultService_unlock password w in
  let result := SessionService_unlock password w in
  let minutes := ExtensionSettings.autoLockMinutes (StoredData.settings (stored w)) in
  fst result = fst inner /\
  match fst inner with
  | Normal true =>
      alarm (snd result) = (if 0 <? minutes then Some minutes else None) /\
      same_memory (snd inner) (snd result) /\
      writes (snd result) = writes (snd inner)
  | _ => snd result = snd inner
  end /\
  fst (SessionService_lock w) = Normal tt /\
  isUnlocked (snd (SessionService_lock w)) = false /\
  alarm (snd (SessionService_lock w)) = None.
Proof.
  cbv zeta. split; [|split].
  - unfold SessionService_unlock, mbind, Js_bind.
    destruct (VaultService_unlock password w) as [[[|]|e] w1]; cbn [fst snd];
      unfold mret, Js_ret; try reflexivity.
    now rewrite resetAutoLockTimer_spec.
  - assert (St : fst (VaultService_unlock password w) = Normal true ->
                 stored (snd (VaultService_unlock password w)) = stored w).
    { destruct (StoredData.vault (stored w)) as [v|] eqn:Hv.
      - intros _. now destruct (unlock_spec password w v Hv) as (_ & St & _).
      - unfold VaultService_unlock.
        rewrite (bind_normal _ _ _ _ _ (getVault_spec w)), Hv. discriminate. }
    unfold SessionService_unlock, mbind, Js_bind.
    destruct (VaultService_unlock password w) as [[[|]|e] w1]; cbn [fst snd] in *;
      unfold mret, Js_ret; try reflexivity.
    rewrite resetAutoLockTimer_spec. cbn [fst snd]. rewrite (St eq_refl).
    repeat split.
  - unfold SessionService_lock, chrome_alarms_clear, update, mbind, Js_bind.
    rewrite lock_spec. cbn [fst snd].
    unfold isUnlocked. destruct (encryptionKey w); cbn; repeat split.
Qed.

(** X7.  An activity on an unlocked vault with a positive timeout records
    the time of the call and replaces the alarm by one with the full delay.
    If the alarm then fires at a time that is less than the timeout after
    that activity, the vault stays unlocked and holds the same keys. *)
Theorem activity_postpones_auto_lock (w : World) (later : nat) :
  let minutes := ExtensionSettings.autoLockMinutes (StoredData.settings (stored w)) in
  let active := snd (SessionService_recordActivity w) in
  let fired := snd (onAlarm AUTO_LOCK_ALARM_NAME (set_ticks later active)) in
  isUnlocked w = true ->
  0 < minutes ->
  clock later - clock (ticks w) < minutes * 60 * 1000 ->
  lastActivity active = clock (ticks w) /\
  alarm active = Some minutes /\
  isUnlocked fired = true /\
  decryptedKeys fired = decryptedKeys w /\
  encryptionKey fired = encryptionKey w /\
  heap fired = heap w /\
  is_Some (alarm fired).
Proof.
  cbv zeta. intros Hun Hpos Hlt.
  assert (E : snd (SessionService_recordActivity w)
              = set_alarm
                  (Some (ExtensionSettings.autoLockMinutes (StoredData.settings (stored w))))
                  (cached (set_lastActivity (clock (ticks w))
                             (set_ticks (S (ticks w)) w)))).
  { unfold SessionService_recordActivity, Date_now, update, VaultService_isUnlocked,
      read, mbind, Js_bind. cbn [fst snd].
    change (isUnlocked (set_lastActivity _ _)) with (isUnlocked w). rewrite Hun.
    rewrite resetAutoLockTimer_spec.
    change (stored (set_lastActivity _ _)) with (stored w).
    now rewrite (proj2 (Z.ltb_lt _ _) Hpos). }
  rewrite E. clear E. split; [reflexivity|]. split; [reflexivity|].
  unfold onAlarm. rewrite bool_decide_eq_true_2 by reflexivity.
  unfold chrome_alarms_clear, update, unawaited, mbind, Js_bind. cbn [fst snd].
  rewrite handleAutoLock_spec.
  2: { change (ExtensionSettings.autoLockMinutes (StoredData.settings (stored w)) <> 0).
       lia. }
  cbn [fst snd ticks lastActivity set_alarm set_ticks cached set_cache set_lastActivity].
  change (stored (set_alarm None _)) with (stored w).
  rewrite (proj2 (Z.leb_gt _ _)) by lia.
  unfold isUnlocked in *. cbn. repeat split; try assumption. now eexists.
Qed.

(** *** Messages *)

(** X8.  A request that arrives while the vault is locked is answered with
    [LOCKED], whatever it asks for and wherever it comes from, and nothing
    happens besides the reading of the clock: no activity is recorded, no
    alarm is set, nothing is fetched, stored or sent. *)
Theorem request_while_locked
    (requestId : string) (payload : option Payload.t) (origin : option string)
    (w : World) :
  isUnlocked w = false ->
  handleRequest requestId payload origin w
  = (Normal (failure requestId LOCKED
               "Extension is locked. Please unlock to continue."),
     set_ticks (S (ticks w)) w).
Proof.
  intros Hl.
  unfold handleRequest, Date_now, VaultService_isUnlocked, read, mbind, Js_bind.
  change (isUnlocked (set_ticks (S (ticks w)) w)) with (isUnlocked w).
  now rewrite Hl.
Qed.

(** The origin and the request id a message is handled under. *)
Lemma handleMessage_spec (message : MessagePayload.t)
    (sender_tab_url : option string) (w : World) :
  let type := MessagePayload.type message in
  let named := truthy (MessagePayload.requestId message) in
  let requestId :=
    if named then default ""%string (MessagePayload.requestId message)
    else uuid (ticks w) in
  let w1 := if named then w else set_ticks (S (ticks w)) w in
  let origin :=
    if truthy sender_tab_url
    then URL_origin (default ""%string sender_tab_url)
    else MessagePayload.origin message in
  handleMessage message sender_tab_url w
  = if truthy sender_tab_url && negb (bool_decide (is_Some origin))
    then (Thrown "TypeError: Invalid URL", w)
    else if bool_decide (type = MESSAGE_TYPE_PING)
    then (Normal (handlePing requestId), w1)
    else if bool_decide (type = MESSAGE_TYPE_GET_STATUS)
    then handleGetStatus requestId w1
    else if bool_decide (type = MESSAGE_TYPE_GET_PROVIDERS)
    then handleGetProviders requestId w1
    else if bool_decide (type = MESSAGE_TYPE_REQUEST)
    then handleRequest requestId (MessagePayload.payload message) origin w1
    else (Normal (failure requestId INVALID_REQUEST
                    ("Unknown message type: " +:+ type)), w1).
Proof.
  cbv zeta. unfold handleMessage, mbind, Js_bind.
  destruct (truthy sender_tab_url); cbn [andb].
  - destruct (URL_origin _) as [o|]; unfold throw, mret, Js_ret;
      [rewrite (bool_decide_eq_true_2 (is_Some (Some o))) by (now eexists)
      |rewrite (bool_decide_eq_false_2 (is_Some None)) by (intros [? ?]; discriminate)];
      cbn [negb]; [|reflexivity].
    destruct (truthy (MessagePayload.requestId message)); unfold uuidv4;
      repeat case_bool_decide; reflexivity.
  - unfold mret, Js_ret.
    destruct (truthy (MessagePayload.requestId message)); unfold uuidv4;
      repeat case_bool_decide; reflexivity.
Qed.

(** X9.  When the sender of a message has a tab with a URL, the origin the
    message is handled under is the origin of that URL: the [origin] field of
    the message has no effect on the answer or on what the handler does. *)
Theorem origin_from_sender
    (message : MessagePayload.t) (claimed : option string) (url : string)
    (w : World) :
  url <> ""%string ->
  handleMessage
    (MessagePayload.mk (MessagePayload.type message)
       (MessagePayload.requestId message) claimed
       (MessagePayload.payload message))
    (Some url) w
  = handleMessage message (Some url) w.
Proof.
  intros Hurl. rewrite !handleMessage_spec.
  cbn [MessagePayload.type MessagePayload.requestId MessagePayload.origin
       MessagePayload.payload truthy].
  now rewrite (bool_decide_eq_false_2 _ Hurl).
Qed.

Lemma handleGetProviders_spec (requestId : string) (w : World) :
  handleGetProviders requestId w
  = (Normal
       (if isUnlocked w then
          MessageResponse.mk MESSAGE_TYPE_RESPONSE requestId true None
            (Some (Providers
                     (map (fun p =>
                             mkProviderInfo (ProviderConfig.id p)
                               (ProviderConfig.name p)
                               (has_key (ProviderConfig.id p) w))
                          PROVIDERS)))
        else failure requestId LOCKED "Extension is locked"),
     w).
Proof.
  unfold handleGetProviders, VaultService_isUnlocked, VaultService_getKeys,
    require_unlocked, read, mbind, Js_bind, mret, Js_ret, has_key.
  unfold isUnlocked.
  destruct (decryptedKeys w) eqn:Hk, (encryptionKey w) eqn:He;
    cbn; rewrite ?Hk, ?He; reflexivity.
Qed.

(** X10.  Only a request counts as activity.  A message of any other type
    (a ping, a status or provider query, an unknown type) moves nothing but
    the cursor of the oracles: the time of the last activity, the alarm, the
    vault, the storage area, its cache and the messages sent are as
    before. *)
Theorem only_requests_count_as_activity
    (message : MessagePayload.t) (sender_tab_url : option string) (w : World) :
  MessagePayload.type message <> MESSAGE_TYPE_REQUEST ->
  exists cursor,
    snd (handleMessage message sender_tab_url w) = set_ticks cursor w.
Proof.
  intros Hty. rewrite handleMessage_spec. cbv zeta.
  rewrite (bool_decide_eq_false_2 _ Hty).
  assert (Same : set_ticks (ticks w) w = w) by now destruct w.
  destruct (_ && _); [exists (ticks w); now rewrite Same|].
  set (w1 := if truthy _ then w else _).
  assert (E1 : exists t, w1 = set_ticks t w).
  { subst w1. destruct (truthy _); [exists (ticks w); now rewrite Same|now eexists]. }
  destruct E1 as [t E1]. clearbody w1. subst w1. exists t.
  case_bool_decide; [reflexivity|].
  case_bool_decide; [reflexivity|].
  case_bool_decide; [|reflexivity].
  now rewrite handleGetProviders_spec.
Qed.

(** What [addKey] leaves in memory on an unlocked vault: the list with the
    new entry at its end, under the same key. *)
Lemma addKey_memory (provider name apiKey : string)
    (endpointUrl : option string) (w : World) keys a :
  decryptedKeys w = Some keys ->
  encryptionKey w = Some a ->
  let result := VaultService_addKey provider name apiKey endpointUrl w in
  let entry := new_entry provider name apiKey endpointUrl w in
  decryptedKeys (snd result) = Some (keys ++ [entry]) /\
  encryptionKey (snd result) = Some a /\
  heap (snd result) = heap w /\
  match StoredData.vault (stored w) with
  | Some _ => fst result = Normal entry
  | None =>
      fst result = Thrown "Vault does not exist" /\
      writes (snd result) = writes w /\
      local (snd result) = local w
  end.
Proof.
  cbv zeta. intros Hk He.
  remember (VaultService_addKey provider name apiKey endpointUrl w) as result eqn:E.
  unfold VaultService_addKey in E.
  unfold mbind at 1, Js_bind at 1, require_unlocked in E. rewrite Hk, He in E.
  unfold uuidv4, Date_now, update in E.
  unfold mbind at 1 2 3 4, Js_bind at 1 2 3 4 in E.
  cbn [fst snd ticks set_ticks] in E.
  fold (new_entry provider name apiKey endpointUrl w) in E.
  set (entry := new_entry provider name apiKey endpointUrl w) in *.
  set (w1 := set_decryptedKeys _ _) in E.
  assert (Hk1 : decryptedKeys w1 = Some (keys ++ [entry]))
    by (subst w1; cbn; now rewrite Hk).
  assert (He1 : encryptionKey w1 = Some a) by exact He.
  destruct (saveVault_spec w1 (keys ++ [entry]) a Hk1 He1) as ((M1 & M2 & M3) & Hs).
  change (stored w1) with (stored w) in Hs.
  unfold mbind at 1, Js_bind at 1 in E.
  destruct (VaultService_saveVault w1) as [c w2]. cbn [fst snd] in *.
  change (heap w1) with (heap w) in M3.
  destruct (StoredData.vault (stored w)) as [v|].
  - destruct Hs as (-> & _).
    assert (F : forall (m : Js unit),
               fst (m w2) = Normal tt ->
               same_memory w2 (snd (m w2)) ->
               result = (m;; mret entry) w2 ->
               decryptedKeys (snd result) = Some (keys ++ [entry]) /\
               encryptionKey (snd result) = Some a /\
               heap (snd result) = heap w /\ fst result = Normal entry).
    { intros m Rm (Mm1 & Mm2 & Mm3) ->. unfold mbind, Js_bind.
      destruct (m w2) as [cm wm]. cbn [fst snd] in *. subst cm.
      unfold mret, Js_ret. cbn [fst snd].
      rewrite Mm1, Mm2, Mm3, M1, M2, M3. repeat split; assumption. }
    destruct endpointUrl as [url|].
    + destruct (truthy (Some url) && bool_decide (provider = "lm_studio"%string)).
      * destruct (saveCustomEndpoint_frame (ApiKeyEntry.id entry) url w2)
          as (R & _ & _ & _ & M).
        exact (F _ R M E).
      * apply (F (mret tt)); [reflexivity|now repeat split|exact E].
    + apply (F (mret tt)); [reflexivity|now repeat split|exact E].
  - destruct Hs as (-> & W & _ & Lo). subst result. cbn [fst snd].
    rewrite M1, M2, M3. repeat split; assumption.
Qed.

(** X11.  [GET_PROVIDERS] on a locked vault is answered with [LOCKED].  On
    an unlocked vault the answer lists the providers of the table, in the
    order of the table, each with its name and with [hasKey] set exactly when
    the vault holds a key under that provider: once [addKey] has run for a
    provider, the answer has [hasKey] set for it and is as before for the
    others.  The query leaves the world as it was. *)
Theorem providers_report
    (requestId provider name apiKey : string) (endpointUrl : option string)
    (w : World) :
  let report (has : string -> bool) :=
    MessageResponse.mk MESSAGE_TYPE_RESPONSE requestId true None
      (Some (Providers
               (map (fun p =>
                       mkProviderInfo (ProviderConfig.id p) (ProviderConfig.name p)
                                      (has (ProviderConfig.id p)))
                    PROVIDERS))) in
  let added := snd (VaultService_addKey provider name apiKey endpointUrl w) in
  handleGetProviders requestId w
  = (Normal (if isUnlocked w then report (fun id => has_key id w)
             else failure requestId LOCKED "Extension is locked"),
     w) /\
  handleGetProviders requestId added
  = (Normal (if isUnlocked w
             then report (fun id => has_key id w || bool_decide (provider = id))
             else failure requestId LOCKED "Extension is locked"),
     added).
Proof.
  cbv zeta. rewrite !handleGetProviders_spec. split; [reflexivity|].
  destruct (isUnlocked w) eqn:Hun.
  - destruct (isUnlocked_true w Hun) as (keys & a & Hk & He).
    destruct (addKey_memory provider name apiKey endpointUrl w keys a Hk He)
      as (Hk' & He' & _).
    unfold isUnlocked. rewrite Hk', He'. cbn [bool_decide andb].
    rewrite !bool_decide_eq_true_2 by (now eexists). cbn [andb].
    assert (Has : forall id,
               has_key id (snd (VaultService_addKey provider name apiKey endpointUrl w))
               = has_key id w || bool_decide (provider = id)).
    { intros id. unfold has_key. rewrite Hk', Hk.
      change (default [] (Some ?l)) with l.
      rewrite existsb_app. cbn. now rewrite orb_false_r. }
    do 5 f_equal. apply map_ext. intros p. now rewrite Has.
  - assert (E : isUnlocked
                  (snd (VaultService_addKey provider name apiKey endpointUrl w))
                = false).
    { unfold VaultService_addKey, require_unlocked, mbind, Js_bind.
      unfold isUnlocked in *.
      destruct (decryptedKeys w) eqn:Hk, (encryptionKey w) eqn:He; cbn in *;
        try discriminate; unfold isUnlocked; now rewrite ?Hk, ?He. }
    now rewrite E.
Qed.

(** Case analysis on an innermost scrutinee of the goal. *)
Ltac break_match :=
  match goal with
  | |- context [match ?x with _ => _ end] =>
      lazymatch x with
      | context [match _ with _ => _ end] => fail
      | _ => destruct x
      end
  end.

Lemma handleRequest_requestId
    (requestId : string) (payload : option Payload.t) (origin : option string)
    (w : World) :
  match fst (handleRequest requestId payload origin w) with
  | Normal response => MessageResponse.requestId response = requestId
  | Thrown _ => True
  end.
Proof.
  unfold handleRequest, try_catch, unawaited, throw, mbind, Js_bind, mret, Js_ret.
  repeat (cbn [fst snd failure MessageResponse.requestId];
          first [reflexivity | exact I | break_match]).
Qed.

(** X12.  Every answer of [handleMessage] carries the request id of the
    message it answers, whatever the type of the message and the outcome; a
    message without an id (absent or empty) is answered under an id drawn
    for it. *)
Theorem response_carries_request_id
    (message : MessagePayload.t) (sender_tab_url : option string) (w : World) :
  match fst (handleMessage message sender_tab_url w) with
  | Normal response =>
      MessageResponse.requestId response
      = (if truthy (MessagePayload.requestId message)
         then default ""%string (MessagePayload.requestId message)
         else uuid (ticks w))
  | Thrown _ => True
  end.
Proof.
  rewrite handleMessage_spec. cbv zeta.
  destruct (_ && _); [exact I|].
  case_bool_decide; [reflexivity|].
  case_bool_decide; [reflexivity|].
  case_bool_decide; [now rewrite handleGetProviders_spec; destruct (isUnlocked _)|].
  case_bool_decide; [apply handleRequest_requestId|reflexivity].
Qed.

(** *** Requests that reach the provider *)

Lemma set_ticks_set_ticks (x y : nat) (w : World) :
  set_ticks x (set_ticks y w) = set_ticks x w.
Proof. reflexivity. Qed.

Lemma recordActivity_clock (w : World) :
  let after := snd (SessionService_recordActivity w) in
  ticks after = S (ticks w) /\ lastActivity after = clock (ticks w).
Proof.
  cbv zeta.
  unfold SessionService_recordActivity, Date_now, update, VaultService_isUnlocked,
    read, mbind, Js_bind. cbn [fst snd].
  destruct (isUnlocked _); [|now split].
  rewrite resetAutoLockTimer_spec. now split.
Qed.

(** What a call of the proxy touches: the cursor of the oracles, once, and,
    when it streams, the messages sent. *)
Lemma proxy_frame (stream : bool) (url method : string)
    (headers : gmap string string) (body : option string) (requestId : string)
    (w : World) :
  let outcome :=
    (if stream then makeStreamingRequest url method headers body requestId
     else makeApiRequest url method headers body) w in
  exists sent,
    snd outcome = set_outbox (outbox w ++ sent) (set_ticks (S (ticks w)) w).
Proof.
  cbv zeta.
  assert (Same : set_outbox (outbox w ++ []) (set_ticks (S (ticks w)) w)
                 = set_ticks (S (ticks w)) w)
    by (rewrite app_nil_r; now destruct w).
  destruct stream.
  - unfold makeStreamingRequest, do_fetch, mbind, Js_bind. cbn [fst snd].
    destruct (fetch _ _ _ _ _) as [response|e]; [|exists []; now rewrite Same].
    destruct (negb _); [exists []; unfold mret, Js_ret; now rewrite Same|].
    destruct (Response.body response) as [s|];
      [|exists []; unfold throw; now rewrite Same].
    unfold try_catch. rewrite read_loop_spec.
    destruct (stream_end s); cbn [fst snd].
    + unfold mret, Js_ret. now eexists.
    + rewrite broadcastStreamChunk_spec. unfold throw. cbn [fst snd outbox set_outbox].
      eexists. unfold broadcast. cbn [tabs set_outbox set_ticks].
      rewrite <- app_assoc. reflexivity.
  - unfold makeApiRequest, do_fetch, mbind, Js_bind. cbn [fst snd].
    destruct (fetch _ _ _ _ _) as [response|e]; [|exists []; now rewrite Same].
    exists []. rewrite Same.
    destruct (Response.headers response !! _) as [ct|]; [|reflexivity].
    destruct (includes _ _); [|reflexivity].
    now destruct (Response.json response).
Qed.

(** A request that passes the checks up to the choice of the URL. *)
Lemma handleRequest_call
    (requestId : string) (payload : Payload.t) (origin domain provider : string)
    (keyEntry : ApiKeyEntry.t) (config : ProviderConfig.t) (w : World) :
  isUnlocked w = true ->
  URL_hostname origin = Some domain ->
  listed domain w = true ->
  Payload.provider payload = Some provider ->
  provider <> ""%string ->
  List.find (fun k => bool_decide (ApiKeyEntry.provider k = provider))
            (default [] (decryptedKeys w)) = Some keyEntry ->
  getProviderById provider = Some config ->
  let baseUrl :=
    if ProviderConfig.requiresEndpointUrl config then
      if truthy (Payload.endpointUrl payload)
      then default ""%string (Payload.endpointUrl payload)
      else if truthy (ApiKeyEntry.endpointUrl keyEntry)
      then default ""%string (ApiKeyEntry.endpointUrl keyEntry)
      else ""%string
    else ProviderConfig.baseUrl config in
  let result := handleRequest requestId (Some payload) (Some origin) w in
  if ProviderConfig.requiresEndpointUrl config && bool_decide (baseUrl = ""%string)
  then
    result
    = (Normal (failure requestId INVALID_REQUEST
                 "Custom endpoint URL is required for this provider"),
       cached (active w))
  else
    proxied requestId payload domain provider
      (baseUrl +:+ default "undefined"%string (Payload.endpoint payload))
      (authenticated config keyEntry provider (default ∅ (Payload.headers payload)))
      w result.
Proof.
  cbv zeta. intros Hun Hhost Hlist Hprov Hne Hfind Hconfig.
  destruct (isUnlocked_true w Hun) as (keys & key & Hk & He).
  rewrite Hk in Hfind. change (default [] (Some keys)) with keys in Hfind.
  destruct (recordActivity_frame (set_ticks (S (ticks w)) w))
    as (Hs & Hd & Hek & _).
  destruct (recordActivity_clock (set_ticks (S (ticks w)) w)) as (Ht & Hla).
  fold (active w) in Hs, Hd, Hek, Ht, Hla.
  change (stored (set_ticks (S (ticks w)) w)) with (stored w) in Hs.
  cbn [ticks set_ticks] in Ht, Hla.
  change (decryptedKeys (set_ticks (S (ticks w)) w)) with (decryptedKeys w) in Hd.
  change (encryptionKey (set_ticks (S (ticks w)) w)) with (encryptionKey w) in Hek.
  rewrite Hk in Hd. rewrite He in Hek.
  set (baseUrl := if ProviderConfig.requiresEndpointUrl config then _ else _).
  remember (handleRequest requestId (Some payload) (Some origin) w) as result eqn:E.
  unfold handleRequest, Date_now, VaultService_isUnlocked, read in E.
  unfold mbind at 1 2, Js_bind at 1 2 in E.
  change (isUnlocked (set_ticks (S (ticks w)) w)) with (isUnlocked w) in E.
  rewrite Hun in E. cbn [negb fst snd] in E. unfold unawaited in E.
  unfold mbind at 1, Js_bind at 1 in E. cbn [option_bind mbind fst snd] in E.
  rewrite Hhost in E. fold (active w) in E.
  rewrite (bind_normal _ _ _ _ _ (isDomainWhitelisted_spec domain (active w))) in E.
  assert (L : listed domain (active w) = true)
    by (unfold listed; now rewrite Hs).
  rewrite L, Hprov in E. cbn [negb truthy default from_option id] in E.
  rewrite (bool_decide_eq_false_2 _ Hne) in E. cbn [negb] in E.
  rewrite (bind_normal _ _ _ _ _
             (getKeyForProvider_spec provider (cached (active w)) keys key Hd Hek))
    in E.
  rewrite Hfind, Hconfig in E. fold baseUrl in E.
  destruct (ProviderConfig.requiresEndpointUrl config && bool_decide (baseUrl = ""%string));
    [exact E|].
  unfold proxied.
  set (url := baseUrl +:+ _) in *.
  fold (authenticated config keyEntry provider (default ∅ (Payload.headers payload))) in E.
  set (headers := authenticated _ _ _ _) in *.
  set (method := default "POST"%string _) in *.
  set (call := if default false (Payload.stream payload) then _ else _).
  fold call in E.
  destruct (proxy_frame (default false (Payload.stream payload)) url method headers
              (Payload.body payload) requestId (cached (active w)))
    as (sent & Hout).
  cbv zeta in Hout. fold call in Hout.
  unfold try_catch in E. unfold mbind at 1, Js_bind at 1 in E.
  destruct (call (cached (active w))) as [c w3]. cbn [fst snd] in *.
  assert (St3 : stored w3 = stored w) by (rewrite Hout; exact Hs).
  assert (T3 : ticks w3 = (ticks w + 3)%nat) by (rewrite Hout; cbn; lia).
  assert (La3 : lastActivity w3 = clock (S (ticks w))) by (rewrite Hout; exact Hla).
  assert (Log : forall status (response : MessageResponse.t),
             let entry :=
               RequestHistoryEntry.mk
                 (uuid (S (ticks w3))) (clock (S (S (ticks w3)))) provider
                 (if truthy (Payload.endpoint payload)
                  then default ""%string (Payload.endpoint payload) else ""%string)
                 domain status (clock (ticks w3) - clock (ticks w)) in
             let r :=
               (StorageService_addRequestHistory entry;; mret response)
                 (set_ticks (S (S (S (ticks w3)))) w3) in
             fst r = Normal response /\
             StoredData.requestHistory (stored (snd r))
             = (if ExtensionSettings.historyEnabled (StoredData.settings (stored w))
                then trimmed (ExtensionSettings.maxHistoryEntries
                                (StoredData.settings (stored w)))
                             (StoredData.requestHistory (stored w)) entry
                else StoredData.requestHistory (stored w)) /\
             lastActivity (snd r) = clock (S (ticks w))).
  { intros status response. cbv zeta.
    set (entry := RequestHistoryEntry.mk _ _ _ _ _ _ _).
    set (w4 := set_ticks _ w3).
    assert (St4 : stored w4 = stored w) by exact St3.
    unfold StorageService_addRequestHistory, mbind, Js_bind.
    rewrite getAll_spec, St4.
    destruct (ExtensionSettings.historyEnabled _); cbn [negb].
    - unfold chrome_storage_local_set, patch_cache, update, mret, Js_ret.
      cbn. repeat split. exact La3.
    - unfold mret, Js_ret. cbn. rewrite St4. repeat split. exact La3. }
  assert (Endpoint : (if truthy (Payload.endpoint payload)
                      then default ""%string (Payload.endpoint payload)
                      else ""%string)
                     = default ""%string (Payload.endpoint payload)).
  { destruct (Payload.endpoint payload) as [e|]; [|reflexivity]. cbn.
    case_bool_decide; [now subst|reflexivity]. }
  replace (ticks w + 4)%nat with (S (ticks w3)) by lia.
  replace (ticks w + 5)%nat with (S (S (ticks w3))) by lia.
  replace (ticks w + 3)%nat with (ticks w3) by lia.
  rewrite <- Endpoint.
  unfold uuidv4 in E.
  destruct c as [proxied|error];
    unfold mbind at 1 2 3, Js_bind at 1 2 3 in E;
    cbn [fst snd ticks set_ticks] in E;
    rewrite !set_ticks_set_ticks in E;
    match type of E with
    | context [(StorageService_addRequestHistory ?e;; mret ?r) _] =>
        pose proof (Log (RequestHistoryEntry.status e) r) as H
    end;
    cbv zeta in H; cbn [RequestHistoryEntry.status] in H.
  - match type of H with
    | fst ?r = _ /\ _ => destruct r as [c' w']
    end.
    cbn [fst snd] in H. destruct H as (-> & Hh & Hl). subst result.
    cbn [fst snd]. repeat split; assumption.
  - subst result. exact H.
Qed.

(** X13.  A request that passes every check (vault unlocked, domain on the
    allow-list, a provider of the table that needs no endpoint URL, a key
    for it in the vault) is proxied: the call goes to the base URL of the
    provider followed by the endpoint, with the stored key written into the
    authentication header of the provider over whatever the caller put
    there.  The answer is the result of the call, or [NETWORK_ERROR] with
    the message of the error when the call throws.  Either way the time of
    the activity is recorded and, when the history is enabled, one entry is
    logged with the provider, the endpoint, the domain, the duration and the
    status of the response, or the status 0 when the call threw. *)
Theorem request_proxied
    (requestId : string) (payload : Payload.t) (origin domain provider : string)
    (keyEntry : ApiKeyEntry.t) (config : ProviderConfig.t) (w : World) :
  isUnlocked w = true ->
  URL_hostname origin = Some domain ->
  listed domain w = true ->
  Payload.provider payload = Some provider ->
  provider <> ""%string ->
  List.find (fun k => bool_decide (ApiKeyEntry.provider k = provider))
            (default [] (decryptedKeys w)) = Some keyEntry ->
  getProviderById provider = Some config ->
  ProviderConfig.requiresEndpointUrl config = false ->
  proxied requestId payload domain provider
    (ProviderConfig.baseUrl config
     +:+ default "undefined"%string (Payload.endpoint payload))
    (authenticated config keyEntry provider (default ∅ (Payload.headers payload)))
    w (handleRequest requestId (Some payload) (Some origin) w).
Proof.
  intros Hun Hhost Hlist Hprov Hne Hfind Hconfig Hreq.
  pose proof (handleRequest_call requestId payload origin domain provider keyEntry
                config w Hun Hhost Hlist Hprov Hne Hfind Hconfig) as H.
  cbv zeta in H. now rewrite Hreq in H.
Qed.

(** X14.  For a provider that needs an endpoint URL, the URL given with the
    request is used when there is one, the URL stored with the key
    otherwise, and the request is proxied to that URL followed by the
    endpoint, with the stored key in the authentication header.  When
    neither is there the answer is [INVALID_REQUEST]: nothing is fetched and
    nothing is logged. *)
Theorem custom_endpoint
    (requestId : string) (payload : Payload.t) (origin domain provider : string)
    (keyEntry : ApiKeyEntry.t) (config : ProviderConfig.t) (w : World) :
  isUnlocked w = true ->
  URL_hostname origin = Some domain ->
  listed domain w = true ->
  Payload.provider payload = Some provider ->
  provider <> ""%string ->
  List.find (fun k => bool_decide (ApiKeyEntry.provider k = provider))
            (default [] (decryptedKeys w)) = Some keyEntry ->
  getProviderById provider = Some config ->
  ProviderConfig.requiresEndpointUrl config = true ->
  let result := handleRequest requestId (Some payload) (Some origin) w in
  let given := default ""%string (Payload.endpointUrl payload) in
  let kept := default ""%string (ApiKeyEntry.endpointUrl keyEntry) in
  let chosen := if bool_decide (given = ""%string) then kept else given in
  if bool_decide (chosen = ""%string)
  then
    result
    = (Normal (failure requestId INVALID_REQUEST
                 "Custom endpoint URL is required for this provider"),
       cached (active w)) /\
    writes (snd result) = writes w /\
    StoredData.requestHistory (stored (snd result))
    = StoredData.requestHistory (stored w)
  else
    proxied requestId payload domain provider
      (chosen +:+ default "undefined"%string (Payload.endpoint payload))
      (authenticated config keyEntry provider (default ∅ (Payload.headers payload)))
      w result.
Proof.
  cbv zeta. intros Hun Hhost Hlist Hprov Hne Hfind Hconfig Hreq.
  pose proof (handleRequest_call requestId payload origin domain provider keyEntry
                config w Hun Hhost Hlist Hprov Hne Hfind Hconfig) as H.
  cbv zeta in H. rewrite Hreq in H. cbn [andb] in H.
  assert (E : (if truthy (Payload.endpointUrl payload)
               then default ""%string (Payload.endpointUrl payload)
               else if truthy (ApiKeyEntry.endpointUrl keyEntry)
               then default ""%string (ApiKeyEntry.endpointUrl keyEntry)
               else ""%string)
              = (if bool_decide (default ""%string (Payload.endpointUrl payload) = ""%string)
                 then default ""%string (ApiKeyEntry.endpointUrl keyEntry)
                 else default ""%string (Payload.endpointUrl payload))).
  { destruct (Payload.endpointUrl payload) as [u|],
             (ApiKeyEntry.endpointUrl keyEntry) as [k|]; cbn;
      repeat case_bool_decide; subst; try reflexivity; congruence. }
  rewrite E in H. clear E.
  destruct (bool_decide _); [|exact H].
  split; [exact H|]. rewrite H. cbn [snd].
  destruct (recordActivity_frame (set_ticks (S (ticks w)) w))
    as (Hs & _ & _ & _ & _ & _ & Hw).
  fold (active w) in Hs, Hw. split; [exact Hw|].
  rewrite stored_cached. now rewrite Hs.
Qed.

(** *** What is stored is what unlocks *)

(** What is assumed of [JSON]: parsing gives back the value that was
    serialized, and the serialization is well-formed UTF-16 that does not
    start with U+FEFF. *)
Hypothesis JSON_parse_stringify : forall v, JSON_parse (JSON_stringify v) = Some v.
Hypothesis JSON_stringify_text :
  forall v,
    Utf8.well_formed (JSON_stringify v) /\ hd_error (JSON_stringify v) <> Some 0xFEFF.

















(** *** Keys in memory *)

Lemma require_unlocked_locked (w : World) :
  isUnlocked w = false -> require_unlocked w = (Thrown "Vault is locked", w).
Proof.
  unfold isUnlocked, require_unlocked.
  destruct (decryptedKeys w), (encryptionKey w); cbn; try discriminate; reflexivity.
Qed.

(** X18.  On a locked vault every operation on the keys throws
    ["Vault is locked"] and changes nothing: reading the keys, looking one up,
    adding, updating and deleting. *)
Theorem locked_vault_refuses (w : World) :
  isUnlocked w = false ->
  VaultService_getKeys w = (Thrown "Vault is locked", w) /\
  (forall provider,
      VaultService_getKeyForProvider provider w = (Thrown "Vault is locked", w)) /\
  (forall provider name apiKey endpointUrl,
      VaultService_addKey provider name apiKey endpointUrl w
      = (Thrown "Vault is locked", w)) /\
  (forall id updates,
      VaultService_updateKey id updates w = (Thrown "Vault is locked", w)) /\
  (forall id, VaultService_deleteKey id w = (Thrown "Vault is locked", w)).
Proof.
  intros Hl. pose proof (require_unlocked_locked w Hl) as E.
  repeat split; intros;
    unfold VaultService_getKeys, VaultService_getKeyForProvider, VaultService_addKey,
      VaultService_updateKey, VaultService_deleteKey;
    unfold mbind at 1, Js_bind at 1; now rewrite E.
Qed.

Lemma find_snoc {A} (f : A -> bool) (l : list A) (x : A) :
  List.find f (l ++ [x])
  = match List.find f l with
    | Some y => Some y
    | None => if f x then Some x else None
    end.
Proof.
  induction l as [|y l IH]; cbn; [reflexivity|].
  destruct (f y); [reflexivity|exact IH].
Qed.

(** X19.  Requests use the oldest key of a provider.  On an unlocked vault
    [addKey] puts the new entry at the end of the list, so that a provider
    that had a key keeps being served by it, a provider that had none is
    served by the new entry, and the lookup for every other provider is as
    before. *)
Theorem addKey_keeps_the_key_in_use
    (provider name apiKey : string) (endpointUrl : option string) (w : World) :
  isUnlocked w = true ->
  let added := snd (VaultService_addKey provider name apiKey endpointUrl w) in
  let lookup (p : string) (x : World) := fst (VaultService_getKeyForProvider p x) in
  lookup provider added
  = Normal (Some match List.find
                         (fun k => bool_decide (ApiKeyEntry.provider k = provider))
                         (default [] (decryptedKeys w)) with
                 | Some key => key
                 | None => new_entry provider name apiKey endpointUrl w
                 end) /\
  (forall other, other <> provider -> lookup other added = lookup other w).
Proof.
  cbv zeta. intros Hun.
  destruct (isUnlocked_true w Hun) as (keys & a & Hk & He).
  destruct (addKey_memory provider name apiKey endpointUrl w keys a Hk He)
    as (Hk' & He' & _).
  rewrite Hk. change (default [] (Some keys)) with keys.
  split.
  - rewrite (getKeyForProvider_spec provider _ _ a Hk' He'). cbn [fst]. f_equal.
    rewrite find_snoc.
    destruct (List.find _ keys); [reflexivity|].
    cbn. now rewrite bool_decide_eq_true_2.
  - intros other Hne.
    rewrite (getKeyForProvider_spec other _ _ a Hk' He').
    rewrite (getKeyForProvider_spec other _ _ a Hk He). cbn [fst]. f_equal.
    rewrite find_snoc.
    destruct (List.find _ keys); [reflexivity|].
    cbn. now rewrite bool_decide_eq_false_2 by congruence.
Qed.

(** X20.  [clearAll] empties the storage area and drops the cache: no vault
    is found afterwards and the allow-list, the history, the settings and
    the endpoints read as on a fresh install.  It does not lock the vault:
    the key and the list in memory stay.  [addKey] on the vault that is
    still unlocked then throws ["Vault does not exist"] and writes nothing,
    yet the new entry stays in the list in memory. *)
Theorem reset_leaves_the_vault_in_memory
    (provider name apiKey : string) (endpointUrl : option string) (w : World) :
  let cleared := snd (StorageService_clearAll w) in
  let result := VaultService_addKey provider name apiKey endpointUrl cleared in
  fst (StorageService_clearAll w) = Normal tt /\
  stored cleared = StoredData.mk None [] [] DEFAULT_SETTINGS ∅ /\
  fst (VaultService_exists cleared) = Normal false /\
  same_memory w cleared /\
  isUnlocked cleared = isUnlocked w /\
  (if isUnlocked w then
     fst result = Thrown "Vault does not exist" /\
     writes (snd result) = writes cleared /\
     local (snd result) = ChromeStorage.empty /\
     decryptedKeys (snd result)
     = Some (default [] (decryptedKeys w)
             ++ [new_entry provider name apiKey endpointUrl cleared])
   else result = (Thrown "Vault is locked", cleared)).
Proof.
  cbv zeta.
  assert (E : StorageService_clearAll w
              = (Normal tt,
                 set_cache None
                   (set_writes (writes w ++ [ChromeStorage.Clear])
                      (set_local ChromeStorage.empty w)))) by reflexivity.
  rewrite E. cbn [fst snd]. set (cleared := set_cache None _).
  split; [reflexivity|]. split; [reflexivity|].
  split; [unfold VaultService_exists; now rewrite hasVault_spec|].
  split; [repeat split|]. split; [reflexivity|].
  change (isUnlocked w) with (isUnlocked cleared).
  destruct (isUnlocked cleared) eqn:Hun.
  - destruct (isUnlocked_true cleared Hun) as (keys & a & Hk & He).
    destruct (addKey_memory provider name apiKey endpointUrl cleared keys a Hk He)
      as (Hk' & _ & _ & H).
    change (StoredData.vault (stored cleared)) with (@None VaultData.t) in H.
    destruct H as (R & W & Lo).
    change (decryptedKeys w) with (decryptedKeys cleared). rewrite Hk.
    repeat split; assumption.
  - unfold VaultService_addKey. unfold mbind at 1, Js_bind at 1.
    now rewrite require_unlocked_locked.
Qed.

(** *** The proxy *)

Lemma run_app (input rest : list Z) :
  forall d,
    Utf8.run d (input ++ rest)
    = let '(d1, out1) := Utf8.run d input in
      let '(d2, out2) := Utf8.run d1 rest in
      (d2, out1 ++ out2).
Proof.
  induction input as [|b input IH]; intros d; cbn [app Utf8.run].
  - now destruct (Utf8.run d rest).
  - destruct (Utf8.handler d b) as [d1 out1]. rewrite IH.
    destruct (Utf8.run d1 input) as [d2 out2].
    destruct (Utf8.run d2 rest) as [d3 out3]. now rewrite app_assoc.
Qed.

Lemma serialize_app (seen : bool) (cps rest : list Z) :
  Utf8.serialize seen (cps ++ rest)
  = let '(seen1, text1) := Utf8.serialize seen cps in
    let '(seen2, text2) := Utf8.serialize seen1 rest in
    (seen2, text1 ++ text2).
Proof.
  destruct cps as [|c cps]; cbn [app Utf8.serialize].
  - now destruct (Utf8.serialize seen rest).
  - destruct rest as [|r rest]; cbn [Utf8.serialize negb andb].
    + now rewrite !app_nil_r.
    + destruct (negb seen && (c =? 65279)).
      * now rewrite map_app, concat_app.
      * rewrite (app_comm_cons cps (r :: rest) c). now rewrite map_app, concat_app.
Qed.

(** Decoding a stream chunk by chunk gives, put together, what decoding
    the bytes in one piece gives. *)
Lemma stream_texts_concat (chunks : list bytes) :
  forall decoder,
    concat (stream_texts decoder chunks)
    = snd (Utf8.decode_stream decoder (concat chunks)).
Proof.
  induction chunks as [|value rest IH]; intros decoder; cbn [stream_texts concat].
  - unfold Utf8.decode_stream. cbn. now destruct (Utf8.td_bom_seen decoder).
  - unfold Utf8.decode_stream at 2. rewrite map_app, run_app.
    destruct (Utf8.decode_stream decoder value) as [decoder' chunk] eqn:E.
    unfold Utf8.decode_stream in E.
    destruct (Utf8.run (Utf8.td_decoder decoder) (map Z_of_byte value)) as [d1 out1].
    destruct (Utf8.serialize (Utf8.td_bom_seen decoder) out1) as [seen1 text1] eqn:S1.
    injection E as <- <-.
    cbn [concat]. rewrite IH. unfold Utf8.decode_stream.
    cbn [Utf8.td_decoder Utf8.td_bom_seen].
    destruct (Utf8.run d1 (map Z_of_byte (concat rest))) as [d2 out2].
    rewrite serialize_app, S1.
    now destruct (Utf8.serialize seen1 out2).
Qed.

(** X21.  A streaming request whose response is read to its end: every
    chunk is decoded and sent to the tabs with [done = false], in the order
    of arrival, then the chunk with [done = true]; the body returned is the
    texts of the chunks put together.  That body does not depend on where
    the server cut the chunks: it is what the decoder gives for the bytes of
    the whole stream in one piece. *)
Theorem stream_read_to_its_end
    (url method : string) (headers : gmap string string) (body : option string)
    (requestId : string) (w : World) (response : Response.t)
    (stream : ReadableStream) :
  fetch (ticks w) url method
        (headers ∪ {[ "Content-Type"%string := "application/json"%string ]}) body
    = Normal response ->
  Response.ok response = true ->
  Response.body response = Some stream ->
  stream_end stream = Closed ->
  let texts := stream_texts Utf8.new_TextDecoder (stream_chunks stream) in
  let result := makeStreamingRequest url method headers body requestId w in
  fst result
  = Normal (mkProxyResult (Response.status response) (Response.headers response)
                          (Text (concat texts))) /\
  outbox (snd result)
  = outbox w
    ++ concat (map (fun t => broadcast w requestId t false) texts)
    ++ broadcast w requestId [] true /\
  concat texts
  = snd (Utf8.decode_stream Utf8.new_TextDecoder (concat (stream_chunks stream))).
Proof.
  cbv zeta. intros Hfetch Hok Hbody Hend.
  unfold makeStreamingRequest, do_fetch, mbind, Js_bind.
  rewrite Hfetch, Hok, Hbody. cbn [negb].
  unfold try_catch. rewrite read_loop_spec, Hend.
  unfold mret, Js_ret. cbn [fst snd app].
  split; [reflexivity|]. split; [reflexivity|]. apply stream_texts_concat.
Qed.

(** X22.  A streaming request that does not get to read the stream sends
    nothing to the tabs, not even a chunk with [done = true]: when [fetch]
    rejects, the error is thrown; when the status of the response is not a
    success, the text of the body is returned with that status; when the
    response has no body to read, ["Response body is null"] is thrown. *)
Theorem stream_not_started
    (url method : string) (headers : gmap string string) (body : option string)
    (requestId : string) (w : World) :
  let outcome :=
    fetch (ticks w) url method
          (headers ∪ {[ "Content-Type"%string := "application/json"%string ]}) body in
  let result := makeStreamingRequest url method headers body requestId w in
  match outcome with
  | Thrown e => result = (Thrown e, set_ticks (S (ticks w)) w)
  | Normal response =>
      if negb (Response.ok response) then
        result
        = (Normal (mkProxyResult (Response.status response)
                                 (Response.headers response)
                                 (Text (Response.text response))),
           set_ticks (S (ticks w)) w)
      else
        Response.body response = None ->
        result = (Thrown "Response body is null", set_ticks (S (ticks w)) w)
  end.
Proof.
  cbv zeta. unfold makeStreamingRequest, do_fetch, mbind, Js_bind.
  destruct (fetch _ _ _ _ _) as [response|e]; [|reflexivity].
  destruct (negb _); [reflexivity|]. now intros ->.
Qed.

(** X23.  A status that is not a success is an answer like any other for
    the plain proxy: whatever the status of the response, [makeApiRequest]
    returns it with the headers and the body, parsed when the content type
    names JSON and as text otherwise, and only reads the cursor once.  It
    throws when [fetch] rejects, and when the content type names JSON and
    the body does not parse. *)
Theorem api_request_outcome
    (url method : string) (headers : gmap string string) (body : option string)
    (w : World) :
  let outcome :=
    fetch (ticks w) url method
          (headers ∪ {[ "Content-Type"%string := "application/json"%string ]}) body in
  let result := makeApiRequest url method headers body w in
  snd result = set_ticks (S (ticks w)) w /\
  match outcome with
  | Thrown e => fst result = Thrown e
  | Normal response =>
      let labelled :=
        match Response.headers response !! "content-type"%string with
        | Some contentType => includes contentType "application/json"
        | None => false
        end in
      if labelled && negb (Response.json response)
      then exists e, fst result = Thrown e
      else
        fst result
        = Normal (mkProxyResult (Response.status response)
                                (Response.headers response)
                                (if labelled then Json (Response.text response)
                                 else Text (Response.text response)))
  end.
Proof.
  cbv zeta. unfold makeApiRequest, do_fetch, mbind, Js_bind. cbn [fst snd].
  destruct (fetch _ _ _ _ _) as [response|e]; [|now split].
  destruct (Response.headers response !! _) as [ct|]; [|now split].
  destruct (includes ct _); [|now split].
  destruct (Response.json response); cbn; split; try reflexivity. now eexists.
Qed.

(** *** The popup *)

Lemma call_spec {A} (m : Js A) (s : PopupState.t) (w : World) :
  call m (s, w) = (fst (m w), (s, snd (m w))).
Proof. unfold call. cbn [fst snd]. now destruct (m w). Qed.

Lemma popup_bind_normal {A B} (m : Popup A) (k : A -> Popup B) x a x' :
  m x = (Normal a, x') -> (m ≫= k) x = k a x'.
Proof. intros H. unfold mbind, Popup_bind. now rewrite H. Qed.

Lemma popup_bind_thrown {A B} (m : Popup A) (k : A -> Popup B) x e x' :
  m x = (Thrown e, x') -> (m ≫= k) x = (Thrown e, x').
Proof. intros H. unfold mbind, Popup_bind. now rewrite H. Qed.

Lemma loadHistory_spec (s : PopupState.t) (w : World) :
  let shown := rev (StoredData.requestHistory (stored w)) in
  PopupStore_loadHistory (s, w)
  = (Normal tt,
     (PopupState.with_history shown s,
      set_cache (Some (StoredData.with_requestHistory shown (stored w))) w)).
Proof.
  cbv zeta. unfold PopupStore_loadHistory, StorageService_getRequestHistory.
  erewrite popup_bind_normal.
  2: { rewrite call_spec. rewrite (bind_normal _ _ _ _ _ (getAll_spec w)).
       reflexivity. }
  erewrite popup_bind_normal by (rewrite call_spec; reflexivity).
  reflexivity.
Qed.

(** X24.  [loadHistory] shows the history most recent first, and reverses
    with it the list the cache of the storage service holds, while the
    storage area keeps its order.  Called a second time it therefore shows
    the history oldest first, and puts the cache back in order. *)
Theorem history_order_flips (s : PopupState.t) (w : World) :
  let history := StoredData.requestHistory (stored w) in
  let once := snd (PopupStore_loadHistory (s, w)) in
  let twice := snd (PopupStore_loadHistory once) in
  PopupState.history (fst once) = rev history /\
  StoredData.requestHistory (stored (snd once)) = rev history /\
  local (snd once) = local w /\
  PopupState.history (fst twice) = history /\
  StoredData.requestHistory (stored (snd twice)) = history /\
  local (snd twice) = local w.
Proof.
  cbv zeta. rewrite loadHistory_spec. cbn [fst snd].
  rewrite loadHistory_spec. cbn [fst snd].
  unfold stored at 1 2 3 4. cbn. rewrite rev_involutive. repeat split.
Qed.

Lemma loadKeys_spec (s : PopupState.t) (w : World) :
  PopupStore_loadKeys (s, w)
  = (Normal tt, (PopupState.with_keys (visible_keys w) s, w)).
Proof.
  unfold PopupStore_loadKeys, VaultService_isUnlocked, VaultService_getKeys,
    visible_keys.
  erewrite popup_bind_normal by (rewrite call_spec; reflexivity).
  cbn [fst snd read].
  destruct (isUnlocked w) eqn:Hun; cbn [negb]; [|reflexivity].
  destruct (isUnlocked_true w Hun) as (keys & a & Hk & He).
  erewrite popup_bind_normal.
  2: { rewrite call_spec. unfold require_unlocked, mbind, Js_bind.
       rewrite Hk, He. reflexivity. }
  now rewrite Hk.
Qed.

(** An action that calls the vault service and then reloads the keys. *)
Lemma then_loadKeys {A} (m : Js A) (s : PopupState.t) (w : World) :
  let result := (call m;; PopupStore_loadKeys) (s, w) in
  match fst (m w) with
  | Normal _ =>
      result
      = (Normal tt, (PopupState.with_keys (visible_keys (snd (m w))) s, snd (m w)))
  | Thrown e => result = (Thrown e, (s, snd (m w)))
  end.
Proof.
  cbv zeta. unfold mbind, Popup_bind. rewrite call_spec.
  destruct (fst (m w)); [apply loadKeys_spec|reflexivity].
Qed.

(** X25.  The keys the popup shows are those of the vault.  After [addKey],
    [updateKey] or [deleteKey] has returned, and after [unlock] has returned
    [true], the keys of the store are the list of the vault when it is
    unlocked and none otherwise; when the vault service throws, or [unlock]
    returns [false], the store is left as it was.  After [lock] the store
    holds no key, shows the unlock page, and the vault is locked. *)
Theorem popup_keys_mirror_vault (s : PopupState.t) (w : World) :
  let mirrors {A} (m : Js A) (action : Popup unit) :=
    match fst (m w) with
    | Normal _ =>
        action (s, w)
        = (Normal tt, (PopupState.with_keys (visible_keys (snd (m w))) s, snd (m w)))
    | Thrown e => action (s, w) = (Thrown e, (s, snd (m w)))
    end in
  (forall provider name apiKey endpointUrl,
      mirrors (VaultService_addKey provider name apiKey endpointUrl)
              (PopupStore_addKey provider name apiKey endpointUrl)) /\
  (forall id updates,
      mirrors (VaultService_updateKey id updates) (PopupStore_updateKey id updates)) /\
  (forall id, mirrors (VaultService_deleteKey id) (PopupStore_deleteKey id)) /\
  (forall password,
      let inner := VaultService_unlock password w in
      PopupStore_unlock password (s, w)
      = match fst inner with
        | Normal true =>
            (Normal true,
             (PopupState.with_keys (visible_keys (snd inner))
                (PopupState.with_currentPage PageHome
                   (PopupState.with_isUnlocked true s)),
              snd inner))
        | Normal false => (Normal false, (s, snd inner))
        | Thrown e => (Thrown e, (s, snd inner))
        end) /\
  PopupStore_lock (s, w)
  = (Normal tt,
     (PopupState.with_keys []
        (PopupState.with_currentPage PageUnlock
           (PopupState.with_isUnlocked false s)),
      snd (VaultService_lock w))) /\
  visible_keys (snd (VaultService_lock w)) = [].
Proof.
  cbv zeta.
  split; [intros; apply then_loadKeys|].
  split; [intros; apply then_loadKeys|].
  split; [intros; apply then_loadKeys|].
  split; [|split].
  - intros password. unfold PopupStore_unlock.
    unfold mbind at 1, Popup_bind at 1. rewrite call_spec.
    destruct (fst (VaultService_unlock password w)) as [[|]|e]; try reflexivity.
    unfold mbind at 1, Popup_bind at 1.
    unfold mbind at 1, Popup_bind at 1. unfold set_state at 1. cbn [fst snd].
    now rewrite loadKeys_spec.
  - unfold PopupStore_lock, mbind, Popup_bind. rewrite call_spec.
    now rewrite lock_spec.
  - unfold visible_keys. now destruct (lock_fields w) as (_ & _ & -> & _).
Qed.

(** *** Any text through the cipher *)

Lemma scalar_values_any (n : nat) :
  forall s : jsstring,
    (length s <= n)%nat ->
    Forall (fun c => 0 <= c <= 0xFFFF) s ->
    Forall Utf8.scalar (Utf8.scalar_values s) /\
    concat (map Utf8.code_units (Utf8.scalar_values s)) = toWellFormed s /\
    (hd_error s <> Some 0xFEFF -> hd_error (Utf8.scalar_values s) <> Some 0xFEFF) /\
    (hd_error s <> Some 0xFEFF -> hd_error (toWellFormed s) <> Some 0xFEFF).
Proof.
  assert (R : Utf8.scalar 0xFFFD /\ Utf8.code_units 0xFFFD = [0xFFFD])
    by (split; [unfold Utf8.scalar; lia|reflexivity]).
  destruct R as [R1 R2].
  induction n as [|n IH]; intros s Hlen Hr.
  - destruct s; [|cbn in Hlen; lia]. cbn. repeat split; [constructor|congruence..].
  - destruct s as [|c r]; [cbn; repeat split; [constructor|congruence..]|].
    apply Forall_cons in Hr as [Hc Hr].
    cbn [Utf8.scalar_values toWellFormed]. cbn [length] in Hlen.
    destruct (IH r ltac:(lia) Hr) as (F & C & _ & _).
    destruct (Utf8.is_high c) eqn:Eh.
    + assert (c <> 0xFEFF)
        by (intros ->; discriminate Eh).
      destruct r as [|d r']; [cbn; repeat split; [now repeat constructor|congruence..]|].
      apply Forall_cons in Hr as [Hd Hr']. cbn [length] in Hlen.
      destruct (Utf8.is_low d) eqn:El.
      * destruct (IH r' ltac:(lia) Hr') as (F' & C' & _ & _).
        destruct (code_units_pair c d Eh El) as (S1 & S2 & S3).
        repeat split.
        -- now constructor.
        -- cbn [map concat]. rewrite S2, C'. reflexivity.
        -- cbn [hd_error]. congruence.
        -- cbn [hd_error]. congruence.
      * repeat split.
        -- now constructor.
        -- cbn [map concat]. rewrite R2, C. reflexivity.
        -- cbn [hd_error]. congruence.
        -- cbn [hd_error]. congruence.
    + destruct (Utf8.is_low c) eqn:El.
      * repeat split.
        -- now constructor.
        -- cbn [map concat]. rewrite R2, C. reflexivity.
        -- cbn [hd_error]. congruence.
        -- cbn [hd_error]. congruence.
      * destruct (code_units_single c Hc Eh El) as (S1 & S2).
        repeat split.
        -- now constructor.
        -- cbn [map concat]. rewrite S2, C. reflexivity.
        -- cbn [hd_error]. congruence.
        -- cbn [hd_error]. congruence.
Qed.

(** What [TextDecoder] gives back of what [TextEncoder] was given. *)
Lemma decode_encode_any (s : jsstring) :
  Forall (fun c => 0 <= c <= 0xFFFF) s ->
  Utf8.decode (Utf8.encode s) = without_mark (toWellFormed s).
Proof.
  intros Hr.
  assert (D : forall t, Forall (fun c => 0 <= c <= 0xFFFF) t ->
                        Utf8.decode (Utf8.encode t)
                        = snd (Utf8.serialize false (Utf8.scalar_values t))).
  { intros t Ht.
    destruct (scalar_values_any (length t) t (le_n _) Ht) as (F & _).
    unfold Utf8.decode, Utf8.encode, Utf8.encode_Z.
    rewrite bytes_back.
    2: { apply Forall_concat, Forall_map.
         eapply Forall_impl; [exact F|]. intros cp Hcp. now apply encode_scalar_bytes. }
    rewrite run_scalars by exact F.
    cbn [Utf8.flush Utf8.bytes_needed Utf8.fresh Z.eqb]. now rewrite app_nil_r. }
  rewrite (D s Hr).
  destruct (scalar_values_any (length s) s (le_n _) Hr) as (F & C & B1 & B2).
  destruct s as [|c r]; [reflexivity|].
  destruct (Z.eq_dec c 0xFEFF) as [->|Hne].
  - apply Forall_cons in Hr as [_ Hr].
    destruct (scalar_values_any (length r) r (le_n _) Hr) as (_ & C' & _).
    cbn [Utf8.scalar_values toWellFormed Utf8.is_high Utf8.is_low
         Z.leb Z.compare Pos.compare Pos.compare_cont andb].
    cbn [Utf8.serialize snd negb andb Z.eqb Pos.eqb without_mark]. exact C'.
  - assert (H1 : hd_error (c :: r) <> Some 0xFEFF) by (cbn; congruence).
    specialize (B1 H1). specialize (B2 H1).
    unfold Utf8.serialize.
    destruct (Utf8.scalar_values (c :: r)) as [|cp cps] eqn:Es.
    + rewrite <- C. reflexivity.
    + cbn [snd negb andb].
      destruct (Z.eqb_spec cp 0xFEFF) as [->|_]; [now elim B1|].
      rewrite C.
      destruct (toWellFormed (c :: r)) as [|t ts]; [reflexivity|].
      cbn [hd_error] in B2. unfold without_mark.
      destruct (Z.eqb_spec t 0xFEFF) as [->|_]; [now elim B2|reflexivity].
Qed.

(** X26.  What comes back from the cipher, for any text: encrypting under
    the key derived with a fresh salt and decrypting under the key derived
    again with that salt gives the text with every surrogate that is not
    half of a pair replaced by U+FFFD and, when the text starts with U+FEFF,
    without that first character. *)
Theorem round_trip_of_any_text (password : string) (plaintext : jsstring)
    (w : World) :
  Forall (fun c => 0 <= c <= 0xFFFF) plaintext ->
  fst (encrypt_then_decrypt password plaintext w)
  = Normal (without_mark (toWellFormed plaintext)).
Proof using Type gcm_decrypt_encrypt.
  intros Hr.
  unfold encrypt_then_decrypt, CryptoService_deriveKey, CryptoService_encrypt,
    CryptoService_decrypt, randomBytes, alloc, read, buffer,
    mbind, Js_bind, mret, Js_ret.
  cbn [fst snd heap set_heap set_ticks ticks].
  rewrite list_lookup_middle by reflexivity. cbn [default from_option id].
  rewrite list_lookup_middle by reflexivity. cbn [default from_option id].
  rewrite gcm_decrypt_encrypt. cbn [fst].
  now rewrite decode_encode_any.
Qed.

(** *** Changing and removing a key *)







(** X27.  With the history on and a cap of at least one, [addRequestHistory]
    leaves the most recent entries, as many as the cap allows and oldest
    first, with the new entry at the end; the history never grows beyond the
    cap once it is within it, and the store holds the same list.  With the
    history off the call writes nothing and the history stays as it was. *)
Theorem history_keeps_the_most_recent
    (entry : RequestHistoryEntry.t) (w : World) :
  let settings := StoredData.settings (stored w) in
  let max := ExtensionSettings.maxHistoryEntries settings in
  let history := StoredData.requestHistory (stored w) in
  let after := snd (StorageService_addRequestHistory entry w) in
  let history' := StoredData.requestHistory (stored after) in
  1 <= max ->
  if ExtensionSettings.historyEnabled settings
  then
    history' = most_recent (Z.to_nat max) (history ++ [entry]) /\
    last history' = Some entry /\
    Z.of_nat (length history') <= Z.max max (Z.of_nat (length history)) /\
    (Z.of_nat (length history) <= max -> Z.of_nat (length history') <= max) /\
    ChromeStorage.requestHistory (local after) = Some history'
  else
    history' = history /\
    writes after = writes w /\
    local after = local w.
Proof.
  cbv zeta. intros Hmax.
  destruct (ExtensionSettings.historyEnabled (StoredData.settings (stored w))) eqn:Hen.
  - destruct (addRequestHistory_spec entry w Hen) as (_ & Hs & Hl).
    rewrite Hl, Hs. cbn [StoredData.requestHistory StoredData.with_requestHistory].
    rewrite trimmed_most_recent by exact Hmax.
    set (history := StoredData.requestHistory (stored w)).
    assert (Hlen : length (most_recent (Z.to_nat (ExtensionSettings.maxHistoryEntries
                                                    (StoredData.settings (stored w))))
                                       (history ++ [entry]))
                   = Nat.min (Z.to_nat (ExtensionSettings.maxHistoryEntries
                                          (StoredData.settings (stored w))))
                             (S (length history))).
    { unfold most_recent. rewrite length_drop, length_app. cbn [length]. lia. }
    split; [reflexivity|]. split; [|split; [|split]].
    + unfold most_recent. rewrite length_app. cbn [length].
      rewrite drop_app_le by lia.
      replace (length history + 1 - Z.to_nat _)%nat
        with (length history - (Z.to_nat (ExtensionSettings.maxHistoryEntries
                                             (StoredData.settings (stored w))) - 1))%nat
        by lia.
      apply last_snoc.
    + rewrite Hlen. lia.
    + intros Hfit. rewrite Hlen. lia.
    + reflexivity.
  - unfold StorageService_addRequestHistory, mbind, Js_bind.
    rewrite getAll_spec, Hen. cbn. repeat split; reflexivity.
Qed.

End Extension.

(** ** The sample platform meets what was assumed *)

Lemma strip_app {A} `{EqDecision A} (p l : list A) :
  Sample.strip p (p ++ l) = Some l.
Proof.
  induction p as [|a p IH]; cbn; [reflexivity|].
  now rewrite decide_True by reflexivity.
Qed.


Lemma sample_gcm_decrypt_encrypt (key iv plaintext : bytes) :
  Sample.gcm_decrypt key iv (Sample.gcm_encrypt key iv plaintext) = Some plaintext.
Proof.
  unfold Sample.gcm_decrypt, Sample.gcm_encrypt.
  rewrite (app_assoc (Sample.frame key)). apply strip_app.
Qed.



(** ** The properties on the sample platform *)

(** C1, counterexample.  A request from an allowed domain to an unlocked
    vault, for the provider ["bogus"], which is not in the table and for
    which the vault holds no key: the answer is [NO_KEY], not
    [INVALID_REQUEST]. *)
Lemma unknown_provider_gets_no_key :
  getProviderById "bogus" = None /\
  fst (handleRequest Sample.clock Sample.uuid Sample.plain Sample.URL_hostname
         "r1" (Some Sample.bogus) (Some "https://example.com"%string)
         Sample.unlocked)
  = Normal (failure "r1" NO_KEY
              "No API key configured for bogus. Add one in the TinyLocket extension.") /\
  forall message,
    fst (handleRequest Sample.clock Sample.uuid Sample.plain Sample.URL_hostname
           "r1" (Some Sample.bogus) (Some "https://example.com"%string)
           Sample.unlocked)
    <> Normal (failure "r1" INVALID_REQUEST message).
Proof.
  assert (E : fst (handleRequest Sample.clock Sample.uuid Sample.plain
                     Sample.URL_hostname "r1" (Some Sample.bogus)
                     (Some "https://example.com"%string) Sample.unlocked)
              = Normal (failure "r1" NO_KEY
                  "No API key configured for bogus. Add one in the TinyLocket extension."))
    by (vm_compute; reflexivity).
  split; [reflexivity|]. split; [exact E|].
  intros message. rewrite E. discriminate.
Qed.

Lemma unresolved_provider_witness :
  fst (handleRequest Sample.clock Sample.uuid Sample.plain Sample.URL_hostname
         "r1" (Some Sample.bogus) (Some "https://example.com"%string)
         Sample.unlocked)
  = Normal
      (if negb (truthy (Payload.provider Sample.bogus)) then
         failure "r1" INVALID_REQUEST "Provider is required"
       else if has_key "bogus" Sample.unlocked then
         failure "r1" INVALID_REQUEST ("Unknown provider: " +:+ "bogus")
       else
         failure "r1" NO_KEY
           ("No API key configured for " +:+ "bogus" +:+
            ". Add one in the TinyLocket extension.")).
Proof.
  apply (unresolved_provider Sample.clock Sample.uuid Sample.plain
           Sample.URL_hostname "r1" Sample.bogus "https://example.com"
           "example.com" Sample.unlocked).
  - reflexivity.
  - reflexivity.
  - cbn. apply list_elem_of_here.
  - reflexivity.
Defined.

Lemma domain_not_allowed_witness :
  has_key "openai" Sample.unlocked = true /\
  fst (handleRequest Sample.clock Sample.uuid Sample.failing_stream
         Sample.URL_hostname "r2" (Some Sample.chat)
         (Some "https://other.com"%string) Sample.unlocked)
  = Normal (failure "r2" DOMAIN_NOT_ALLOWED
              ("Domain " +:+ "other.com" +:+
               " is not whitelisted. Add it in the TinyLocket extension.")).
Proof.
  split; [reflexivity|].
  apply (domain_not_allowed Sample.clock Sample.uuid Sample.failing_stream
           Sample.URL_hostname "r2" (Some Sample.chat) "https://other.com"
           "other.com" Sample.unlocked).
  - reflexivity.
  - reflexivity.
  - cbn. intros H. apply list_elem_of_singleton in H. discriminate H.
Defined.


(** C5, counterexample.  The text [U+FEFF [ ]] under the sample password
    comes back as [[ ]]: the mark at its start is lost. *)
Lemma byte_order_mark_not_returned :
  fst (encrypt_then_decrypt Sample.entropy Sample.pbkdf2 Sample.gcm_encrypt
         Sample.gcm_decrypt Sample.password [0xFEFF; 0x5B; 0x5D] Sample.initial)
  = Normal [0x5B; 0x5D] /\
  fst (encrypt_then_decrypt Sample.entropy Sample.pbkdf2 Sample.gcm_encrypt
         Sample.gcm_decrypt Sample.password [0xFEFF; 0x5B; 0x5D] Sample.initial)
  <> Normal [0xFEFF; 0x5B; 0x5D].
Proof.
  assert (E : fst (encrypt_then_decrypt Sample.entropy Sample.pbkdf2
                     Sample.gcm_encrypt Sample.gcm_decrypt Sample.password
                     [0xFEFF; 0x5B; 0x5D] Sample.initial)
              = Normal [0x5B; 0x5D]) by (vm_compute; reflexivity).
  split; [exact E|]. rewrite E. discriminate.
Qed.

Lemma round_trip_witness :
  Utf8.well_formed Sample.text /\
  fst (encrypt_then_decrypt Sample.entropy Sample.pbkdf2 Sample.gcm_encrypt
         Sample.gcm_decrypt Sample.password Sample.text Sample.initial)
  = Normal Sample.text.
Proof.
  assert (W : Utf8.well_formed Sample.text)
    by (cbn; repeat split; try lia; reflexivity).
  split; [exact W|].
  apply (round_trip Sample.entropy Sample.pbkdf2 Sample.gcm_encrypt
           Sample.gcm_decrypt sample_gcm_decrypt_encrypt
           Sample.password Sample.text Sample.initial).
  - exact W.
  - discriminate.
Defined.

(** C6, at the failing input.  History enabled and a cap of zero: after two
    entries have been logged into an empty history, both are there, where
    the cap asks for none. *)
Lemma zero_cap_keeps_every_entry :
  ExtensionSettings.historyEnabled (StoredData.settings (stored Sample.uncapped)) = true /\
  ExtensionSettings.maxHistoryEntries (StoredData.settings (stored Sample.uncapped)) = 0 /\
  StoredData.requestHistory (stored Sample.uncapped) = [] /\
  StoredData.requestHistory
    (stored (log_all [Sample.logged; Sample.logged] Sample.uncapped))
  = [Sample.logged; Sample.logged] /\
  ChromeStorage.requestHistory
    (local (log_all [Sample.logged; Sample.logged] Sample.uncapped))
  = Some [Sample.logged; Sample.logged].
Proof. repeat split; reflexivity. Qed.

Lemma stream_failure_witness :
  let result :=
    makeStreamingRequest Sample.failing_stream "https://api.openai.com/v1/chat"
      "POST" ∅ None "r3" Sample.unlocked in
  fst result = Thrown "reset" /\
  outbox (snd result)
  = [StreamChunk 7 "r3" [72; 101; 108; 108; 111] false;
     StreamChunk 9 "r3" [72; 101; 108; 108; 111] false;
     StreamChunk 7 "r3" [32; 119; 111; 114; 108; 100] false;
     StreamChunk 9 "r3" [32; 119; 111; 114; 108; 100] false;
     StreamChunk 7 "r3" [] true;
     StreamChunk 9 "r3" [] true].
Proof.
  apply (stream_failure_ends_with_done Sample.failing_stream
           "https://api.openai.com/v1/chat" "POST" ∅ None "r3" Sample.unlocked
           (Response.mk 200 ∅ [] false
              (Some (mkReadableStream [Sample.hello; Sample.world] (Errored "reset"))))
           (mkReadableStream [Sample.hello; Sample.world] (Errored "reset"))
           "reset").
  - reflexivity.
  - reflexivity.
  - reflexivity.
  - reflexivity.
Defined.

Lemma autolock_fire_witness :
  let w := Sample.unlocked in
  let minutes := ExtensionSettings.autoLockMinutes (StoredData.settings (stored w)) in
  let inactiveMs := Sample.clock (ticks w) - lastActivity w in
  let thresholdMs := minutes * 60 * 1000 in
  let after := snd (onAlarm Sample.clock AUTO_LOCK_ALARM_NAME w) in
  (minutes = 5 /\ inactiveMs = 240000) /\
  fst (onAlarm Sample.clock AUTO_LOCK_ALARM_NAME w) = Normal tt /\
  (thresholdMs <= inactiveMs ->
     isUnlocked after = false /\
     encryptionKey after = None /\
     decryptedKeys after = None /\
     outbox after = outbox w ++ [RuntimeMessage "SESSION_LOCKED"] /\
     alarm after = None) /\
  (inactiveMs < thresholdMs ->
     encryptionKey after = encryptionKey w /\
     decryptedKeys after = decryptedKeys w /\
     heap after = heap w /\
     outbox after = outbox w /\
     exists delay,
       alarm after = Some delay /\
       60000 * (delay - 1) < thresholdMs - inactiveMs <= 60000 * delay).
Proof.
  split; [split; reflexivity|].
  apply (autolock_fire Sample.clock Sample.unlocked).
  discriminate.
Defined.

Lemma changePassword_unlocks_witness :
  let result :=
    VaultService_changePassword Sample.clock Sample.entropy Sample.pbkdf2
      Sample.gcm_encrypt Sample.gcm_decrypt Sample.btoa Sample.atob
      Sample.JSON_stringify Sample.JSON_parse
      Sample.password "new-password" Sample.locked in
  isUnlocked Sample.locked = false /\
  fst result = Normal true /\
  isUnlocked (snd result) = true /\
  decryptedKeys (snd result) = Some [Sample.entry] /\
  exists a v',
    encryptionKey (snd result) = Some a /\
    buffer (snd result) a
    = derived Sample.pbkdf2 "new-password" (drawn Sample.entropy SALT_LENGTH Sample.locked) /\
    StoredData.vault (stored (snd result)) = Some v' /\
    sealed_under Sample.pbkdf2 Sample.gcm_encrypt Sample.btoa "new-password" v'.
Proof.
  split; [reflexivity|].
  apply (changePassword_unlocks Sample.clock Sample.entropy Sample.pbkdf2
           Sample.gcm_encrypt Sample.gcm_decrypt Sample.btoa Sample.atob
           Sample.JSON_stringify Sample.JSON_parse
           Sample.password "new-password" [Sample.entry] Sample.vault Sample.locked).
  - reflexivity.
  - unfold opens. vm_compute. reflexivity.
  - reflexivity.
  - exact I.
Defined.

(** ** The scenarios of the design document, run on the sample platform *)

(** Create a vault, add a key for ["openai"], lock: the right password
    unlocks and gives the secret back, a wrong one does not. *)
Example scenario_vault :
  let create :=
    VaultService_create Sample.clock Sample.entropy Sample.pbkdf2
      Sample.gcm_encrypt Sample.btoa Sample.JSON_stringify in
  let addKey :=
    VaultService_addKey Sample.clock Sample.entropy Sample.uuid
      Sample.gcm_encrypt Sample.btoa Sample.JSON_stringify in
  let unlock :=
    VaultService_unlock Sample.entropy Sample.pbkdf2 Sample.gcm_decrypt
      Sample.atob Sample.JSON_parse in
  let w1 := snd (create Sample.password Sample.initial) in
  let w2 := snd (addKey "openai" "main" "sk-test" None w1) in
  let w3 := snd (VaultService_lock w2) in
  isUnlocked w2 = true /\
  isUnlocked w3 = false /\
  fst (unlock Sample.password w3) = Normal true /\
  option_map ApiKeyEntry.apiKey
    (List.find (fun k => bool_decide (ApiKeyEntry.provider k = "openai"%string))
               (default [] (decryptedKeys (snd (unlock Sample.password w3)))))
  = Some "sk-test"%string /\
  fst (unlock "wrong" w3) = Normal false /\
  fst (VaultService_getKeys (snd (unlock "wrong" w3))) = Thrown "Vault is locked".
Proof. vm_compute. repeat split; reflexivity. Qed.

(** A streamed request from an allowed domain: the chunks, then the chunk
    with [done], and one line of history with the status of the response. *)
Example scenario_stream :
  let result :=
    handleRequest Sample.clock Sample.uuid Sample.closing_stream
      Sample.URL_hostname "r4" (Some Sample.chat)
      (Some "https://example.com"%string) Sample.unlocked in
  match fst result with
  | Normal response => MessageResponse.success response = true
  | Thrown _ => False
  end /\
  outbox (snd result)
  = [StreamChunk 7 "r4" [72; 101; 108; 108; 111] false;
     StreamChunk 9 "r4" [72; 101; 108; 108; 111] false;
     StreamChunk 7 "r4" [32; 119; 111; 114; 108; 100] false;
     StreamChunk 9 "r4" [32; 119; 111; 114; 108; 100] false;
     StreamChunk 7 "r4" [] true;
     StreamChunk 9 "r4" [] true] /\
  map RequestHistoryEntry.status (StoredData.requestHistory (stored (snd result)))
  = [200].
Proof. vm_compute. repeat split; reflexivity. Qed.

(** Adding a key to the unlocked sample vault writes one record, with the
    salt of the record before and a new ciphertext and nonce; rotating the
    password writes one record with a new salt as well. *)
Example scenario_rewrite :
  let addKey :=
    VaultService_addKey Sample.clock Sample.entropy Sample.uuid
      Sample.gcm_encrypt Sample.btoa Sample.JSON_stringify in
  let changePassword :=
    VaultService_changePassword Sample.clock Sample.entropy Sample.pbkdf2
      Sample.gcm_encrypt Sample.gcm_decrypt Sample.btoa Sample.atob
      Sample.JSON_stringify Sample.JSON_parse in
  let added := snd (addKey "anthropic" "work" "sk-ant" None Sample.unlocked) in
  let rotated := snd (changePassword Sample.password "new-password" Sample.unlocked) in
  map VaultData.salt (vault_writes added) = [VaultData.salt Sample.vault] /\
  map VaultData.iv (vault_writes added) <> [VaultData.iv Sample.vault] /\
  map VaultData.encrypted (vault_writes added) <> [VaultData.encrypted Sample.vault] /\
  length (vault_writes rotated) = 1%nat /\
  map VaultData.salt (vault_writes rotated) <> [VaultData.salt Sample.vault].
Proof. vm_compute. repeat split; discriminate. Qed.

(** Messages through [handleMessage]: a ping, a status request, a request
    from a tab on a domain that is not allowed, and a message of no known
    type. *)
Example scenario_messages :
  let handle message tab :=
    fst (handleMessage Sample.clock Sample.uuid Sample.plain Sample.URL_origin
           Sample.URL_hostname Sample.manifest_version message tab
           Sample.unlocked) in
  handle (MessagePayload.mk MESSAGE_TYPE_PING (Some "m1"%string) None None) None
  = Normal (MessageResponse.mk MESSAGE_TYPE_PONG "m1" true None
              (Some (Installed "1.0.0"))) /\
  handle (MessagePayload.mk MESSAGE_TYPE_GET_STATUS (Some "m2"%string) None None) None
  = Normal (MessageResponse.mk MESSAGE_TYPE_RESPONSE "m2" true None
              (Some (Status true "1.0.0"))) /\
  handle (MessagePayload.mk MESSAGE_TYPE_REQUEST (Some "m3"%string) None
            (Some Sample.chat))
         (Some "https://other.com"%string)
  = Normal (failure "m3" DOMAIN_NOT_ALLOWED
              "Domain other.com is not whitelisted. Add it in the TinyLocket extension.") /\
  handle (MessagePayload.mk "TINYLOCKET_OTHER" (Some "m4"%string) None None) None
  = Normal (failure "m4" INVALID_REQUEST "Unknown message type: TINYLOCKET_OTHER").
Proof. vm_compute. repeat split; reflexivity. Qed.

(** ** The sample serializer meets what was assumed of [JSON] *)



















(** ** Further properties on the sample platform *)

Lemma storage_cache_coherent_witness :
  let ops :=
    [AddWhitelistedDomain "example.com";
     AddRequestHistory Sample.logged;
     UpdateSettings (ExtensionSettings.mkPartial (Some 5) None None);
     SaveCustomEndpoint "k1" "https://localhost:1234";
     RemoveWhitelistedDomain "example.com";
     GetAll] in
  coherent Sample.initial /\
  coherent (storage_run Sample.clock ops Sample.initial) /\
  fst (StorageService_getAll
         (snd (StorageService_clearCache (storage_run Sample.clock ops Sample.initial))))
  = fst (StorageService_getAll (storage_run Sample.clock ops Sample.initial)).
Proof.
  split; [reflexivity|].
  apply (storage_cache_coherent Sample.clock
           [AddWhitelistedDomain "example.com";
            AddRequestHistory Sample.logged;
            UpdateSettings (ExtensionSettings.mkPartial (Some 5) None None);
            SaveCustomEndpoint "k1" "https://localhost:1234";
            RemoveWhitelistedDomain "example.com";
            GetAll]
           Sample.initial).
  reflexivity.
Defined.

Lemma never_auto_locks_witness :
  let w := Sample.never in
  let fired := snd (onAlarm Sample.clock AUTO_LOCK_ALARM_NAME w) in
  isUnlocked w = true /\
  fst (onAlarm Sample.clock AUTO_LOCK_ALARM_NAME w) = Normal tt /\
  same_memory w fired /\
  isUnlocked fired = isUnlocked w /\
  outbox fired = outbox w /\
  alarm fired = None /\
  alarm (snd (SessionService_resetAutoLockTimer w)) = None /\
  alarm (snd (SessionService_recordActivity Sample.clock w))
  = (if isUnlocked w then None else alarm w).
Proof.
  split; [reflexivity|].
  apply (never_auto_locks Sample.clock Sample.never). reflexivity.
Defined.

Lemma activity_postpones_auto_lock_witness :
  let w := Sample.unlocked in
  let active := snd (SessionService_recordActivity Sample.clock w) in
  let fired := snd (onAlarm Sample.clock AUTO_LOCK_ALARM_NAME (set_ticks 400 active)) in
  lastActivity active = Sample.clock (ticks w) /\
  alarm active = Some 5 /\
  isUnlocked fired = true /\
  decryptedKeys fired = decryptedKeys w /\
  encryptionKey fired = encryptionKey w /\
  heap fired = heap w /\
  is_Some (alarm fired).
Proof.
  apply (activity_postpones_auto_lock Sample.clock Sample.unlocked 400).
  - reflexivity.
  - reflexivity.
  - reflexivity.
Defined.

Lemma request_while_locked_witness :
  handleRequest Sample.clock Sample.uuid Sample.plain Sample.URL_hostname
    "r5" (Some Sample.models) (Some "https://example.com"%string) Sample.locked
  = (Normal (failure "r5" LOCKED "Extension is locked. Please unlock to continue."),
     set_ticks (S (ticks Sample.locked)) Sample.locked).
Proof.
  apply (request_while_locked Sample.clock Sample.uuid Sample.plain
           Sample.URL_hostname "r5" (Some Sample.models)
           (Some "https://example.com"%string) Sample.locked).
  reflexivity.
Defined.

Lemma origin_from_sender_witness :
  let message :=
    MessagePayload.mk MESSAGE_TYPE_REQUEST (Some "m5"%string) None
                      (Some Sample.models) in
  handleMessage Sample.clock Sample.uuid Sample.plain Sample.URL_origin
    Sample.URL_hostname Sample.manifest_version
    (MessagePayload.mk (MessagePayload.type message)
       (MessagePayload.requestId message) (Some "https://example.com"%string)
       (MessagePayload.payload message))
    (Some "https://other.com"%string) Sample.unlocked
  = handleMessage Sample.clock Sample.uuid Sample.plain Sample.URL_origin
      Sample.URL_hostname Sample.manifest_version message
      (Some "https://other.com"%string) Sample.unlocked.
Proof.
  apply (origin_from_sender Sample.clock Sample.uuid Sample.plain Sample.URL_origin
           Sample.URL_hostname Sample.manifest_version
           (MessagePayload.mk MESSAGE_TYPE_REQUEST (Some "m5"%string) None
                              (Some Sample.models))
           (Some "https://example.com"%string) "https://other.com" Sample.unlocked).
  discriminate.
Defined.

Lemma only_requests_count_as_activity_witness :
  exists cursor,
    snd (handleMessage Sample.clock Sample.uuid Sample.plain Sample.URL_origin
           Sample.URL_hostname Sample.manifest_version
           (MessagePayload.mk MESSAGE_TYPE_GET_PROVIDERS None None None)
           (Some "https://example.com"%string) Sample.unlocked)
    = set_ticks cursor Sample.unlocked.
Proof.
  apply (only_requests_count_as_activity Sample.clock Sample.uuid Sample.plain
           Sample.URL_origin Sample.URL_hostname Sample.manifest_version
           (MessagePayload.mk MESSAGE_TYPE_GET_PROVIDERS None None None)
           (Some "https://example.com"%string) Sample.unlocked).
  discriminate.
Defined.

Lemma request_proxied_witness :
  let config :=
    ProviderConfig.mk "openai" "OpenAI" "https://api.openai.com"
                      "Authorization" "Bearer " "/v1/models" false in
  getProviderById "openai" = Some config /\
  proxied Sample.clock Sample.uuid Sample.plain "r6" Sample.models
    "example.com" "openai"
    ("https://api.openai.com" +:+ "/v1/models")
    (authenticated config Sample.entry "openai" ∅)
    Sample.unlocked
    (handleRequest Sample.clock Sample.uuid Sample.plain Sample.URL_hostname
       "r6" (Some Sample.models) (Some "https://example.com"%string)
       Sample.unlocked).
Proof.
  split; [reflexivity|].
  apply (request_proxied Sample.clock Sample.uuid Sample.plain Sample.URL_hostname
           "r6" Sample.models "https://example.com" "example.com" "openai"
           Sample.entry
           (ProviderConfig.mk "openai" "OpenAI" "https://api.openai.com"
                              "Authorization" "Bearer " "/v1/models" false)
           Sample.unlocked).
  - reflexivity.
  - reflexivity.
  - reflexivity.
  - reflexivity.
  - discriminate.
  - reflexivity.
  - reflexivity.
  - reflexivity.
Defined.

Lemma custom_endpoint_witness :
  let config :=
    ProviderConfig.mk "lm_studio" "LM Studio / Custom" ""
                      "Authorization" "Bearer " "/v1/models" true in
  let result :=
    handleRequest Sample.clock Sample.uuid Sample.plain Sample.URL_hostname
      "r7" (Some Sample.local_models) (Some "https://example.com"%string)
      Sample.studio in
  let given := default ""%string (Payload.endpointUrl Sample.local_models) in
  let kept := default ""%string (ApiKeyEntry.endpointUrl Sample.studio_entry) in
  let chosen := if bool_decide (given = ""%string) then kept else given in
  chosen = "https://localhost:1234"%string /\
  if bool_decide (chosen = ""%string)
  then
    result
    = (Normal (failure "r7" INVALID_REQUEST
                 "Custom endpoint URL is required for this provider"),
       cached (active Sample.clock Sample.studio)) /\
    writes (snd result) = writes Sample.studio /\
    StoredData.requestHistory (stored (snd result))
    = StoredData.requestHistory (stored Sample.studio)
  else
    proxied Sample.clock Sample.uuid Sample.plain "r7" Sample.local_models
      "example.com" "lm_studio"
      (chosen +:+ default "undefined"%string (Payload.endpoint Sample.local_models))
      (authenticated config Sample.studio_entry "lm_studio"
         (default ∅ (Payload.headers Sample.local_models)))
      Sample.studio result.
Proof.
  split; [reflexivity|].
  apply (custom_endpoint Sample.clock Sample.uuid Sample.plain Sample.URL_hostname
           "r7" Sample.local_models "https://example.com" "example.com" "lm_studio"
           Sample.studio_entry
           (ProviderConfig.mk "lm_studio" "LM Studio / Custom" ""
                              "Authorization" "Bearer " "/v1/models" true)
           Sample.studio).
  - reflexivity.
  - reflexivity.
  - reflexivity.
  - reflexivity.
  - discriminate.
  - reflexivity.
  - reflexivity.
  - reflexivity.
Defined.




Lemma locked_vault_refuses_witness :
  VaultService_getKeys Sample.locked = (Thrown "Vault is locked", Sample.locked) /\
  (forall provider,
      VaultService_getKeyForProvider provider Sample.locked
      = (Thrown "Vault is locked", Sample.locked)) /\
  (forall provider name apiKey endpointUrl,
      VaultService_addKey Sample.clock Sample.entropy Sample.uuid
        Sample.gcm_encrypt Sample.btoa Sample.JSON_stringify
        provider name apiKey endpointUrl Sample.locked
      = (Thrown "Vault is locked", Sample.locked)) /\
  (forall id updates,
      VaultService_updateKey Sample.clock Sample.entropy Sample.gcm_encrypt
        Sample.btoa Sample.JSON_stringify id updates Sample.locked
      = (Thrown "Vault is locked", Sample.locked)) /\
  (forall id,
      VaultService_deleteKey Sample.clock Sample.entropy Sample.gcm_encrypt
        Sample.btoa Sample.JSON_stringify id Sample.locked
      = (Thrown "Vault is locked", Sample.locked)).
Proof.
  apply (locked_vault_refuses Sample.clock Sample.entropy Sample.uuid
           Sample.gcm_encrypt Sample.btoa Sample.JSON_stringify Sample.locked).
  reflexivity.
Defined.

Lemma addKey_keeps_the_key_in_use_witness :
  let added :=
    snd (VaultService_addKey Sample.clock Sample.entropy Sample.uuid
           Sample.gcm_encrypt Sample.btoa Sample.JSON_stringify
           "openai" "second" "sk-other" None Sample.unlocked) in
  let lookup (p : string) (x : World) := fst (VaultService_getKeyForProvider p x) in
  lookup "openai"%string added
  = Normal (Some match List.find
                         (fun k => bool_decide (ApiKeyEntry.provider k = "openai"%string))
                         (default [] (decryptedKeys Sample.unlocked)) with
                 | Some key => key
                 | None =>
                     new_entry Sample.clock Sample.uuid "openai" "second" "sk-other"
                               None Sample.unlocked
                 end) /\
  (forall other,
      other <> "openai"%string -> lookup other added = lookup other Sample.unlocked).
Proof.
  apply (addKey_keeps_the_key_in_use Sample.clock Sample.entropy Sample.uuid
           Sample.gcm_encrypt Sample.btoa Sample.JSON_stringify
           "openai" "second" "sk-other" None Sample.unlocked).
  reflexivity.
Defined.

Lemma stream_read_to_its_end_witness :
  let stream := mkReadableStream [Sample.hello; Sample.world] Closed in
  let texts := stream_texts Utf8.new_TextDecoder (stream_chunks stream) in
  let result :=
    makeStreamingRequest Sample.closing_stream "https://api.openai.com/v1/chat"
      "POST" ∅ None "r8" Sample.unlocked in
  fst result = Normal (mkProxyResult 200 ∅ (Text (concat texts))) /\
  outbox (snd result)
  = outbox Sample.unlocked
    ++ concat (map (fun t => broadcast Sample.unlocked "r8" t false) texts)
    ++ broadcast Sample.unlocked "r8" [] true /\
  concat texts
  = snd (Utf8.decode_stream Utf8.new_TextDecoder (concat (stream_chunks stream))).
Proof.
  apply (stream_read_to_its_end Sample.closing_stream
           "https://api.openai.com/v1/chat" "POST" ∅ None "r8" Sample.unlocked
           (Response.mk 200 ∅ [] false
              (Some (mkReadableStream [Sample.hello; Sample.world] Closed)))
           (mkReadableStream [Sample.hello; Sample.world] Closed)).
  - reflexivity.
  - reflexivity.
  - reflexivity.
  - reflexivity.
Defined.

Lemma round_trip_of_any_text_witness :
  without_mark (toWellFormed Sample.broken) = [0x41; 0xFFFD; 0x42] /\
  fst (encrypt_then_decrypt Sample.entropy Sample.pbkdf2 Sample.gcm_encrypt
         Sample.gcm_decrypt Sample.password Sample.broken Sample.initial)
  = Normal (without_mark (toWellFormed Sample.broken)).
Proof.
  split; [reflexivity|].
  apply (round_trip_of_any_text Sample.entropy Sample.pbkdf2 Sample.gcm_encrypt
           Sample.gcm_decrypt sample_gcm_decrypt_encrypt
           Sample.password Sample.broken Sample.initial).
  repeat constructor; lia.
Defined.

(** ** The page *)

Lemma step_well_formed (s : Inpage.Step) (p : Inpage.t) :
  Inpage.well_formed p -> Inpage.well_formed (snd (Inpage.step s p)).
Proof.
  intros Hwf. destruct s as [fw data|call|generator|type payload requestId|options requestId];
    cbn [Inpage.step snd].
  - unfold Inpage.listener.
    destruct fw; cbn [negb]; [|exact Hwf].
    destruct data as [data|]; [|exact Hwf].
    case_bool_decide as Ht; cbn [negb]; [|exact Hwf].
    set (pending := match EventData.requestId data with
                    | Some r => Inpage.pendingRequests p !! r
                    | None => None
                    end).
    assert (Alter : forall f g,
               Inpage.well_formed
                 (Inpage.with_generators (alter f g (Inpage.generators p)) p)).
    { intros f g r h. cbn. rewrite length_alter. apply Hwf. }
    assert (Delete : forall r cs,
               Inpage.well_formed
                 (Inpage.mk (delete r (Inpage.pendingRequests p)) cs
                            (Inpage.generators p) (Inpage.posted p))).
    { intros r cs r' h. cbn. rewrite lookup_delete_Some. intros [_ H].
      exact (Hwf _ _ H). }
    case_bool_decide as Hty.
    + destruct pending as [[c|g]|]; try exact Hwf.
      destruct (EventData.done data).
      * unfold Inpage.resolve, Inpage.streamCallback, Inpage.with_generators.
        cbn. intros r h. cbn. rewrite !length_alter. apply Hwf.
      * apply Alter.
    + destruct pending as [[c|g]|]; try exact Hwf.
      * destruct (EventData.success data); unfold Inpage.resolve, Inpage.reject;
          destruct (Inpage.calls p !! c); try exact Hwf; apply Delete.
      * destruct (EventData.success data); apply Alter.
  - unfold Inpage.timed_out.
    destruct (Inpage.calls p !! call) as [c|]; [|exact Hwf].
    destruct (Inpage.timer c); [|exact Hwf].
    intros r h. cbn. rewrite lookup_delete_Some. intros [_ H]. exact (Hwf _ _ H).
  - destruct (Inpage.generators p !! generator) as [g|]; [|exact Hwf].
    destruct (Inpage.resume g) as [turn g']. cbn [snd].
    intros r h. cbn. rewrite length_insert. apply Hwf.
  - intros r h. cbn. rewrite lookup_insert_Some.
    intros [[_ H]|[_ H]]; [discriminate|exact (Hwf _ _ H)].
  - intros r h. cbn. rewrite lookup_insert_Some, length_app. cbn.
    intros [[_ H]|[_ H]]; [injection H as <-; lia|].
    pose proof (Hwf _ _ H). lia.
Qed.

Lemma run_well_formed (steps : list Inpage.Step) (p : Inpage.t) :
  Inpage.well_formed p -> Inpage.well_formed (snd (Inpage.run steps p)).
Proof.
  revert p. induction steps as [|s steps IH]; intros p Hwf; [exact Hwf|].
  cbn [Inpage.run].
  pose proof (step_well_formed s p Hwf) as H1.
  destruct (Inpage.step s p) as [turn p']. cbn [snd] in H1.
  specialize (IH p' H1).
  destruct (Inpage.run steps p') as [turns p'']. exact IH.
Qed.

Lemma stream_streaming (options : Payload.t) (requestId : string) (p : Inpage.t) :
  Inpage.well_formed p ->
  Inpage.streaming (length (Inpage.generators p)) requestId
                   (Inpage.stream options requestId p).
Proof.
  intros Hwf. split.
  - eexists. cbn. split; [apply list_lookup_middle; reflexivity|reflexivity].
  - intros other. cbn. rewrite lookup_insert_Some.
    intros [[H _]|[_ H]]; [now symmetry|].
    pose proof (Hwf _ _ H). lia.
Qed.

Lemma step_streaming (generator : nat) (requestId : string)
    (s : Inpage.Step) (p : Inpage.t) :
  Inpage.streaming generator requestId p ->
  Inpage.ends requestId s = false ->
  Inpage.streaming generator requestId (snd (Inpage.step s p)) /\
  forall stop,
    fst (Inpage.step s p) = Some stop ->
    fst stop = generator ->
    snd stop = Inpage.Sleeping \/ exists chunk, snd stop = Inpage.Yielded chunk.
Proof.
  intros [(g & Hg & Hd) Hown] Hends.
  assert (Alter : forall f h,
             (h = generator -> Inpage.done (f g) = false) ->
             Inpage.streaming generator requestId
               (Inpage.with_generators (alter f h (Inpage.generators p)) p)).
  { intros f h Hf. split; [|exact Hown]. cbn.
    destruct (decide (h = generator)) as [->|Hne].
    - exists (f g). rewrite list_lookup_alter_eq, Hg. split; [reflexivity|auto].
    - exists g. rewrite list_lookup_alter_ne by exact Hne. now split. }
  assert (Delete : forall r cs,
             Inpage.streaming generator requestId
               (Inpage.mk (delete r (Inpage.pendingRequests p)) cs
                          (Inpage.generators p) (Inpage.posted p))).
  { intros r cs. split; [now exists g|]. intros other. cbn.
    rewrite lookup_delete_Some. intros [_ H]. exact (Hown _ H). }
  destruct s as [fw data|call|h|type payload r|options r]; cbn [Inpage.step fst snd].
  - split; [|discriminate].
    unfold Inpage.listener.
    destruct fw; cbn [negb]; [|now split; [exists g|]].
    destruct data as [data|]; [|now split; [exists g|]].
    cbn [Inpage.ends] in Hends.
    case_bool_decide as Ht; cbn [negb andb] in *; [|now split; [exists g|]].
    destruct (EventData.requestId data) as [r|] eqn:Hr;
      [|repeat case_bool_decide; now split; [exists g|]].
    destruct (Inpage.pendingRequests p !! r) as [pending|] eqn:Hp;
      [|repeat case_bool_decide; now split; [exists g|]].
    assert (Mine : pending = Inpage.OfStream generator ->
                   (if bool_decide (EventData.type data = Some MESSAGE_TYPE_STREAM_CHUNK)
                    then EventData.done data else EventData.success data) = false).
    { intros ->. rewrite (Hown r Hp) in Hends.
      now rewrite bool_decide_eq_true_2 in Hends by reflexivity. }
    case_bool_decide as Hty.
    + destruct pending as [c|h]; [now split; [exists g|]|].
      destruct (EventData.done data) eqn:Hdone.
      * assert (Hne : h <> generator) by (intros ->; now specialize (Mine eq_refl)).
        split; [|exact Hown]. exists g. cbn.
        rewrite !list_lookup_alter_ne by exact Hne. now split.
      * apply Alter. intros _. exact Hd.
    + destruct pending as [c|h].
      * destruct (EventData.success data); unfold Inpage.resolve, Inpage.reject;
          destruct (Inpage.calls p !! c); try apply Delete; now split; [exists g|].
      * destruct (EventData.success data) eqn:Hs.
        -- assert (Hne : h <> generator) by (intros ->; now specialize (Mine eq_refl)).
           split; [|exact Hown]. exists g. cbn.
           rewrite list_lookup_alter_ne by exact Hne. now split.
        -- apply Alter. intros _. exact Hd.
  - split; [|discriminate].
    unfold Inpage.timed_out.
    destruct (Inpage.calls p !! call) as [c|]; [|now split; [exists g|]].
    destruct (Inpage.timer c); [apply Delete|now split; [exists g|]].
  - destruct (decide (h = generator)) as [->|Hne].
    + rewrite Hg. unfold Inpage.resume. rewrite Hd. cbn [negb].
      destruct (Inpage.chunks g) as [|chunk rest]; cbn [fst snd].
      * split.
        -- split; [|exact Hown]. exists g. cbn.
           rewrite list_lookup_insert_eq by (eapply lookup_lt_Some; exact Hg).
           now split.
        -- intros stop [= <-] _. now left.
      * split.
        -- split; [|exact Hown]. eexists. cbn.
           rewrite list_lookup_insert_eq by (eapply lookup_lt_Some; exact Hg).
           split; reflexivity.
        -- intros stop [= <-] _. right. now eexists.
    + destruct (Inpage.generators p !! h) as [g'|];
        [|split; [now split; [exists g|]|discriminate]].
      destruct (Inpage.resume g') as [turn g'']. cbn [fst snd].
      split.
      * split; [|exact Hown]. exists g. cbn.
        rewrite list_lookup_insert_ne by exact Hne. now split.
      * intros stop [= <-] Heq. cbn in Heq. contradiction.
  - split; [|discriminate]. split.
    + now exists g.
    + intros other. cbn. rewrite lookup_insert_Some.
      intros [[_ H]|[_ H]]; [discriminate|exact (Hown _ H)].
  - split; [|discriminate]. split.
    + exists g. cbn. rewrite lookup_app_l by (eapply lookup_lt_Some; exact Hg).
      now split.
    + intros other. cbn. rewrite lookup_insert_Some.
      intros [[_ H]|[_ H]]; [|exact (Hown _ H)].
      injection H as Hh. apply lookup_lt_Some in Hg. lia.
Qed.

Lemma run_streaming (generator : nat) (requestId : string)
    (steps : list Inpage.Step) (p : Inpage.t) :
  Inpage.streaming generator requestId p ->
  Forall (fun s => Inpage.ends requestId s = false) steps ->
  Inpage.streaming generator requestId (snd (Inpage.run steps p)) /\
  Forall (fun stop =>
            fst stop = generator ->
            snd stop = Inpage.Sleeping \/ exists chunk, snd stop = Inpage.Yielded chunk)
         (fst (Inpage.run steps p)).
Proof.
  intros Hs Hall. revert p Hs.
  induction Hall as [|s steps Hends _ IH]; intros p Hs.
  - split; [exact Hs|constructor].
  - cbn [Inpage.run].
    destruct (step_streaming generator requestId s p Hs Hends) as [H1 H2].
    destruct (Inpage.step s p) as [turn p']. cbn [fst snd] in *.
    destruct (IH p' H1) as [H3 H4].
    destruct (Inpage.run steps p') as [turns p'']. cbn [fst snd] in *.
    split; [exact H3|].
    destruct turn as [stop|]; [|exact H4].
    constructor; [|exact H4]. intros Hstop. now apply H2.
Qed.

(** X30.  A generator of [stream] ends, by returning or by throwing, only
    once the page has got a chunk with [done] set or an answer with
    [success] set for its request.  Whatever happened in the page before the
    call and whatever happens after it, as long as no such message comes each
    stop of the generator is a chunk it yields or a sleep of ten
    milliseconds.  An answer that reports a failure is no such message: it
    leaves its error in the variable of the generator, and the generator,
    which looks at that variable after its loop only, sleeps on. *)
Theorem stream_ends_only_when_told
    (before : list Inpage.Step) (options : Payload.t) (requestId : string)
    (steps : list Inpage.Step) :
  let p := snd (Inpage.run before Inpage.initial) in
  let generator := length (Inpage.generators p) in
  let started := Inpage.stream options requestId p in
  let result := Inpage.run steps started in
  Forall (fun s => Inpage.ends requestId s = false) steps ->
  Forall (fun stop =>
            fst stop = generator ->
            snd stop = Inpage.Sleeping \/ exists chunk, snd stop = Inpage.Yielded chunk)
         (fst result) /\
  Inpage.done <$> Inpage.generators (snd result) !! generator = Some false /\
  forall code message,
    let refused :=
      Inpage.Message true
        (Some (posted_answer (Some requestId)
                 (Normal (failure requestId code message)))) in
    Inpage.ends requestId refused = false /\
    Inpage.generators (snd (Inpage.run [refused; Inpage.Resume generator] started))
      !! generator
    = Some (Inpage.mkGenerator []
              false
              (Some (Inpage.mkFailure (Inpage.or_else (Some message) "Unknown error")
                                      (Some (code_name code))))) /\
    fst (Inpage.run [refused; Inpage.Resume generator] started)
    = [(generator, Inpage.Sleeping)].
Proof.
  cbv zeta. intros Hall.
  assert (Hwf : Inpage.well_formed (snd (Inpage.run before Inpage.initial))).
  { apply run_well_formed. intros r h. cbn. now rewrite lookup_empty. }
  set (p := snd (Inpage.run before Inpage.initial)) in *.
  pose proof (stream_streaming options requestId p Hwf) as Hs.
  destruct (run_streaming _ requestId steps _ Hs Hall) as [[(g & Hg & Hd) _] Hturns].
  split; [exact Hturns|]. split; [now rewrite Hg; cbn; rewrite Hd|].
  intros code message. split.
  - cbn. rewrite bool_decide_eq_true_2 by reflexivity.
    rewrite bool_decide_eq_true_2 by reflexivity.
    now rewrite bool_decide_eq_false_2 by discriminate.
  - cbn [Inpage.run Inpage.step Inpage.listener negb posted_answer failure
         EventData.target EventData.requestId EventData.type EventData.success
         EventData.done EventData.chunk EventData.data EventData.error_message
         EventData.error_code MessageResponse.type MessageResponse.requestId
         MessageResponse.success MessageResponse.error MessageResponse.data
         fmap option_fmap option_map fst snd].
    rewrite bool_decide_eq_true_2 by reflexivity. cbn [negb].
    rewrite (bool_decide_eq_false_2 (Some MESSAGE_TYPE_RESPONSE = Some MESSAGE_TYPE_STREAM_CHUNK))
      by discriminate.
    cbn [Inpage.stream Inpage.pendingRequests].
    rewrite lookup_insert_eq.
    cbn [Inpage.reject Inpage.with_generators Inpage.generators Inpage.pendingRequests
         Inpage.calls Inpage.posted].
    rewrite list_lookup_alter_eq.
    assert (Hm : Inpage.generators (Inpage.stream options requestId p)
                 !! length (Inpage.generators p)
                 = Some (Inpage.mkGenerator [] false None))
      by (cbn; apply list_lookup_middle; reflexivity).
    rewrite Hm. cbn.
    rewrite list_lookup_insert_eq by (rewrite length_alter, length_app; cbn; lia).
    assert (Hc : Inpage.or_else (Some (code_name code)) "NETWORK_ERROR" = code_name code)
      by (destruct code; reflexivity).
    unfold Inpage.or_else in Hc. rewrite Hc. split; reflexivity.
Qed.

Lemma stream_ends_only_when_told_witness :
  let options :=
    Payload.mk (Some "openai"%string) (Some "/v1/chat/completions"%string)
               (Some "POST"%string) None None None None in
  let before := [Inpage.SendMessage MESSAGE_TYPE_PING None "1-a"] in
  let steps :=
    [Inpage.Message true (Some (posted_chunk "2-b" [0x68; 0x69] false));
     Inpage.Resume 0;
     Inpage.Message true
       (Some (posted_answer (Some "2-b"%string)
                (Normal (failure "2-b" LOCKED "Extension is locked"))));
     Inpage.TimerFires 0;
     Inpage.Resume 0] in
  let p := snd (Inpage.run before Inpage.initial) in
  let generator := length (Inpage.generators p) in
  let started := Inpage.stream options "2-b" p in
  let result := Inpage.run steps started in
  fst result = [(0%nat, Inpage.Yielded [0x68; 0x69]); (0%nat, Inpage.Sleeping)] /\
  Forall (fun stop =>
            fst stop = generator ->
            snd stop = Inpage.Sleeping \/ exists chunk, snd stop = Inpage.Yielded chunk)
         (fst result) /\
  Inpage.done <$> Inpage.generators (snd result) !! generator = Some false.
Proof.
  cbv zeta. split; [vm_compute; reflexivity|].
  pose proof (stream_ends_only_when_told
                [Inpage.SendMessage MESSAGE_TYPE_PING None "1-a"]
                (Payload.mk (Some "openai"%string) (Some "/v1/chat/completions"%string)
                            (Some "POST"%string) None None None None)
                "2-b"
                [Inpage.Message true (Some (posted_chunk "2-b" [0x68; 0x69] false));
                 Inpage.Resume 0;
                 Inpage.Message true
                   (Some (posted_answer (Some "2-b"%string)
                            (Normal (failure "2-b" LOCKED "Extension is locked"))));
                 Inpage.TimerFires 0;
                 Inpage.Resume 0]) as H.
  cbv zeta in H.
  destruct H as (H1 & H2 & _).
  - repeat constructor.
  - split; [exact H1|exact H2].
Defined.

Lemma history_keeps_the_most_recent_witness :
  let entry :=
    RequestHistoryEntry.mk "h1" 5 "openai" "/v1/models" "example.com" 200 12 in
  let after := snd (StorageService_addRequestHistory entry Sample.unlocked) in
  1 <= ExtensionSettings.maxHistoryEntries (StoredData.settings (stored Sample.unlocked)) /\
  last (StoredData.requestHistory (stored after)) = Some entry /\
  ChromeStorage.requestHistory (local after)
  = Some (StoredData.requestHistory (stored after)).
Proof.
  cbv zeta. split; [vm_compute; discriminate|].
  pose proof (history_keeps_the_most_recent
                (RequestHistoryEntry.mk "h1" 5 "openai" "/v1/models" "example.com" 200 12)
                Sample.unlocked) as H.
  cbv zeta in H.
  assert (Hen : ExtensionSettings.historyEnabled
                  (StoredData.settings (stored Sample.unlocked)) = true)
    by reflexivity.
  rewrite Hen in H.
  destruct H as (_ & Hlast & _ & _ & Hlocal); [vm_compute; discriminate|].
  split; [exact Hlast|exact Hlocal].
Defined.


